(** * useExcelValidation: a shallow embedding of the validation composable

    The development follows [composables/useExcelValidation.ts] and the type
    declarations of [types/excel.ts]:

    - JavaScript strings are sequences of code units, here the code units
      below 256, carried by [string];
    - cell values are the primitives the sheet decoder produces: undefined,
      null, strings, numbers and booleans; a number cell is carried by its
      integer value and printed in decimal, as [String] prints the safe
      integers (those of magnitude below 2 ^ 53);
    - a row is a finite map from its own property names to values; reading
      a name that the row does not own and that [Object.prototype] does
      not define gives [undefined]; assigning to the name [__proto__]
      creates no own property;
    - the progress percentage is computed in double precision, as the
      source computes it;
    - objects and [Map]s whose iteration order the code relies on are
      association lists kept in the order JavaScript iterates them;
    - the two reactive cells ([validationProgress], [isValidationCancelled])
      are explicit state; whatever runs while the engine is suspended in
      [updateProgress] is an [Observer] acting on the cells;
    - custom validators are functions of their arguments;
    - the sheet decoder is outside the composable: [validateExcelFile] takes
      it as an argument. *)

From Stdlib Require Import ZArith Ascii String List Bool Lia.
From Stdlib Require Floats.
From stdpp Require Import base strings gmap list pretty.

Local Open Scope string_scope.

(** ** Strings *)

Module JsString.

(** WhiteSpace and LineTerminator code units below 256: TAB, LF, VT, FF,
    CR, SP and NBSP.  [String.prototype.trim] and the [\s] class use the
    same set. *)
Definition isWhiteSpace (c : ascii) : bool :=
  let n := nat_of_ascii c in
  (n =? 9)%nat || (n =? 10)%nat || (n =? 11)%nat || (n =? 12)%nat
  || (n =? 13)%nat || (n =? 32)%nat || (n =? 160)%nat.

Definition isDigit (c : ascii) : bool :=
  let n := nat_of_ascii c in (48 <=? n)%nat && (n <=? 57)%nat.

Fixpoint trimStart (s : string) : string :=
  match s with
  | EmptyString => EmptyString
  | String c s' => if isWhiteSpace c then trimStart s' else s
  end.

Fixpoint trimEnd (s : string) : string :=
  match s with
  | EmptyString => EmptyString
  | String c s' =>
      match trimEnd s' with
      | EmptyString => if isWhiteSpace c then EmptyString else String c EmptyString
      | t => String c t
      end
  end.

Definition trim (s : string) : string := trimEnd (trimStart s).

(** [s.replace(/\s+/g, empty)]: every white-space code unit is dropped. *)
Fixpoint removeWhiteSpace (s : string) : string :=
  match s with
  | EmptyString => EmptyString
  | String c s' =>
      if isWhiteSpace c then removeWhiteSpace s' else String c (removeWhiteSpace s')
  end.

(** [xs.join(sep)] on an array of strings. *)
Definition join (sep : string) (xs : list string) : string := String.concat sep xs.

End JsString.

(** ** Regular expressions

    The patterns of the source are anchored with [^] and [$] and use only
    classes, concatenation, alternation and counted repetition, so
    [RegExp.prototype.test] decides membership of the whole string in the
    language of the pattern.  Membership is computed with derivatives. *)

Module RegExp.

Inductive t : Type :=
| Never : t
| Eps : t
| Class (p : ascii -> bool) : t
| Seq (r1 r2 : t) : t
| Alt (r1 r2 : t) : t
| Star (r : t) : t.

Fixpoint nullable (r : t) : bool :=
  match r with
  | Never => false
  | Eps => true
  | Class _ => false
  | Seq r1 r2 => nullable r1 && nullable r2
  | Alt r1 r2 => nullable r1 || nullable r2
  | Star _ => true
  end.

Fixpoint deriv (c : ascii) (r : t) : t :=
  match r with
  | Never => Never
  | Eps => Never
  | Class p => if p c then Eps else Never
  | Seq r1 r2 =>
      if nullable r1 then Alt (Seq (deriv c r1) r2) (deriv c r2)
      else Seq (deriv c r1) r2
  | Alt r1 r2 => Alt (deriv c r1) (deriv c r2)
  | Star r1 => Seq (deriv c r1) (Star r1)
  end.

Fixpoint test (r : t) (s : string) : bool :=
  match s with
  | EmptyString => nullable r
  | String c s' => test (deriv c r) s'
  end.

Definition Char (a : ascii) : t := Class (Ascii.eqb a).
Definition Plus (r : t) : t := Seq r (Star r).
Definition Opt (r : t) : t := Alt r Eps.

(** [r{n}] *)
Fixpoint Exactly (n : nat) (r : t) : t :=
  match n with
  | O => Eps
  | S n' => Seq r (Exactly n' r)
  end.

(** [r{0,n}] *)
Fixpoint AtMost (n : nat) (r : t) : t :=
  match n with
  | O => Eps
  | S n' => Opt (Seq r (AtMost n' r))
  end.

(** [r{lo,hi}] *)
Definition Between (lo hi : nat) (r : t) : t :=
  Seq (Exactly lo r) (AtMost (hi - lo) r).

Fixpoint Lit (s : string) : t :=
  match s with
  | EmptyString => Eps
  | String c s' => Seq (Char c) (Lit s')
  end.

End RegExp.

(** ** Cell values *)

Inductive JsValue : Type :=
| VUndefined : JsValue
| VNull : JsValue
| VString (s : string) : JsValue
| VNumber (n : Z) : JsValue
| VBoolean (b : bool) : JsValue.

#[global] Instance JsValue_eq_dec : EqDecision JsValue.
Proof. solve_decision. Defined.

(** [typeof v] *)
Definition typeof (v : JsValue) : string :=
  match v with
  | VUndefined => "undefined"
  | VNull => "object"
  | VString _ => "string"
  | VNumber _ => "number"
  | VBoolean _ => "boolean"
  end.

(** [String(v)], also what a template literal and [join] apply to an
    element that is neither null nor undefined.  A number is printed by its
    decimal digits, which is what [String] gives for a safe integer (see
    [isSafeInteger]); larger numbers, which JavaScript prints by their
    shortest digits or with an exponent, are outside the embedding. *)
Definition String_ (v : JsValue) : string :=
  match v with
  | VUndefined => "undefined"
  | VNull => "null"
  | VString s => s
  | VNumber n => pretty n
  | VBoolean true => "true"
  | VBoolean false => "false"
  end.

(** [v == null], true for null and undefined only. *)
Definition isNullish (v : JsValue) : bool :=
  match v with
  | VUndefined | VNull => true
  | _ => false
  end.

(** [xs.join(sep)] on an array of values: null and undefined elements give
    the empty string. *)
Definition joinValues (sep : string) (xs : list JsValue) : string :=
  JsString.join sep (map (fun v => if isNullish v then EmptyString else String_ v) xs).

(** [xs.includes(v)] (SameValueZero on primitives). *)
Definition includes (xs : list JsValue) (v : JsValue) : bool :=
  existsb (fun x => bool_decide (x = v)) xs.

(** A row of the sheet, [Record<string, any>]. *)
Abbreviation Row := (gmap string JsValue).

(** The names every plain object inherits from [Object.prototype]. *)
Definition inheritedName (k : string) : bool :=
  bool_decide (k ∈ [ "constructor"; "hasOwnProperty"; "isPrototypeOf";
                     "propertyIsEnumerable"; "toLocaleString"; "toString"; "valueOf";
                     "__defineGetter__"; "__defineSetter__"; "__lookupGetter__";
                     "__lookupSetter__"; "__proto__" ]).

(** [row[column]], for a name that the row owns or that is not inherited:
    an absent property reads as [undefined].  (An inherited name that the
    row does not own reads as a function, or as the prototype for
    [__proto__]: values outside [JsValue].) *)
Definition getProp (r : Row) (k : string) : JsValue := default VUndefined (r !! k).

(** [row[column] = value]: an assignment to the name [__proto__] reaches
    the setter of [Object.prototype], which changes the prototype at most
    and creates no own property. *)
Definition setProp (r : Row) (k : string) (v : JsValue) : Row :=
  if String.eqb k "__proto__" then r else <[k := v]> r.

(** [Number.isSafeInteger]: the integers that [String] prints digit by
    digit and that doubles tell apart. *)
Definition isSafeInteger (n : Z) : bool := (Z.abs n <=? 9007199254740991)%Z.

Definition safeValue (v : JsValue) : bool :=
  match v with
  | VNumber n => isSafeInteger n
  | _ => true
  end.

Definition safeRow (r : Row) : Prop := map_Forall (fun _ v => safeValue v = true) r.

(** ** Types of [types/excel.ts] *)

(** [ExcelCellDataType]; the [undefined] alternative is [None] in
    [type] below. *)
Inductive ExcelCellDataType : Type :=
| TypeString | TypeNumber | TypeBoolean | TypeObject.

Definition typeName (t : ExcelCellDataType) : string :=
  match t with
  | TypeString => "string"
  | TypeNumber => "number"
  | TypeBoolean => "boolean"
  | TypeObject => "object"
  end.

Inductive ExcelCellErrorType : Type :=
| REQUIRED | TYPE_MISMATCH | EMAIL_RULE | MOBILE_RULE | EMPLOYEE_RULE
| ACCEPTED_VALUES | CUSTOM_VALIDATION | DUPLICATE.

#[global] Instance ExcelCellErrorType_eq_dec : EqDecision ExcelCellErrorType.
Proof. solve_decision. Defined.

(** [ExcelCellValidationError].  The engine always writes a single row
    number into [row]. *)
Record ExcelCellValidationError : Type := mkError {
  row : nat;
  column : string;
  message : string;
  errorType : ExcelCellErrorType
}.

#[global] Instance ExcelCellValidationError_eq_dec : EqDecision ExcelCellValidationError.
Proof. solve_decision. Defined.

(** What a custom validator returns: [true] or an error object. *)
Inductive CustomResult : Type :=
| CustomTrue : CustomResult
| CustomError (e : ExcelCellValidationError) : CustomResult.

(** [validators?: { isEmail?, isMobileNumber?, isEmployeeNumber? }]; an
    absent switch is falsy. *)
Record ExcelValidators : Type := mkValidators {
  useEmail : bool;
  useMobileNumber : bool;
  useEmployeeNumber : bool
}.

(** [ExcelValidationSchemaOption].  [customValidator] is declared as
    [(value, rowData?) => ExcelCellValidationError | true]: the second
    argument is [None] when the caller passes none. *)
Record ExcelValidationSchemaOption : Type := mkOption {
  required : bool;
  type : option ExcelCellDataType;
  validators : option ExcelValidators;
  acceptedValues : option (list JsValue);
  customValidator : option (JsValue -> option Row -> CustomResult)
}.

(** [Object.entries(schema)]: the schema is given by its entries, in the
    order the object enumerates them; property names are distinct. *)
Definition ExcelValidationSchema : Type := list (string * ExcelValidationSchemaOption).

Definition schemaKeys (schema : ExcelValidationSchema) : list string := map fst schema.

(** [ExcelUniqueConstraint = string[][]] *)
Definition ExcelUniqueConstraint : Type := list (list string).

(** ** Built-in validators *)

(** [[^\s@]] *)
Definition notSpaceOrAt (c : ascii) : bool :=
  negb (JsString.isWhiteSpace c || Ascii.eqb c "@").

(** [/^[^\s@]+@[^\s@]+\.[^\s@]+$/] *)
Definition emailPattern : RegExp.t :=
  RegExp.Seq (RegExp.Plus (RegExp.Class notSpaceOrAt))
    (RegExp.Seq (RegExp.Char "@")
       (RegExp.Seq (RegExp.Plus (RegExp.Class notSpaceOrAt))
          (RegExp.Seq (RegExp.Char ".") (RegExp.Plus (RegExp.Class notSpaceOrAt))))).

Definition isEmail (value : string) : bool := RegExp.test emailPattern value.

(** [/^\d{7,9}$/] *)
Definition employeePattern : RegExp.t :=
  RegExp.Between 7 9 (RegExp.Class JsString.isDigit).

Definition isEmployeeNumber (value : JsValue) : bool :=
  RegExp.test employeePattern (String_ value).

(** [/^(?:\+91|0)?\s*\d{10}$/] *)
Definition mobilePattern : RegExp.t :=
  RegExp.Seq (RegExp.Opt (RegExp.Alt (RegExp.Lit "+91") (RegExp.Lit "0")))
    (RegExp.Seq (RegExp.Star (RegExp.Class JsString.isWhiteSpace))
       (RegExp.Exactly 10 (RegExp.Class JsString.isDigit))).

Definition isMobileNumber (value : JsValue) : bool :=
  RegExp.test mobilePattern (JsString.removeWhiteSpace (String_ value)).

(** ** Header validation *)

(** Calls on [console], in the order they are made, with the text they
    print (style directives left out). *)
Inductive ConsoleCall : Type :=
| console_group (label : string)
| console_log (text : string)
| console_groupEnd.

Definition validateHeaderLog (excelSchema : ExcelValidationSchema) (excelHeader : list string)
  : bool * list ConsoleCall :=
  let expectedHeaders := schemaKeys excelSchema in
  let excelHeaders := map JsString.trim excelHeader in
  let missingHeaders :=
    List.filter (fun h => negb (bool_decide (h ∈ excelHeaders))) expectedHeaders in
  if (0 <? length missingHeaders)%nat then
    (false,
     [ console_group "[Excel Validation] Missing Columns Detected";
       console_log ("Missing Columns: " ++ JsString.join ", " missingHeaders);
       console_log ("Expected Headers: " ++ JsString.join ", " expectedHeaders);
       console_log ("Found Headers: " ++ JsString.join ", " excelHeaders);
       console_groupEnd ])
  else
    let extraHeaders :=
      List.filter (fun h => negb (bool_decide (h ∈ expectedHeaders))) excelHeaders in
    if (0 <? length extraHeaders)%nat then
      (true,
       [ console_log ("Additional columns are present in the file: "
                      ++ JsString.join "," extraHeaders
                      ++ ". These columns will be ignored.") ])
    else (true, []).

Definition validateHeader (excelSchema : ExcelValidationSchema) (excelHeader : list string) : bool :=
  fst (validateHeaderLog excelSchema excelHeader).

(** ** Insertion-ordered containers *)

(** [Map<string, V>]: iteration follows first insertion; [set] on a present
    key keeps its place. *)
Module JsMap.

Definition t (V : Type) : Type := list (string * V).

Fixpoint get {V} (m : t V) (k : string) : option V :=
  match m with
  | [] => None
  | (k', v) :: m' => if String.eqb k' k then Some v else get m' k
  end.

Definition has {V} (m : t V) (k : string) : bool :=
  match get m k with Some _ => true | None => false end.

Fixpoint set {V} (m : t V) (k : string) (v : V) : t V :=
  match m with
  | [] => [(k, v)]
  | (k', v') :: m' =>
      if String.eqb k' k then (k, v) :: m' else (k', v') :: set m' k v
  end.

End JsMap.

(** A plain object used as a dictionary, given by its own properties.  Own
    property keys are enumerated with the array indices first, in ascending
    numeric order, then the other strings in creation order; assigning to a
    present key keeps its place. *)
Module JsObject.

Definition t (V : Type) : Type := list (string * V).

Fixpoint digitsValue (s : string) (acc : N) : option N :=
  match s with
  | EmptyString => Some acc
  | String c s' =>
      if JsString.isDigit c
      then digitsValue s' (acc * 10 + (N_of_ascii c - 48))%N
      else None
  end.

(** The canonical numeric strings of 0 .. 2^32 - 2. *)
Definition arrayIndex (k : string) : option N :=
  match k with
  | EmptyString => None
  | String c rest =>
      if Ascii.eqb c "0" && negb (String.eqb rest EmptyString) then None
      else match digitsValue k 0%N with
           | Some n => if (n <=? 4294967294)%N then Some n else None
           | None => None
           end
  end.

Fixpoint get {V} (o : t V) (k : string) : option V :=
  match o with
  | [] => None
  | (k', v) :: o' => if String.eqb k' k then Some v else get o' k
  end.

(** Whether a new key [k] is enumerated before the present key [k']. *)
Definition before (k k' : string) : bool :=
  match arrayIndex k, arrayIndex k' with
  | Some n, Some n' => (n <? n')%N
  | Some _, None => true
  | None, _ => false
  end.

Fixpoint create {V} (o : t V) (k : string) (v : V) : t V :=
  match o with
  | [] => [(k, v)]
  | (k', v') :: o' =>
      if before k k' then (k, v) :: o else (k', v') :: create o' k v
  end.

Fixpoint replace {V} (o : t V) (k : string) (v : V) : t V :=
  match o with
  | [] => []
  | (k', v') :: o' =>
      if String.eqb k' k then (k, v) :: o' else (k', v') :: replace o' k v
  end.

(** [o[k] = v].  An assignment to the name [__proto__] reaches the setter
    of [Object.prototype]: it makes [v] the prototype of [o] when [v] is an
    object and creates no own property, so that [Object.entries] and
    [Object.keys] never show it.  (Once a [Map] is the prototype, an
    assignment to the name [size], which [Map.prototype] defines with a
    getter only, would throw: the development does not follow that
    combination of keys.) *)
Definition set {V} (o : t V) (k : string) (v : V) : t V :=
  if String.eqb k "__proto__" then o
  else match get o k with
       | Some _ => replace o k v
       | None => create o k v
       end.

(** [Object.entries(o)] *)
Definition entries {V} (o : t V) : list (string * V) := o.

Definition keys {V} (o : t V) : list string := map fst o.

End JsObject.

(** ** Per-cell validation (steps 1 to 5 of the row loop) *)

Definition ROW_NUMBER_OFFSET : nat := 2.

(** [typeof rawValue === "string" ? rawValue.trim() : rawValue] *)
Definition trimValue (rawValue : JsValue) : JsValue :=
  match rawValue with
  | VString s => VString (JsString.trim s)
  | _ => rawValue
  end.

(** [value === null || value === empty string || value === undefined] *)
Definition isMissing (value : JsValue) : bool :=
  match value with
  | VNull | VUndefined => true
  | VString s => String.eqb s EmptyString
  | _ => false
  end.

Definition requiredError (rowNumber : nat) (column : string) : ExcelCellValidationError :=
  {| row := rowNumber; column := column;
     message := "This field is required"; errorType := REQUIRED |}.

Definition typeMismatchError (rowNumber : nat) (column : string)
    (t : ExcelCellDataType) (value : JsValue) : ExcelCellValidationError :=
  {| row := rowNumber; column := column;
     message := "Expected type " ++ typeName t ++ ", got " ++ typeof value;
     errorType := TYPE_MISMATCH |}.

(** Step 2 fails: a type is declared, the value is present and
    [typeof value === rules.type] is false. *)
Definition typeMismatch (rules : ExcelValidationSchemaOption) (value : JsValue)
  : option ExcelCellDataType :=
  match type rules with
  | Some t =>
      if negb (isNullish value) && negb (String.eqb (typeof value) (typeName t))
      then Some t else None
  | None => None
  end.

Definition emailError (rowNumber : nat) (column : string) : ExcelCellValidationError :=
  {| row := rowNumber; column := column;
     message := "Invalid email address"; errorType := EMAIL_RULE |}.

Definition mobileError (rowNumber : nat) (column : string) : ExcelCellValidationError :=
  {| row := rowNumber; column := column;
     message := "Invalid mobile number"; errorType := MOBILE_RULE |}.

Definition employeeError (rowNumber : nat) (column : string) : ExcelCellValidationError :=
  {| row := rowNumber; column := column;
     message := "Invalid employee number"; errorType := EMPLOYEE_RULE |}.

(** Step 3 *)
Definition formatErrors (rowNumber : nat) (column : string)
    (rules : ExcelValidationSchemaOption) (value : JsValue) : list ExcelCellValidationError :=
  match validators rules with
  | Some vs =>
      if isNullish value then []
      else
        (if useEmail vs
            && match value with VString s => negb (isEmail s) | _ => false end
         then [ emailError rowNumber column ] else [])
        ++ (if useMobileNumber vs
               && match value with
                  | VString _ | VNumber _ => negb (isMobileNumber value)
                  | _ => false
                  end
            then [ mobileError rowNumber column ] else [])
        ++ (if useEmployeeNumber vs
               && match value with
                  | VString _ | VNumber _ => negb (isEmployeeNumber value)
                  | _ => false
                  end
            then [ employeeError rowNumber column ] else [])
  | None => []
  end.

(** Step 4 *)
Definition acceptedValuesErrors (rowNumber : nat) (column : string)
    (rules : ExcelValidationSchemaOption) (value : JsValue) : list ExcelCellValidationError :=
  match acceptedValues rules with
  | Some accepted =>
      if negb (isNullish value) && negb (includes accepted value)
      then [ {| row := rowNumber; column := column;
                message := "Value must be one of: " ++ joinValues ", " accepted;
                errorType := ACCEPTED_VALUES |} ]
      else []
  | None => []
  end.

(** [{ ...customResult, row: rowNumber, column }] *)
Definition mergeCustom (customResult : ExcelCellValidationError)
    (rowNumber : nat) (column : string) : ExcelCellValidationError :=
  {| row := rowNumber; column := column;
     message := message customResult; errorType := errorType customResult |}.

(** Step 5: the call is [rules.customValidator(value)], one argument. *)
Definition customErrors (rowNumber : nat) (column : string)
    (rules : ExcelValidationSchemaOption) (value : JsValue) : list ExcelCellValidationError :=
  match customValidator rules with
  | Some validator =>
      if isNullish value then []
      else match validator value None with
           | CustomTrue => []
           | CustomError customResult => [ mergeCustom customResult rowNumber column ]
           end
  | None => []
  end.

(** What one iteration of the column loop pushes onto [errors]. *)
Definition validateCell (rowNumber : nat) (column : string)
    (rules : ExcelValidationSchemaOption) (value : JsValue) : list ExcelCellValidationError :=
  if required rules && isMissing value then [ requiredError rowNumber column ]
  else match typeMismatch rules value with
       | Some t => [ typeMismatchError rowNumber column t value ]
       | None =>
           formatErrors rowNumber column rules value
           ++ acceptedValuesErrors rowNumber column rules value
           ++ customErrors rowNumber column rules value
       end.

(** The column loop of one row: [processedRow] and [errors] are threaded
    through the schema entries. *)
Fixpoint validateColumns (rowNumber : nat) (rowData : Row)
    (entries : ExcelValidationSchema)
    (processedRow : Row) (errors : list ExcelCellValidationError)
  : Row * list ExcelCellValidationError :=
  match entries with
  | [] => (processedRow, errors)
  | (column, rules) :: rest =>
      let rawValue := getProp rowData column in
      let value := trimValue rawValue in
      let processedRow := setProp processedRow column value in
      validateColumns rowNumber rowData rest processedRow
        (errors ++ validateCell rowNumber column rules value)
  end.

(** ** Uniqueness tracking (step 6) and resolution (step 7) *)

(** [cols.join("-").trim()] *)
Definition uniqueKey (cols : list string) : string :=
  JsString.trim (JsString.join "-" cols).

(** [typeof val === "string" ? val.trim() : val ?? "NULL"], as [join]
    prints it. *)
Definition keyPart (val : JsValue) : string :=
  match val with
  | VString s => JsString.trim s
  | VUndefined | VNull => "NULL"
  | _ => String_ val
  end.

(** [cols.map(col => ...).join("-")] *)
Definition compositeKey (rowData : Row) (cols : list string) : string :=
  JsString.join "-" (map (fun col => keyPart (getProp rowData col)) cols).

(** [uniqueValues]: for each constraint key, the map from composite key to
    the row numbers that produced it.  The [Map] of a key is reached only
    through [uniqueValues[key]], so updating it is an assignment at [key]. *)
Abbreviation UniqueValues := (JsObject.t (JsMap.t (list nat))).

(** The first [unique.forEach]: [uniqueValues[key] = new Map()]. *)
Definition initUniqueValues (unique : ExcelUniqueConstraint) : UniqueValues :=
  fold_left (fun uniqueValues cols => JsObject.set uniqueValues (uniqueKey cols) [])
            unique [].

(** The callback of the [unique.forEach] of the row loop.  Every key other
    than [__proto__] was created by [initUniqueValues], so the lookup
    succeeds.  For the key [__proto__] the source reads the [Map] that
    [initUniqueValues] installed as the prototype and updates it in place:
    that [Map] is no own property, [Object.entries] never visits it and
    nothing else reads it, so the own properties stay as they are. *)
Definition trackGroup (rowIndex : nat) (rowData : Row)
    (uniqueValues : UniqueValues) (cols : list string) : UniqueValues :=
  let key := uniqueKey cols in
  let values := compositeKey rowData cols in
  let rowNumber := rowIndex + ROW_NUMBER_OFFSET in
  match JsObject.get uniqueValues key with
  | Some valueMap =>
      if JsMap.has valueMap values then
        let existingRows := default [] (JsMap.get valueMap values) in
        JsObject.set uniqueValues key (JsMap.set valueMap values (existingRows ++ [rowNumber])%list)
      else
        JsObject.set uniqueValues key (JsMap.set valueMap values [rowNumber])
  | None => uniqueValues
  end.

Definition trackRow (rowIndex : nat) (rowData : Row) (unique : ExcelUniqueConstraint)
    (uniqueValues : UniqueValues) : UniqueValues :=
  fold_left (trackGroup rowIndex rowData) unique uniqueValues.

Definition duplicateError (key value : string) (rows : list nat) (r : nat)
  : ExcelCellValidationError :=
  {| row := r; column := key;
     message := "Duplicate value found: " ++ value ++ " in rows "
                ++ JsString.join ", " (map pretty rows);
     errorType := DUPLICATE |}.

(** The [valueMap.forEach] of one constraint key. *)
Definition duplicateErrors (key : string) (valueMap : JsMap.t (list nat))
  : list ExcelCellValidationError :=
  flat_map (fun '(value, rows) =>
              if (1 <? length rows)%nat
              then map (duplicateError key value rows) rows
              else [])
           valueMap.

(** ** The run: shared cells, progress and cancellation *)

(** The two reactive references of the composable. *)
Record Refs : Type := mkRefs {
  validationProgress : Z;
  isValidationCancelled : bool
}.

Definition cancelValidation (_ : Refs) : Refs :=
  {| validationProgress := 0; isValidationCancelled := true |}.

(** What the rest of the program does to the cells while the engine is
    suspended in the [await] that ends its [k]-th step. *)
Definition Observer : Type := nat -> Refs -> Refs.

(** Double-precision arithmetic, as far as [getProgress] needs it: positive
    finite doubles, the correctly rounded quotient of two integers and
    product with an integer, and [Math.round]. *)
Module Double.

(** The double [mant * 2 ^ expo]. *)
Record t : Type := mk { mant : Z; expo : Z }.

(** [n / d] rounded to the nearest integer, a tie to the even one. *)
Definition nearestEven (n d : Z) : Z :=
  let q := (n / d)%Z in
  let r := (n mod d)%Z in
  if (2 * r <? d)%Z then q
  else if (d <? 2 * r)%Z then (q + 1)%Z
  else if Z.even q then q else (q + 1)%Z.

(** The ratio [n / d] divided by [2 ^ e], as a fraction of integers. *)
Definition scaled (n d e : Z) : Z * Z :=
  (n * 2 ^ Z.max 0 (- e), d * 2 ^ Z.max 0 e)%Z.

(** The exponent [k] with [2 ^ k <= n / d < 2 ^ (k + 1)], for positive [n]
    and [d]: the difference of the bit lengths, or one less. *)
Definition floorLog2 (n d : Z) : Z :=
  let k := (Z.log2 n - Z.log2 d)%Z in
  let '(a, b) := scaled n d k in
  if (b <=? a)%Z then k else (k - 1)%Z.

(** The double nearest to the ratio [n / d] of positive integers (round to
    nearest, ties to even): the exponent is the one that leaves a mantissa
    of 53 bits, and the mantissa is the scaled ratio rounded.  The ratios
    of [getProgress] are far from the subnormal and the overflow range,
    where the exponent would be clipped. *)
Definition ofRatio (n d : Z) : t :=
  if (n <=? 0)%Z then mk 0 0
  else
    let e := (floorLog2 n d - 52)%Z in
    let '(a, b) := scaled n d e in
    mk (nearestEven a b) e.

(** [n / d] on two integers that are doubles themselves. *)
Definition div (n d : Z) : t := ofRatio n d.

(** [x * k] for an integer [k] that is a double itself. *)
Definition mul (x : t) (k : Z) : t :=
  ofRatio (mant x * k * 2 ^ Z.max 0 (expo x)) (2 ^ Z.max 0 (- expo x)).

(** [Math.round(x)]: the integer [floor (x + 1/2)]. *)
Definition round (x : t) : Z :=
  if (0 <=? expo x)%Z then (mant x * 2 ^ expo x)%Z
  else ((2 * mant x + 2 ^ (- expo x)) / 2 ^ (1 - expo x))%Z.

End Double.

(** [Math.round((completed / total) * 100)], evaluated as the source
    evaluates it: the quotient rounded to a double, its product with 100
    rounded to a double, and the result rounded to an integer.  The engine
    calls it after a step only, so with [1 <= completed] and [1 <= total];
    with [total = 0] (where the quotient is no finite number) no step is
    ever made. *)
Definition getProgress (completed total : nat) : Z :=
  match total with
  | O => 0%Z
  | _ => Double.round
           (Double.mul (Double.div (Z.of_nat completed) (Z.of_nat total)) 100)
  end.

(** The same expression evaluated by the primitive binary64 numbers of the
    kernel, to compare with. *)
Definition getProgressBinary64 (completed total : nat) : Z :=
  let number := fun n : nat => PrimFloat.of_uint63 (Uint63.of_Z (Z.of_nat n)) in
  match FloatOps.Prim2SF
          (PrimFloat.mul (PrimFloat.div (number completed) (number total)) (number 100))
  with
  | SpecFloat.S754_finite false m e => Double.round (Double.mk (Zpos m) e)
  | _ => 0%Z
  end.

Inductive Exception : Type :=
| ValidationCancellationError (errors : list ExcelCellValidationError)
| Error (message : string).

Inductive Completion (A : Type) : Type :=
| Return (a : A)
| Throw (e : Exception).
Arguments Return {A} a.
Arguments Throw {A} e.

(** The locals of [validateData] together with the cells; [st_published]
    lists the values the engine assigned to [validationProgress], oldest
    first. *)
Record EngineState : Type := mkState {
  st_errors : list ExcelCellValidationError;
  st_processedData : list Row;
  st_completedSteps : nat;
  st_uniqueValues : UniqueValues;
  st_refs : Refs;
  st_published : list Z
}.

Definition updateProgress (observer : Observer) (totalSteps : nat)
    (st : EngineState) : EngineState :=
  let completedSteps := S (st_completedSteps st) in
  let progress := getProgress completedSteps totalSteps in
  let refs := {| validationProgress := progress;
                 isValidationCancelled := isValidationCancelled (st_refs st) |} in
  {| st_errors := st_errors st;
     st_processedData := st_processedData st;
     st_completedSteps := completedSteps;
     st_uniqueValues := st_uniqueValues st;
     st_refs := observer completedSteps refs;
     st_published := st_published st ++ [progress] |}.

(** How a loop of [validateData] ends: it runs out of elements, or throws
    from the state it is in. *)
Inductive LoopResult : Type :=
| Finished (st : EngineState)
| Thrown (e : Exception) (st : EngineState).

(** The body of the row loop after the cancellation check. *)
Definition processRow (schema : ExcelValidationSchema) (unique : ExcelUniqueConstraint)
    (rowIndex : nat) (rowData : Row) (st : EngineState) : EngineState :=
  let rowNumber := rowIndex + ROW_NUMBER_OFFSET in
  let '(processedRow, errors) :=
    validateColumns rowNumber rowData schema ∅ (st_errors st) in
  {| st_errors := errors;
     st_processedData := st_processedData st ++ [processedRow];
     st_completedSteps := st_completedSteps st;
     st_uniqueValues := trackRow rowIndex rowData unique (st_uniqueValues st);
     st_refs := st_refs st;
     st_published := st_published st |}.

Fixpoint rowLoop (observer : Observer) (schema : ExcelValidationSchema)
    (unique : ExcelUniqueConstraint) (totalSteps : nat)
    (rowIndex : nat) (data : list Row) (st : EngineState) : LoopResult :=
  match data with
  | [] => Finished st
  | rowData :: rest =>
      if isValidationCancelled (st_refs st)
      then Thrown (ValidationCancellationError (st_errors st)) st
      else rowLoop observer schema unique totalSteps (S rowIndex) rest
             (updateProgress observer totalSteps
                (processRow schema unique rowIndex rowData st))
  end.

(** The body of the resolution loop after the cancellation check. *)
Definition resolveGroup (key : string) (valueMap : JsMap.t (list nat))
    (st : EngineState) : EngineState :=
  {| st_errors := st_errors st ++ duplicateErrors key valueMap;
     st_processedData := st_processedData st;
     st_completedSteps := st_completedSteps st;
     st_uniqueValues := st_uniqueValues st;
     st_refs := st_refs st;
     st_published := st_published st |}.

Fixpoint groupLoop (observer : Observer) (totalSteps : nat)
    (entries : list (string * JsMap.t (list nat))) (st : EngineState) : LoopResult :=
  match entries with
  | [] => Finished st
  | (key, valueMap) :: rest =>
      if isValidationCancelled (st_refs st)
      then Thrown (ValidationCancellationError (st_errors st)) st
      else groupLoop observer totalSteps rest
             (updateProgress observer totalSteps (resolveGroup key valueMap st))
  end.

Record ValidationResult : Type := mkResult {
  errors : list ExcelCellValidationError;
  processedData : list Row
}.

(** What a run leaves behind: how the call completed, the cells, and the
    values it published to [validationProgress]. *)
Record Run : Type := mkRun {
  outcome : Completion ValidationResult;
  refs : Refs;
  published : list Z
}.

(** The state after the prologue of [validateData]: both cells reset,
    whatever they held before the call. *)
Definition initialState (unique : ExcelUniqueConstraint) : EngineState :=
  {| st_errors := [];
     st_processedData := [];
     st_completedSteps := 0;
     st_uniqueValues := initUniqueValues unique;
     st_refs := {| validationProgress := 0; isValidationCancelled := false |};
     st_published := [0%Z] |}.

Definition validateData (observer : Observer) (before : Refs)
    (data : list Row) (validationSchema : ExcelValidationSchema)
    (unique : ExcelUniqueConstraint) : Run :=
  let totalSteps := length data + length unique in
  match rowLoop observer validationSchema unique totalSteps 0 data (initialState unique) with
  | Thrown e st =>
      {| outcome := Throw e; refs := st_refs st; published := st_published st |}
  | Finished st =>
      match groupLoop observer totalSteps (JsObject.entries (st_uniqueValues st)) st with
      | Thrown e st' =>
          {| outcome := Throw e; refs := st_refs st'; published := st_published st' |}
      | Finished st' =>
          {| outcome := Return {| errors := st_errors st';
                                  processedData := st_processedData st' |};
             refs := st_refs st'; published := st_published st' |}
      end
  end.

(** ** The file-level entry point *)

(** What the sheet decoder gives for a file: [XLSX.read] throws with a
    message, or the first sheet is read twice by [sheet_to_json], as records
    ([jsonData]) and as arrays, whose first element is [excelHeader]. *)
Inductive Decoded : Type :=
| DecodeFailure (message : string)
| Workbook (jsonData : list Row) (excelHeader : list string).

Module File.
Record Result : Type := mkResult {
  rawData : list Row;
  processedData : list Row;
  errors : list ExcelCellValidationError
}.
End File.

Definition validateExcelFile {FileData : Type} (XLSX_read : FileData -> Decoded)
    (observer : Observer) (before : Refs)
    (fileData : FileData) (schema : ExcelValidationSchema)
    (unique : ExcelUniqueConstraint) : Completion File.Result :=
  match XLSX_read fileData with
  | DecodeFailure e_message =>
      Throw (Error ("Invalid Excel file format: " ++ e_message))
  | Workbook jsonData excelHeader =>
      if (length jsonData =? 0)%nat then Throw (Error "No data found in the file.")
      else if negb (validateHeader schema excelHeader)
      then Throw (Error "Invalid file format. Please check the sample template.")
      else match outcome (validateData observer before jsonData schema unique) with
           | Throw e => Throw e
           | Return r =>
               Return {| File.rawData := jsonData;
                         File.processedData := processedData r;
                         File.errors := errors r |}
           end
  end.

(** An observer that leaves the cells alone, and one that calls
    [cancelValidation] while the engine is suspended after its [k]-th step. *)
Definition idle : Observer := fun _ cells => cells.

Definition cancelAfter (k : nat) : Observer :=
  fun step cells => if (step =? k)%nat then cancelValidation cells else cells.

(** ** Vocabulary of the statements *)

#[global] Instance safeRow_dec (r : Row) : Decision (safeRow r).
Proof. unfold safeRow. apply _. Defined.

(** The inputs on which the reads and the prints of the embedding are those
    of JavaScript: no column of a constraint group is a name inherited from
    [Object.prototype], and every number cell is a safe integer. *)
Definition withinModel (data : list Row) (unique : ExcelUniqueConstraint) : Prop :=
  Forall (Forall (fun col => inheritedName col = false)) unique
  /\ Forall safeRow data.

#[global] Instance withinModel_dec data unique : Decision (withinModel data unique).
Proof. unfold withinModel. apply _. Defined.

Definition isFormatError (e : ExcelCellValidationError) : Prop :=
  errorType e = EMAIL_RULE \/ errorType e = MOBILE_RULE \/ errorType e = EMPLOYEE_RULE.

(** The errors the column loop pushes for one row. *)
Definition rowErrors (rowNumber : nat) (rowData : Row) (schema : ExcelValidationSchema)
  : list ExcelCellValidationError :=
  flat_map (fun '(col, rules) =>
              validateCell rowNumber col rules (trimValue (getProp rowData col)))
           schema.

(** The errors the row loop pushes for the rows [data], the first of which
    has index [rowIndex]. *)
Fixpoint dataErrors (schema : ExcelValidationSchema) (rowIndex : nat) (data : list Row)
  : list ExcelCellValidationError :=
  match data with
  | [] => []
  | rowData :: rest =>
      (rowErrors (rowIndex + ROW_NUMBER_OFFSET) rowData schema
       ++ dataErrors schema (S rowIndex) rest)%list
  end.

(** The processed row the column loop builds for [rowData]. *)
Definition cleanRow (schema : ExcelValidationSchema) (rowData : Row) : Row :=
  fold_left (fun (processedRow : Row) '(col, _) =>
               setProp processedRow col (trimValue (getProp rowData col)))
            schema ∅.

(** [uniqueValues] after the rows [data], the first of which has index
    [rowIndex], have been tracked. *)
Fixpoint trackRows (unique : ExcelUniqueConstraint) (rowIndex : nat) (data : list Row)
    (uniqueValues : UniqueValues) : UniqueValues :=
  match data with
  | [] => uniqueValues
  | rowData :: rest =>
      trackRows unique (S rowIndex) rest (trackRow rowIndex rowData unique uniqueValues)
  end.

(** What the resolution loop pushes for the entries it goes through. *)
Definition resolutionErrors (entries : list (string * JsMap.t (list nat)))
  : list ExcelCellValidationError :=
  flat_map (fun '(key, valueMap) => duplicateErrors key valueMap) entries.

(** The progress values published by steps [first .. first + count - 1]. *)
Definition progressValues (totalSteps first count : nat) : list Z :=
  map (fun completed => getProgress completed totalSteps) (seq first count).

(** ** Sample inputs *)

Module Samples.

Definition freshRefs : Refs :=
  {| validationProgress := 0; isValidationCancelled := false |}.

(** The cells as [cancelValidation] leaves them. *)
Definition cancelledRefs : Refs := cancelValidation freshRefs.

(** [{ name: { type: "string", required: true } }] *)
Definition nameRules : ExcelValidationSchemaOption :=
  {| required := true; type := Some TypeString; validators := None;
     acceptedValues := None; customValidator := None |}.

Definition nameSchema : ExcelValidationSchema := [ ("name", nameRules) ].

(** [{ name: "   " }] *)
Definition blankName : Row := {[ "name" := VString "   " ]}.

(** [{ email: { type: "string", required: true, validators: { isEmail: true } } }] *)
Definition emailRules : ExcelValidationSchemaOption :=
  {| required := true; type := Some TypeString;
     validators := Some {| useEmail := true; useMobileNumber := false;
                           useEmployeeNumber := false |};
     acceptedValues := None; customValidator := None |}.

Definition emailSchema : ExcelValidationSchema := [ ("email", emailRules) ].

Definition emailRow (s : string) : Row := {[ "email" := VString s ]}.

(** Every built-in validator switched on, no declared type. *)
Definition allValidators : ExcelValidationSchemaOption :=
  {| required := false; type := None;
     validators := Some {| useEmail := true; useMobileNumber := true;
                           useEmployeeNumber := true |};
     acceptedValues := None; customValidator := None |}.

Definition tooYoung : ExcelCellValidationError :=
  {| row := 0; column := "age"; message := "Must be an adult";
     errorType := CUSTOM_VALIDATION |}.

(** A custom validator that rejects every value, whatever row it is
    given. *)
Definition rejectAll : JsValue -> option Row -> CustomResult :=
  fun _ _ => CustomError tooYoung.

(** [{ age: { type: "number", customValidator } }] *)
Definition ageRules : ExcelValidationSchemaOption :=
  {| required := false; type := Some TypeNumber; validators := None;
     acceptedValues := None; customValidator := Some rejectAll |}.

Definition ageSchema : ExcelValidationSchema := [ ("age", ageRules) ].

Definition ageRow (v : JsValue) : Row := {[ "age" := v ]}.

(** [{ id: s }] *)
Definition idRow (s : string) : Row := {[ "id" := VString s ]}.

(** [[{ id: "1" }, { id: "2" }, { id: "1" }]] *)
Definition idRows : list Row := [ idRow "1"; idRow "2"; idRow "1" ].


(** A decoder that reads two rows under the header row [["email"]]. *)
Definition twoEmails (_ : unit) : Decoded :=
  Workbook [ emailRow "bad"; emailRow "x@y.com" ] [ "email" ].

(** A custom validator that answers every value with an error of type
    EMAIL_RULE. *)
Definition notAContact : JsValue -> option Row -> CustomResult :=
  fun _ _ => CustomError {| row := 0; column := EmptyString;
                            message := "Not a contact"; errorType := EMAIL_RULE |}.

(** [{ active: { type: "boolean", validators: { isEmail: true,
    isMobileNumber: true, isEmployeeNumber: true }, customValidator } }] *)
Definition activeRules : ExcelValidationSchemaOption :=
  {| required := false; type := Some TypeBoolean;
     validators := Some {| useEmail := true; useMobileNumber := true;
                           useEmployeeNumber := true |};
     acceptedValues := None; customValidator := Some notAContact |}.

Definition activeSchema : ExcelValidationSchema := [ ("active", activeRules) ].

(** [{ active: true }] *)
Definition activeRow : Row := {[ "active" := VBoolean true ]}.

(** [JSON.parse('{ "__proto__": { "type": "string" } }')]: a schema that
    owns a column named [__proto__]. *)
Definition protoSchema : ExcelValidationSchema :=
  [ ("__proto__", {| required := false; type := Some TypeString; validators := None;
                     acceptedValues := None; customValidator := None |}) ].

(** [JSON.parse('{ "__proto__": " a " }')] *)
Definition protoRow : Row := {[ "__proto__" := VString " a " ]}.

(** [{ a: "1", b: "2", "a-b": "1-2" }] *)
Definition abRow : Row :=
  {[ "a" := VString "1"; "b" := VString "2"; "a-b" := VString "1-2" ]}.

End Samples.

(** ** Duplicates, as the uniqueness tracker is described *)

(** [valueMap] after one more row with composite key [values]: the two
    branches of the callback in [trackGroup]. *)
Definition noteRow (valueMap : JsMap.t (list nat)) (values : string) (rowNumber : nat)
  : JsMap.t (list nat) :=
  if JsMap.has valueMap values
  then JsMap.set valueMap values (default [] (JsMap.get valueMap values) ++ [rowNumber])%list
  else JsMap.set valueMap values [rowNumber].

(** Each row of [data] with its row number and its composite key over
    [cols]; the first row has index [rowIndex]. *)
Fixpoint keyedRows (cols : list string) (rowIndex : nat) (data : list Row)
  : list (nat * string) :=
  match data with
  | [] => []
  | rowData :: rest =>
      (rowIndex + ROW_NUMBER_OFFSET, compositeKey rowData cols)
        :: keyedRows cols (S rowIndex) rest
  end.

(** The keys, each once, in the order they first appear. *)
Definition firstSeen (keys : list string) : list string :=
  fold_left (fun seen k => if bool_decide (k ∈ seen) then seen else (seen ++ [k])%list)
            keys [].

(** The row numbers that produced the composite key [k], in row order. *)
Definition rowsHolding (k : string) (keyed : list (nat * string)) : list nat :=
  map fst (List.filter (fun p => String.eqb (snd p) k) keyed).

(** The DUPLICATE errors of one constraint group: for each composite key,
    in first-seen order, that more than one row holds, one error per row
    holding it. *)
Definition duplicatesSpec (cols : list string) (data : list Row)
  : list ExcelCellValidationError :=
  let keyed := keyedRows cols 0 data in
  flat_map (fun k =>
              let rows := rowsHolding k keyed in
              if (1 <? length rows)%nat
              then map (duplicateError (uniqueKey cols) k rows) rows
              else [])
           (firstSeen (map snd keyed)).

(** ** Cancellation, as the run observes it *)

(** What [isValidationCancelled] holds when the engine makes its check
    number [k] (the checks are numbered from 0; check [k] follows step [k]):
    cleared at entry, then what the observer left during each suspension. *)
Fixpoint flagAt (observer : Observer) (totalSteps : nat) (k : nat) : bool :=
  match k with
  | O => false
  | S j =>
      isValidationCancelled
        (observer (S j)
           {| validationProgress := getProgress (S j) totalSteps;
              isValidationCancelled := flagAt observer totalSteps j |})
  end.

(** The flag the engine holds is the one [flagAt] gives for the steps it
    has completed. *)
Definition flagTracked (observer : Observer) (totalSteps : nat) (st : EngineState) : Prop :=
  isValidationCancelled (st_refs st) = flagAt observer totalSteps (st_completedSteps st).

(** The errors accumulated by the first [k] steps of a run: those of the
    first [k] rows and, past the rows, those of the constraint keys
    resolved so far. *)
Definition errorsAfter (schema : ExcelValidationSchema) (unique : ExcelUniqueConstraint)
    (data : list Row) (k : nat) : list ExcelCellValidationError :=
  (dataErrors schema 0 (take k data)
   ++ resolutionErrors
        (take (k - length data)
              (JsObject.entries (trackRows unique 0 data (initUniqueValues unique)))))%list.

(** The error types of the checks that follow the required check in the
    column loop. *)
Definition laterCheckType (t : ExcelCellErrorType) : Prop :=
  t = TYPE_MISMATCH \/ t = EMAIL_RULE \/ t = MOBILE_RULE \/ t = EMPLOYEE_RULE
  \/ t = ACCEPTED_VALUES \/ t = CUSTOM_VALIDATION.


(** ** The language of a pattern *)

(** The strings a pattern denotes; [RegExp.test] is checked against it
    below. *)
Inductive Matches : RegExp.t -> string -> Prop :=
| MEps : Matches RegExp.Eps EmptyString
| MClass (p : ascii -> bool) (c : ascii) :
    p c = true -> Matches (RegExp.Class p) (String c EmptyString)
| MSeq (r1 r2 : RegExp.t) (s1 s2 : string) :
    Matches r1 s1 -> Matches r2 s2 -> Matches (RegExp.Seq r1 r2) (s1 ++ s2)
| MAltL (r1 r2 : RegExp.t) (s : string) :
    Matches r1 s -> Matches (RegExp.Alt r1 r2) s
| MAltR (r1 r2 : RegExp.t) (s : string) :
    Matches r2 s -> Matches (RegExp.Alt r1 r2) s
| MStarNil (r : RegExp.t) : Matches (RegExp.Star r) EmptyString
| MStarApp (r : RegExp.t) (s1 s2 : string) :
    Matches r s1 -> Matches (RegExp.Star r) s2 -> Matches (RegExp.Star r) (s1 ++ s2).

(** Every code unit of [s] satisfies [p]. *)
Fixpoint allChars (p : ascii -> bool) (s : string) : bool :=
  match s with
  | EmptyString => true
  | String c s' => p c && allChars p s'
  end.

(** ** Every run, step by step *)

(** The cells when the engine makes its check number [k]: reset at entry,
    then, after each step, the progress the engine published with the flag
    as it was, handed to the observer. *)
Fixpoint refsAt (observer : Observer) (totalSteps : nat) (k : nat) : Refs :=
  match k with
  | O => {| validationProgress := 0; isValidationCancelled := false |}
  | S j =>
      observer (S j)
        {| validationProgress := getProgress (S j) totalSteps;
           isValidationCancelled :=
             isValidationCancelled (refsAt observer totalSteps j) |}
  end.

(** The state [st'] is [st] advanced by the first [k] rows of [data]. *)
Definition advancedByRows (schema : ExcelValidationSchema) (unique : ExcelUniqueConstraint)
    (totalSteps rowIndex : nat) (data : list Row) (k : nat) (st st' : EngineState) : Prop :=
  st_errors st' = (st_errors st ++ dataErrors schema rowIndex (take k data))%list
  /\ st_processedData st'
     = (st_processedData st ++ map (cleanRow schema) (take k data))%list
  /\ st_uniqueValues st' = trackRows unique rowIndex (take k data) (st_uniqueValues st)
  /\ st_completedSteps st' = st_completedSteps st + k
  /\ st_published st'
     = (st_published st ++ progressValues totalSteps (S (st_completedSteps st)) k)%list.

(** The state [st'] is [st] advanced by the first [k] entries of the
    resolution loop. *)
Definition advancedByGroups (totalSteps : nat)
    (entries : list (string * JsMap.t (list nat))) (k : nat) (st st' : EngineState) : Prop :=
  st_errors st' = (st_errors st ++ resolutionErrors (take k entries))%list
  /\ st_processedData st' = st_processedData st
  /\ st_completedSteps st' = st_completedSteps st + k
  /\ st_published st'
     = (st_published st ++ progressValues totalSteps (S (st_completedSteps st)) k)%list.

(** The number of checks a run makes when it is not cancelled: one per row
    and one per key of [uniqueValues]. *)
Definition checkCount (data : list Row) (unique : ExcelUniqueConstraint) : nat :=
  length data + length (initUniqueValues unique).

(** The errors a run hands to its caller: those of the result when it
    returns, those the cancellation signal carries when it raises. *)
Definition reportedErrors (c : Completion ValidationResult)
  : list ExcelCellValidationError :=
  match c with
  | Return r => errors r
  | Throw (ValidationCancellationError errs) => errs
  | Throw (Error _) => []
  end.

(** Every row number recorded in [uniqueValues] lies in [lo, hi). *)
Definition rowsWithin (lo hi : nat) (uniqueValues : UniqueValues) : Prop :=
  forall key valueMap values rows n,
    (key, valueMap) ∈ uniqueValues -> (values, rows) ∈ valueMap -> n ∈ rows ->
    lo <= n < hi.

(** ** The earlier version of the composable *)

(** The composable as it was before the cancellation signal and the
    [updateProgress] helper were introduced.  Its schema carries the
    validator switches under the names [isEmail], [isMobileNo] and
    [isEmployeeNo]; the declaration of that version of the type is not
    among the sources, so the records below hold the properties the code
    reads.  The tracking and the resolution of duplicates are the same code
    as in the current version and are shared with it; the column loop is
    given again, as it reads the other switches; the progress update is
    written out after each step; a cancelled run throws a plain [Error]. *)
Module Legacy.

Definition stopped : string :=
  "Validation stopped. The process was interrupted before completion.".

(** [validators?: { isEmail?, isMobileNo?, isEmployeeNo? }] *)
Record ExcelValidators : Type := mkValidators {
  useEmail : bool;
  useMobileNo : bool;
  useEmployeeNo : bool
}.

Record ExcelValidationSchemaOption : Type := mkOption {
  required : bool;
  type : option ExcelCellDataType;
  validators : option ExcelValidators;
  acceptedValues : option (list JsValue);
  customValidator : option (JsValue -> option Row -> CustomResult)
}.

Definition ExcelValidationSchema : Type := list (string * ExcelValidationSchemaOption).

Definition schemaKeys (schema : ExcelValidationSchema) : list string := map fst schema.

(** [/^\d{7,9}$/.test(String(value))] *)
Definition isEmployeeNo (value : JsValue) : bool :=
  RegExp.test (RegExp.Between 7 9 (RegExp.Class JsString.isDigit)) (String_ value).

(** [/^(?:\+91|0)?\s*\d{10}$/.test(String(value).replace(/\s+/g, empty))] *)
Definition isMobileNo (value : JsValue) : bool :=
  RegExp.test
    (RegExp.Seq (RegExp.Opt (RegExp.Alt (RegExp.Lit "+91") (RegExp.Lit "0")))
       (RegExp.Seq (RegExp.Star (RegExp.Class JsString.isWhiteSpace))
          (RegExp.Exactly 10 (RegExp.Class JsString.isDigit))))
    (JsString.removeWhiteSpace (String_ value)).

Definition validateHeaderLog (excelSchema : ExcelValidationSchema) (excelHeader : list string)
  : bool * list ConsoleCall :=
  let expectedHeaders := schemaKeys excelSchema in
  let excelHeaders := map JsString.trim excelHeader in
  let missingHeaders :=
    List.filter (fun h => negb (bool_decide (h ∈ excelHeaders))) expectedHeaders in
  if (0 <? length missingHeaders)%nat then
    (false,
     [ console_log ("Missing columns: " ++ JsString.join "," missingHeaders);
       console_log ("Expected: " ++ JsString.join "," expectedHeaders);
       console_log ("Found: " ++ JsString.join "," excelHeaders) ])
  else
    let extraHeaders :=
      List.filter (fun h => negb (bool_decide (h ∈ expectedHeaders))) excelHeaders in
    if (0 <? length extraHeaders)%nat then
      (true,
       [ console_log ("Additional columns are present in the file: "
                      ++ JsString.join "," extraHeaders
                      ++ ". These columns will be ignored.") ])
    else (true, []).

Definition validateHeader (excelSchema : ExcelValidationSchema) (excelHeader : list string)
  : bool :=
  fst (validateHeaderLog excelSchema excelHeader).

(** Step 2 *)
Definition typeMismatch (rules : ExcelValidationSchemaOption) (value : JsValue)
  : option ExcelCellDataType :=
  match type rules with
  | Some t =>
      if negb (isNullish value) && negb (String.eqb (typeof value) (typeName t))
      then Some t else None
  | None => None
  end.

(** Step 3 *)
Definition formatErrors (rowNumber : nat) (column : string)
    (rules : ExcelValidationSchemaOption) (value : JsValue) : list ExcelCellValidationError :=
  match validators rules with
  | Some vs =>
      if isNullish value then []
      else
        ((if useEmail vs
             && match value with VString s => negb (isEmail s) | _ => false end
          then [ emailError rowNumber column ] else [])
         ++ (if useMobileNo vs
                && match value with
                   | VString _ | VNumber _ => negb (isMobileNo value)
                   | _ => false
                   end
             then [ mobileError rowNumber column ] else [])
         ++ (if useEmployeeNo vs
                && match value with
                   | VString _ | VNumber _ => negb (isEmployeeNo value)
                   | _ => false
                   end
             then [ employeeError rowNumber column ] else []))%list
  | None => []
  end.

(** Step 4 *)
Definition acceptedValuesErrors (rowNumber : nat) (column : string)
    (rules : ExcelValidationSchemaOption) (value : JsValue) : list ExcelCellValidationError :=
  match acceptedValues rules with
  | Some accepted =>
      if negb (isNullish value) && negb (includes accepted value)
      then [ {| row := rowNumber; column := column;
                message := "Value must be one of: " ++ joinValues ", " accepted;
                errorType := ACCEPTED_VALUES |} ]
      else []
  | None => []
  end.

(** Step 5 *)
Definition customErrors (rowNumber : nat) (column : string)
    (rules : ExcelValidationSchemaOption) (value : JsValue) : list ExcelCellValidationError :=
  match customValidator rules with
  | Some validator =>
      if isNullish value then []
      else match validator value None with
           | CustomTrue => []
           | CustomError customResult => [ mergeCustom customResult rowNumber column ]
           end
  | None => []
  end.

Definition validateCell (rowNumber : nat) (column : string)
    (rules : ExcelValidationSchemaOption) (value : JsValue) : list ExcelCellValidationError :=
  if required rules && isMissing value then [ requiredError rowNumber column ]
  else match typeMismatch rules value with
       | Some t => [ typeMismatchError rowNumber column t value ]
       | None =>
           (formatErrors rowNumber column rules value
            ++ acceptedValuesErrors rowNumber column rules value
            ++ customErrors rowNumber column rules value)%list
       end.

Fixpoint validateColumns (rowNumber : nat) (rowData : Row)
    (entries : ExcelValidationSchema)
    (processedRow : Row) (errors : list ExcelCellValidationError)
  : Row * list ExcelCellValidationError :=
  match entries with
  | [] => (processedRow, errors)
  | (column, rules) :: rest =>
      let rawValue := getProp rowData column in
      let value := trimValue rawValue in
      let processedRow := setProp processedRow column value in
      validateColumns rowNumber rowData rest processedRow
        (errors ++ validateCell rowNumber column rules value)%list
  end.

(** The body of the row loop after the cancellation check; the row number
    is [rowIndex + 2]. *)
Definition processRow (schema : ExcelValidationSchema) (unique : ExcelUniqueConstraint)
    (rowIndex : nat) (rowData : Row) (st : EngineState) : EngineState :=
  let rowNumber := rowIndex + 2 in
  let '(processedRow, errors) :=
    validateColumns rowNumber rowData schema ∅ (st_errors st) in
  {| st_errors := errors;
     st_processedData := (st_processedData st ++ [processedRow])%list;
     st_completedSteps := st_completedSteps st;
     st_uniqueValues := trackRow rowIndex rowData unique (st_uniqueValues st);
     st_refs := st_refs st;
     st_published := st_published st |}.

(** [completedSteps++; validationProgress.value = getProgress(completedSteps);
    await ...], written after each step. *)
Definition publishStep (observer : Observer) (totalSteps : nat)
    (st : EngineState) : EngineState :=
  let completedSteps := S (st_completedSteps st) in
  {| st_errors := st_errors st;
     st_processedData := st_processedData st;
     st_completedSteps := completedSteps;
     st_uniqueValues := st_uniqueValues st;
     st_refs := observer completedSteps
                  {| validationProgress := getProgress completedSteps totalSteps;
                     isValidationCancelled := isValidationCancelled (st_refs st) |};
     st_published := (st_published st ++ [getProgress completedSteps totalSteps])%list |}.

Fixpoint rowLoop (observer : Observer) (schema : ExcelValidationSchema)
    (unique : ExcelUniqueConstraint) (totalSteps : nat)
    (rowIndex : nat) (data : list Row) (st : EngineState) : LoopResult :=
  match data with
  | [] => Finished st
  | rowData :: rest =>
      if isValidationCancelled (st_refs st)
      then Thrown (Error stopped) st
      else rowLoop observer schema unique totalSteps (S rowIndex) rest
             (publishStep observer totalSteps
                (processRow schema unique rowIndex rowData st))
  end.

Fixpoint groupLoop (observer : Observer) (totalSteps : nat)
    (entries : list (string * JsMap.t (list nat))) (st : EngineState) : LoopResult :=
  match entries with
  | [] => Finished st
  | (key, valueMap) :: rest =>
      if isValidationCancelled (st_refs st)
      then Thrown (Error stopped) st
      else groupLoop observer totalSteps rest
             (publishStep observer totalSteps (resolveGroup key valueMap st))
  end.

Definition validateData (observer : Observer) (before : Refs)
    (data : list Row) (validationSchema : ExcelValidationSchema)
    (unique : ExcelUniqueConstraint) : Run :=
  let totalSteps := length data + length unique in
  match rowLoop observer validationSchema unique totalSteps 0 data (initialState unique) with
  | Thrown e st =>
      {| outcome := Throw e; refs := st_refs st; published := st_published st |}
  | Finished st =>
      match groupLoop observer totalSteps (JsObject.entries (st_uniqueValues st)) st with
      | Thrown e st2 =>
          {| outcome := Throw e; refs := st_refs st2; published := st_published st2 |}
      | Finished st2 =>
          {| outcome := Return {| errors := st_errors st2;
                                  processedData := st_processedData st2 |};
             refs := st_refs st2; published := st_published st2 |}
      end
  end.

Definition validateExcelFile {FileData : Type} (XLSX_read : FileData -> Decoded)
    (observer : Observer) (before : Refs)
    (fileData : FileData) (schema : ExcelValidationSchema)
    (unique : ExcelUniqueConstraint) : Completion File.Result :=
  match XLSX_read fileData with
  | DecodeFailure e_message =>
      Throw (Error ("Invalid Excel file format: " ++ e_message))
  | Workbook jsonData excelHeader =>
      if (length jsonData =? 0)%nat then Throw (Error "No data found in the file.")
      else if negb (validateHeader schema excelHeader)
      then Throw (Error "Invalid file format. Please check the sample template.")
      else match outcome (validateData observer before jsonData schema unique) with
           | Throw e => Throw e
           | Return r =>
               Return {| File.rawData := jsonData;
                         File.processedData := processedData r;
                         File.errors := errors r |}
           end
  end.

End Legacy.

(** A schema of the earlier version rewritten for the current one: the
    switches [isMobileNo] and [isEmployeeNo] become [isMobileNumber] and
    [isEmployeeNumber], everything else is kept. *)
Definition renameSwitches (rules : Legacy.ExcelValidationSchemaOption)
  : ExcelValidationSchemaOption :=
  {| required := Legacy.required rules;
     type := Legacy.type rules;
     validators :=
       match Legacy.validators rules with
       | Some vs => Some {| useEmail := Legacy.useEmail vs;
                            useMobileNumber := Legacy.useMobileNo vs;
                            useEmployeeNumber := Legacy.useEmployeeNo vs |}
       | None => None
       end;
     acceptedValues := Legacy.acceptedValues rules;
     customValidator := Legacy.customValidator rules |}.

Definition migrateSchema (schema : Legacy.ExcelValidationSchema) : ExcelValidationSchema :=
  map (fun '(col, rules) => (col, renameSwitches rules)) schema.

(** What the earlier version throws where this one throws [e]: the
    cancellation signal becomes the plain error, its errors are lost. *)
Definition withoutErrors (e : Exception) : Exception :=
  match e with
  | ValidationCancellationError _ => Error Legacy.stopped
  | Error message => Error message
  end.

Definition legacyCompletion {A : Type} (c : Completion A) : Completion A :=
  match c with
  | Return a => Return a
  | Throw e => Throw (withoutErrors e)
  end.

Definition legacyLoopResult (l : LoopResult) : LoopResult :=
  match l with
  | Finished st => Finished st
  | Thrown e st => Thrown (withoutErrors e) st
  end.

(** ** The bus number pattern *)

(** [[A-Z]] under the [i] flag: the letters of either case. *)
Definition isLetter (c : ascii) : bool :=
  let n := nat_of_ascii c in
  ((65 <=? n)%nat && (n <=? 90)%nat) || ((97 <=? n)%nat && (n <=? 122)%nat).

(** [/^[A-Z]{2}\s?[0-9]{1,2}\s?[A-Z]{1,2}\s?[0-9]{4}$/i] *)
Definition busPattern : RegExp.t :=
  RegExp.Seq (RegExp.Exactly 2 (RegExp.Class isLetter))
    (RegExp.Seq (RegExp.Opt (RegExp.Class JsString.isWhiteSpace))
       (RegExp.Seq (RegExp.Between 1 2 (RegExp.Class JsString.isDigit))
          (RegExp.Seq (RegExp.Opt (RegExp.Class JsString.isWhiteSpace))
             (RegExp.Seq (RegExp.Between 1 2 (RegExp.Class isLetter))
                (RegExp.Seq (RegExp.Opt (RegExp.Class JsString.isWhiteSpace))
                   (RegExp.Exactly 4 (RegExp.Class JsString.isDigit))))))).

(** Declared in the composable and not called by it. *)
Definition _isBusNumber (value : JsValue) : bool :=
  RegExp.test busPattern (String_ value).

(** [s] is made of between [lo] and [hi] characters of the class [p]. *)
Definition charsOf (p : ascii -> bool) (lo hi : nat) (s : string) : Prop :=
  lo <= String.length s <= hi /\ allChars p s = true.

(** * Properties *)

Local Open Scope list_scope.

(** ** Header validation *)

Lemma missingHeaders_nil (expected found : list string) :
  List.filter (fun h => negb (bool_decide (h ∈ found))) expected = []
  <-> forall k, k ∈ expected -> k ∈ found.
Proof.
  induction expected as [|h t IH]; simpl.
  - split; [intros _ k Hk; inversion Hk | done].
  - destruct (bool_decide (h ∈ found)) eqn:E; simpl.
    + apply bool_decide_eq_true in E. rewrite IH. split.
      * intros Ht k Hk. apply elem_of_cons in Hk as [->|Hk]; auto.
      * intros Hall k Hk. apply Hall. by apply elem_of_cons; right.
    + apply bool_decide_eq_false in E. split; [done|].
      intros Hall. exfalso. apply E, Hall. by apply elem_of_cons; left.
Qed.

Lemma validateHeader_true (excelSchema : ExcelValidationSchema) (excelHeader : list string) :
  validateHeader excelSchema excelHeader = true
  <-> forall k, k ∈ schemaKeys excelSchema -> k ∈ map JsString.trim excelHeader.
Proof.
  rewrite <- missingHeaders_nil.
  unfold validateHeader, validateHeaderLog.
  destruct (List.filter _ (schemaKeys excelSchema)) as [|m ms] eqn:E; simpl.
  - destruct (0 <? length _)%nat; simpl; done.
  - done.
Qed.

(** C6. [validateHeader] answers [false] exactly when some key of the schema
    is not among the trimmed headers; when every key is among them it
    answers [true], whatever other headers the file has. *)
Theorem validateHeader_false_iff_missing :
  forall (excelSchema : ExcelValidationSchema) (excelHeader : list string),
    (validateHeader excelSchema excelHeader = false
     <-> exists k, k ∈ schemaKeys excelSchema /\ k ∉ map JsString.trim excelHeader)
    /\ forall extra : list string,
        (forall k, k ∈ schemaKeys excelSchema -> k ∈ map JsString.trim excelHeader) ->
        validateHeader excelSchema (excelHeader ++ extra) = true.
Proof.
  intros excelSchema excelHeader. split.
  - split.
    + intros Hf.
      destruct (decide (Forall (fun k => k ∈ map JsString.trim excelHeader)
                               (schemaKeys excelSchema))) as [Hall|Hnot].
      * rewrite Forall_forall in Hall.
        apply validateHeader_true in Hall. congruence.
      * apply not_Forall_Exists in Hnot; [|intros x; apply _].
        apply Exists_exists in Hnot as (k & Hk & Hnk). eauto.
    + intros (k & Hk & Hnk).
      destruct (validateHeader excelSchema excelHeader) eqn:E; [|done].
      exfalso. apply Hnk. by apply (proj1 (validateHeader_true _ _) E).
  - intros extra Hall. apply validateHeader_true. intros k Hk.
    rewrite map_app. apply elem_of_app. left. auto.
Qed.

(** ** Per-cell validation *)

Lemma acceptedValuesErrors_type rowNumber col rules value e :
  e ∈ acceptedValuesErrors rowNumber col rules value ->
  errorType e = ACCEPTED_VALUES /\ row e = rowNumber /\ column e = col.
Proof.
  unfold acceptedValuesErrors.
  destruct (acceptedValues rules); [|intros H; inversion H].
  destruct (_ && _); intros H; [|inversion H].
  apply list_elem_of_singleton in H. by subst.
Qed.

Lemma elem_of_three {A} (be bm bp : bool) (a b c x : A) :
  x ∈ ((if be then [a] else []) ++ (if bm then [b] else []) ++ (if bp then [c] else []))%list
  <-> (be = true /\ x = a) \/ (bm = true /\ x = b) \/ (bp = true /\ x = c).
Proof.
  rewrite !elem_of_app.
  assert (Hone : forall (t : bool) (y : A),
             x ∈ (if t then [y] else []) <-> t = true /\ x = y).
  { intros [] y; [rewrite list_elem_of_singleton|rewrite elem_of_nil]; intuition congruence. }
  rewrite !Hone. tauto.
Qed.

Lemma formatErrors_present rowNumber col rules vs value :
  validators rules = Some vs ->
  isNullish value = false ->
  formatErrors rowNumber col rules value =
    ((if useEmail vs && match value with VString s => negb (isEmail s) | _ => false end
      then [emailError rowNumber col] else [])
     ++ (if useMobileNumber vs
            && match value with
               | VString _ | VNumber _ => negb (isMobileNumber value)
               | _ => false
               end
         then [mobileError rowNumber col] else [])
     ++ (if useEmployeeNumber vs
            && match value with
               | VString _ | VNumber _ => negb (isEmployeeNumber value)
               | _ => false
               end
         then [employeeError rowNumber col] else []))%list.
Proof. intros Hvs Hnn. unfold formatErrors. by rewrite Hvs, Hnn. Qed.

Lemma typeof_string_or_number value (b : bool) :
  match value with VString _ | VNumber _ => negb b | _ => false end = true
  <-> (typeof value = "string" \/ typeof value = "number") /\ b = false.
Proof.
  destruct value, b; simpl; split; intros H; try discriminate H; auto;
    destruct H as [[H|H] H']; discriminate.
Qed.

(** What step 3 pushes for a present value: the email rule reports only
    strings that fail [isEmail]; the mobile and employee rules report
    strings and numbers that fail their pattern; a value that is neither a
    string nor a number gets no report from them, so that an error of one
    of these three types among those of the cell is one the custom
    validator returned. *)
Lemma formatErrors_by_value_kind :
  forall (rowNumber : nat) (col : string) (rules : ExcelValidationSchemaOption)
         (vs : ExcelValidators) (value : JsValue),
    validators rules = Some vs ->
    isNullish value = false ->
    let errs := formatErrors rowNumber col rules value in
    (emailError rowNumber col ∈ errs
       <-> useEmail vs = true /\ exists s, value = VString s /\ isEmail s = false)
    /\ (mobileError rowNumber col ∈ errs
       <-> useMobileNumber vs = true
           /\ (typeof value = "string" \/ typeof value = "number")
           /\ isMobileNumber value = false)
    /\ (employeeError rowNumber col ∈ errs
       <-> useEmployeeNumber vs = true
           /\ (typeof value = "string" \/ typeof value = "number")
           /\ isEmployeeNumber value = false)
    /\ (forall e, e ∈ errs ->
          e = emailError rowNumber col \/ e = mobileError rowNumber col
          \/ e = employeeError rowNumber col)
    /\ (typeof value <> "string" -> typeof value <> "number" ->
        errs = []
        /\ (forall e, e ∈ validateCell rowNumber col rules value ->
               isFormatError e -> e ∈ customErrors rowNumber col rules value)
        /\ (customValidator rules = None ->
            forall e, e ∈ validateCell rowNumber col rules value -> ~ isFormatError e)).
Proof.
  intros rowNumber col rules vs value Hvs Hnn. cbv zeta.
  assert (Hne1 : emailError rowNumber col <> mobileError rowNumber col) by discriminate.
  assert (Hne2 : emailError rowNumber col <> employeeError rowNumber col) by discriminate.
  assert (Hne3 : mobileError rowNumber col <> employeeError rowNumber col) by discriminate.
  assert (Hnil : typeof value <> "string" -> typeof value <> "number" ->
                 formatErrors rowNumber col rules value = []).
  { intros Hs Hn. rewrite (formatErrors_present _ _ _ _ _ Hvs Hnn).
    destruct value; simpl in *; try congruence. by rewrite !andb_false_r. }
  rewrite (formatErrors_present _ _ _ _ _ Hvs Hnn) in *.
  rewrite !elem_of_three, !andb_true_iff, !typeof_string_or_number.
  split; [|split; [|split; [|split]]].
  - split.
    + intros [[[Hu Hs] _]|[[_ H]|[_ H]]]; try congruence.
      destruct value; try discriminate Hs. apply negb_true_iff in Hs. eauto.
    + intros (Hu & s & -> & Hs). rewrite Hs. auto.
  - split.
    + intros [[_ H]|[[[Hu Hs] _]|[_ H]]]; try congruence. tauto.
    + intros (Hu & Hk & Hs). right; left. tauto.
  - split.
    + intros [[_ H]|[[_ H]|[[Hu Hs] _]]]; try congruence. tauto.
    + intros (Hu & Hk & Hs). right; right. tauto.
  - intros e. rewrite elem_of_three. tauto.
  - intros Hs Hn. split; [by apply Hnil|].
    assert (Hcustom : forall e, e ∈ validateCell rowNumber col rules value ->
                        isFormatError e -> e ∈ customErrors rowNumber col rules value);
      [|split; [exact Hcustom|];
        intros Hnone e He Hfmt; specialize (Hcustom e He Hfmt);
        unfold customErrors in Hcustom; rewrite Hnone in Hcustom; inversion Hcustom].
    intros e He Hfmt. unfold validateCell in He.
    destruct (required rules && isMissing value).
    + apply list_elem_of_singleton in He. subst e.
      destruct Hfmt as [Hf|[Hf|Hf]]; discriminate Hf.
    + destruct (typeMismatch rules value).
      * apply list_elem_of_singleton in He. subst e.
        destruct Hfmt as [Hf|[Hf|Hf]]; discriminate Hf.
      * rewrite (formatErrors_present _ _ _ _ _ Hvs Hnn), (Hnil Hs Hn) in He.
        simpl in He.
        apply elem_of_app in He as [He|He]; [|done].
        apply acceptedValuesErrors_type in He as [Ht _].
        destruct Hfmt as [Hf|[Hf|Hf]]; congruence.
Qed.

(** ** The loops of [validateData] *)

Lemma validateColumns_spec rowNumber rowData entries :
  forall processedRow errs,
    validateColumns rowNumber rowData entries processedRow errs =
      (fold_left (fun (p : Row) '(col, _) => setProp p col (trimValue (getProp rowData col)))
                 entries processedRow,
       (errs ++ rowErrors rowNumber rowData entries)%list).
Proof.
  induction entries as [|[col rules] rest IH]; intros processedRow errs; simpl.
  - by rewrite app_nil_r.
  - rewrite IH. unfold rowErrors. simpl. by rewrite app_assoc.
Qed.

Lemma processRow_spec schema unique rowIndex rowData st :
  processRow schema unique rowIndex rowData st =
    {| st_errors := (st_errors st
                     ++ rowErrors (rowIndex + ROW_NUMBER_OFFSET) rowData schema)%list;
       st_processedData := (st_processedData st ++ [cleanRow schema rowData])%list;
       st_completedSteps := st_completedSteps st;
       st_uniqueValues := trackRow rowIndex rowData unique (st_uniqueValues st);
       st_refs := st_refs st;
       st_published := st_published st |}.
Proof. unfold processRow. by rewrite validateColumns_spec. Qed.

Lemma rowLoop_finished observer schema unique totalSteps :
  forall data rowIndex st st',
    rowLoop observer schema unique totalSteps rowIndex data st = Finished st' ->
    st_errors st' = (st_errors st ++ dataErrors schema rowIndex data)%list
    /\ st_processedData st' = (st_processedData st ++ map (cleanRow schema) data)%list
    /\ st_uniqueValues st' = trackRows unique rowIndex data (st_uniqueValues st)
    /\ st_completedSteps st' = st_completedSteps st + length data
    /\ st_published st' =
         (st_published st
          ++ progressValues totalSteps (S (st_completedSteps st)) (length data))%list.
Proof.
  induction data as [|rowData rest IH]; intros rowIndex st st' Hrun; simpl in Hrun.
  - inversion Hrun; subst. unfold progressValues. simpl.
    rewrite !app_nil_r. repeat split; lia.
  - destruct (isValidationCancelled (st_refs st)); [discriminate|].
    apply IH in Hrun as (He & Hp & Hu & Hc & Hl).
    rewrite processRow_spec in *. simpl in *.
    rewrite He, Hp, Hu, Hc, Hl. unfold progressValues. simpl.
    rewrite <- !app_assoc. simpl. repeat split; lia.
Qed.

Lemma groupLoop_finished observer totalSteps :
  forall entries st st',
    groupLoop observer totalSteps entries st = Finished st' ->
    st_errors st' = (st_errors st ++ resolutionErrors entries)%list
    /\ st_processedData st' = st_processedData st
    /\ st_completedSteps st' = st_completedSteps st + length entries
    /\ st_published st' =
         (st_published st
          ++ progressValues totalSteps (S (st_completedSteps st)) (length entries))%list.
Proof.
  induction entries as [|[key valueMap] rest IH]; intros st st' Hrun; simpl in Hrun.
  - inversion Hrun; subst. unfold progressValues, resolutionErrors. simpl.
    rewrite !app_nil_r. repeat split; lia.
  - destruct (isValidationCancelled (st_refs st)); [discriminate|].
    apply IH in Hrun as (He & Hp & Hc & Hl). simpl in *.
    rewrite He, Hp, Hc, Hl. unfold progressValues, resolutionErrors. simpl.
    rewrite <- !app_assoc. simpl. repeat split; lia.
Qed.

(** A run that returns went through every row and every key of
    [uniqueValues]. *)
Lemma validateData_returns observer before data schema unique r :
  outcome (validateData observer before data schema unique) = Return r ->
  let finalValues := trackRows unique 0 data (initUniqueValues unique) in
  errors r = (dataErrors schema 0 data
              ++ resolutionErrors (JsObject.entries finalValues))%list
  /\ processedData r = map (cleanRow schema) data
  /\ published (validateData observer before data schema unique) =
       0%Z :: progressValues (length data + length unique) 1
                (length data + length finalValues).
Proof.
  unfold validateData.
  destruct (rowLoop _ _ _ _ _ _ _) as [st|e st] eqn:Hrows; [|discriminate].
  destruct (groupLoop _ _ _ _) as [st'|e st'] eqn:Hgroups; [|discriminate].
  simpl. intros [= <-]. simpl.
  apply rowLoop_finished in Hrows as (He & Hp & Hu & Hc & Hl).
  apply groupLoop_finished in Hgroups as (He' & Hp' & Hc' & Hl').
  simpl in *. rewrite He', He, Hp', Hp, Hl', Hl, Hc, Hu.
  unfold progressValues, JsObject.entries. simpl.
  repeat split. f_equal. by rewrite seq_app, map_app.
Qed.

(** ** Where the errors of a run come from *)

Lemma customErrors_row_column rowNumber col rules value e :
  e ∈ customErrors rowNumber col rules value -> row e = rowNumber /\ column e = col.
Proof.
  unfold customErrors.
  destruct (customValidator rules) as [validator|]; [|intros H; inversion H].
  destruct (isNullish value); [intros H; inversion H|].
  destruct (validator value None); intros H; [inversion H|].
  apply list_elem_of_singleton in H. by subst.
Qed.

Lemma formatErrors_row_column rowNumber col rules value e :
  e ∈ formatErrors rowNumber col rules value -> row e = rowNumber /\ column e = col.
Proof.
  unfold formatErrors.
  destruct (validators rules) as [vs|]; [|intros H; inversion H].
  destruct (isNullish value); [intros H; inversion H|].
  rewrite elem_of_three. intros [[_ ->]|[[_ ->]|[_ ->]]]; done.
Qed.

Lemma validateCell_row_column rowNumber col rules value e :
  e ∈ validateCell rowNumber col rules value -> row e = rowNumber /\ column e = col.
Proof.
  unfold validateCell.
  destruct (required rules && isMissing value).
  { intros H. apply list_elem_of_singleton in H. by subst. }
  destruct (typeMismatch rules value).
  { intros H. apply list_elem_of_singleton in H. by subst. }
  rewrite !elem_of_app. intros [H|[H|H]].
  - by apply formatErrors_row_column in H.
  - apply acceptedValuesErrors_type in H. tauto.
  - by apply customErrors_row_column in H.
Qed.

Lemma rowErrors_app rowNumber rowData s1 s2 :
  rowErrors rowNumber rowData (s1 ++ s2) =
    (rowErrors rowNumber rowData s1 ++ rowErrors rowNumber rowData s2)%list.
Proof. unfold rowErrors. apply flat_map_app. Qed.

Lemma rowErrors_row_column rowNumber rowData schema e :
  e ∈ rowErrors rowNumber rowData schema ->
  row e = rowNumber /\ column e ∈ schemaKeys schema.
Proof.
  induction schema as [|[col rules] rest IH]; simpl.
  - intros H. inversion H.
  - unfold rowErrors. simpl. rewrite elem_of_app. intros [H|H].
    + apply validateCell_row_column in H as [-> ->]. split; [done|]. apply elem_of_cons. by left.
    + apply IH in H as [-> H]. split; [done|]. apply elem_of_cons. by right.
Qed.

Lemma dataErrors_app schema : forall l1 l2 rowIndex,
  dataErrors schema rowIndex (l1 ++ l2) =
    (dataErrors schema rowIndex l1 ++ dataErrors schema (rowIndex + length l1) l2)%list.
Proof.
  induction l1 as [|rowData rest IH]; intros l2 rowIndex; simpl.
  - by rewrite Nat.add_0_r.
  - rewrite IH, <- app_assoc. do 3 f_equal. lia.
Qed.

Lemma dataErrors_row schema : forall data rowIndex e,
  e ∈ dataErrors schema rowIndex data ->
  rowIndex + ROW_NUMBER_OFFSET <= row e < rowIndex + ROW_NUMBER_OFFSET + length data.
Proof.
  induction data as [|rowData rest IH]; intros rowIndex e; simpl.
  - intros H. inversion H.
  - rewrite elem_of_app. intros [H|H].
    + apply rowErrors_row_column in H as [-> _]. lia.
    + apply IH in H. lia.
Qed.

(** The errors of one row, cut around one cell: no error before or after
    the cell carries its column. *)
Lemma rowErrors_cell schema rowNumber rowData col rules :
  NoDup (schemaKeys schema) ->
  (col, rules) ∈ schema ->
  exists pre post,
    rowErrors rowNumber rowData schema =
      pre ++ validateCell rowNumber col rules (trimValue (getProp rowData col)) ++ post
    /\ forall e, e ∈ pre ++ post -> row e = rowNumber /\ column e <> col.
Proof.
  intros Hnd Hin.
  apply list_elem_of_split in Hin as (s1 & s2 & Hsplit).
  assert (Hkeys : (col ∉ map fst s1) /\ (col ∉ map fst s2)).
  { unfold schemaKeys in Hnd. rewrite Hsplit, map_app in Hnd. simpl in Hnd.
    apply NoDup_app in Hnd as (_ & Hs1 & Hs2).
    apply NoDup_cons in Hs2 as [Hs2 _]. split; [|done].
    intros H. apply (Hs1 _ H). apply elem_of_cons. by left. }
  destruct Hkeys as [Hs1 Hs2].
  exists (rowErrors rowNumber rowData s1), (rowErrors rowNumber rowData s2).
  split.
  - rewrite Hsplit, rowErrors_app. reflexivity.
  - intros e. rewrite elem_of_app.
    intros [H|H]; apply rowErrors_row_column in H as [Hr H]; unfold schemaKeys in H;
      (split; [exact Hr|congruence]).
Qed.

(** The errors of the row loop, cut around one cell: no error before or
    after the cell carries both its row number and its column. *)
Lemma dataErrors_cell schema data i rowData col rules :
  NoDup (schemaKeys schema) ->
  data !! i = Some rowData ->
  (col, rules) ∈ schema ->
  exists pre post,
    dataErrors schema 0 data =
      (pre ++ validateCell (i + ROW_NUMBER_OFFSET) col rules
                (trimValue (getProp rowData col)) ++ post)%list
    /\ forall e, e ∈ (pre ++ post)%list ->
         ~ (row e = i + ROW_NUMBER_OFFSET /\ column e = col).
Proof.
  intros Hnd Hi Hin.
  destruct (rowErrors_cell schema (i + ROW_NUMBER_OFFSET) rowData col rules Hnd Hin)
    as (pre & post & Hrow & Hother).
  assert (Hlen : length (take i data) = i).
  { apply length_take_le. apply lookup_lt_Some in Hi. lia. }
  rewrite <- (take_drop_middle _ _ _ Hi), dataErrors_app. simpl.
  rewrite Hlen, Hrow.
  exists (dataErrors schema 0 (take i data) ++ pre),
         (post ++ dataErrors schema (S i) (drop (S i) data)).
  split.
  - by rewrite <- !app_assoc.
  - intros e. rewrite !elem_of_app. intros [[H|H]|[H|H]] [Hr Hc].
    + apply dataErrors_row in H. rewrite Hlen in H. lia.
    + destruct (Hother e) as [_ Hne]; [apply elem_of_app; by left|done].
    + destruct (Hother e) as [_ Hne]; [apply elem_of_app; by right|done].
    + apply dataErrors_row in H. lia.
Qed.

Lemma duplicateErrors_type key valueMap e :
  e ∈ duplicateErrors key valueMap -> errorType e = DUPLICATE /\ column e = key.
Proof.
  unfold duplicateErrors. rewrite list_elem_of_In, in_flat_map.
  intros ([value rows] & _ & H).
  destruct (1 <? length rows)%nat; [|inversion H].
  apply in_map_iff in H as (r & <- & _). done.
Qed.

Lemma resolutionErrors_type entries e :
  e ∈ resolutionErrors entries ->
  errorType e = DUPLICATE /\ column e ∈ map fst entries.
Proof.
  unfold resolutionErrors. rewrite list_elem_of_In, in_flat_map.
  intros ([key valueMap] & Hin & H).
  apply list_elem_of_In, duplicateErrors_type in H as [Ht Hc]. split; [done|].
  rewrite Hc. apply list_elem_of_In. apply in_map_iff. by exists (key, valueMap).
Qed.

Lemma filter_none {A} (f : A -> bool) (l : list A) :
  (forall x, x ∈ l -> f x = false) -> List.filter f l = [].
Proof.
  induction l as [|x l IH]; intros H; simpl; [done|].
  rewrite (H x) by (apply elem_of_cons; by left).
  apply IH. intros y Hy. apply H. apply elem_of_cons. by right.
Qed.

Lemma rowErrors_elem rowNumber rowData schema col rules e :
  (col, rules) ∈ schema ->
  e ∈ validateCell rowNumber col rules (trimValue (getProp rowData col)) ->
  e ∈ rowErrors rowNumber rowData schema.
Proof.
  intros Hin He. unfold rowErrors. apply list_elem_of_In, in_flat_map.
  exists (col, rules). split; by apply list_elem_of_In.
Qed.

Lemma dataErrors_elem schema : forall data rowIndex i rowData e,
  data !! i = Some rowData ->
  e ∈ rowErrors (rowIndex + i + ROW_NUMBER_OFFSET) rowData schema ->
  e ∈ dataErrors schema rowIndex data.
Proof.
  induction data as [|r0 rest IH]; intros rowIndex i rowData e Hi He; [done|].
  simpl. apply elem_of_app. destruct i as [|i]; simpl in Hi.
  - left. injection Hi as ->. by rewrite Nat.add_0_r in He.
  - right. apply (IH (S rowIndex) i rowData); [done|].
    by replace (S rowIndex + i) with (rowIndex + S i) by lia.
Qed.

(** ** Required fields *)

(** C1.  A required column whose trimmed value is null, undefined or the
    empty string gets exactly one REQUIRED error, with the message of the
    source, and no error of a later check (type, format, accepted values,
    custom): among the errors that processing the row adds, and, for a run
    that returns, among all its errors with that row number and column. *)
Theorem required_missing_reported_once :
  forall (schema : ExcelValidationSchema) (i : nat) (rowData : Row) (col : string)
         (rules : ExcelValidationSchemaOption),
    NoDup (schemaKeys schema) ->
    (col, rules) ∈ schema ->
    required rules = true ->
    (trimValue (getProp rowData col) = VNull
     \/ trimValue (getProp rowData col) = VUndefined
     \/ trimValue (getProp rowData col) = VString EmptyString) ->
    (forall (unique : ExcelUniqueConstraint) (st : EngineState),
        exists added : list ExcelCellValidationError,
          st_errors (processRow schema unique i rowData st) = st_errors st ++ added
          /\ List.filter
               (fun e => bool_decide (column e = col /\ errorType e = REQUIRED)) added
             = [ {| row := i + 2; column := col;
                    message := "This field is required"; errorType := REQUIRED |} ]
          /\ forall e, e ∈ added -> column e = col -> ~ laterCheckType (errorType e))
    /\ (forall (observer : Observer) (before : Refs) (data : list Row)
               (unique : ExcelUniqueConstraint) (r : ValidationResult),
          outcome (validateData observer before data schema unique) = Return r ->
          data !! i = Some rowData ->
          List.filter
            (fun e => bool_decide (row e = i + 2 /\ column e = col
                                   /\ errorType e = REQUIRED))
            (errors r)
          = [ {| row := i + 2; column := col;
                 message := "This field is required"; errorType := REQUIRED |} ]
          /\ forall e, e ∈ errors r -> row e = i + 2 -> column e = col ->
               ~ laterCheckType (errorType e)).
Proof.
  intros schema i rowData col rules Hnd Hin Hreq Hmiss.
  assert (Hcell : validateCell (i + ROW_NUMBER_OFFSET) col rules
                    (trimValue (getProp rowData col))
                  = [requiredError (i + 2) col]).
  { unfold validateCell. rewrite Hreq.
    destruct Hmiss as [ -> | [ -> | -> ] ]; reflexivity. }
  assert (Hlater : forall e, errorType e = REQUIRED \/ errorType e = DUPLICATE ->
                             ~ laterCheckType (errorType e)).
  { intros e [Ht|Ht]; rewrite Ht; intros [H|[H|[H|[H|[H|H]]]]]; discriminate H. }
  split.
  - intros unique st.
    destruct (rowErrors_cell schema (i + ROW_NUMBER_OFFSET) rowData col rules Hnd Hin)
      as (pre & post & Hrow & Hother).
    rewrite Hcell in Hrow.
    exists (rowErrors (i + ROW_NUMBER_OFFSET) rowData schema).
    split; [by rewrite processRow_spec|]. rewrite Hrow. split.
    + rewrite !List.filter_app. simpl. rewrite !filter_none.
      * rewrite bool_decide_eq_true_2 by done. reflexivity.
      * intros e He. apply bool_decide_eq_false_2. intros [Hc _].
        destruct (Hother e) as [_ Hne]; [apply elem_of_app; by right|done].
      * intros e He. apply bool_decide_eq_false_2. intros [Hc _].
        destruct (Hother e) as [_ Hne]; [apply elem_of_app; by left|done].
    + intros e He Hc. apply Hlater. left.
      rewrite !elem_of_app in He. destruct He as [He|[He|He]].
      * destruct (Hother e) as [_ Hne]; [apply elem_of_app; by left|done].
      * apply list_elem_of_singleton in He. by subst e.
      * destruct (Hother e) as [_ Hne]; [apply elem_of_app; by right|done].
  - intros observer before data unique r Hrun Hi.
    apply validateData_returns in Hrun as (Herr & _ & _).
    destruct (dataErrors_cell schema data i rowData col rules Hnd Hi Hin)
      as (pre & post & Hcut & Hother).
    rewrite Hcell in Hcut. rewrite Herr, Hcut. change ROW_NUMBER_OFFSET with 2 in *.
    split.
    + rewrite !List.filter_app. simpl.
      rewrite !filter_none.
      * rewrite bool_decide_eq_true_2 by done. reflexivity.
      * intros e He. apply resolutionErrors_type in He as [Ht _].
        apply bool_decide_eq_false_2. intros (_ & _ & H). congruence.
      * intros e He. apply bool_decide_eq_false_2. intros (Hr & Hc & _).
        apply (Hother e); [apply elem_of_app; by right|done].
      * intros e He. apply bool_decide_eq_false_2. intros (Hr & Hc & _).
        apply (Hother e); [apply elem_of_app; by left|done].
    + intros e He Hr Hc. apply Hlater.
      rewrite !elem_of_app in He. destruct He as [[He|[He|He]]|He].
      * exfalso. apply (Hother e); [apply elem_of_app; by left|done].
      * apply list_elem_of_singleton in He. subst e. by left.
      * exfalso. apply (Hother e); [apply elem_of_app; by right|done].
      * apply resolutionErrors_type in He as [Ht _]. by right.
Qed.

(** ** Processed rows *)

Lemma setProp_lookup (p : Row) k v col :
  setProp p k v !! col
  = if decide (col = k /\ k <> "__proto__") then Some v else p !! col.
Proof.
  unfold setProp. destruct (String.eqb_spec k "__proto__") as [->|Hk].
  - rewrite decide_False; [done|]. by intros [_ H].
  - destruct (decide (col = k)) as [->|Hne].
    + rewrite lookup_insert_eq, decide_True; done.
    + rewrite lookup_insert_ne by done. rewrite decide_False; [done|]. by intros [H _].
Qed.

Lemma cleanRow_fold_lookup (rowData : Row) (entries : ExcelValidationSchema) :
  forall (p : Row) (col : string),
    fold_left (fun (p : Row) '(c, _) => setProp p c (trimValue (getProp rowData c)))
              entries p !! col
    = if decide (col ∈ schemaKeys entries /\ col <> "__proto__")
      then Some (trimValue (getProp rowData col)) else p !! col.
Proof.
  unfold schemaKeys.
  induction entries as [|[c rules] rest IH]; intros p col.
  - cbn [fold_left map]. rewrite decide_False; [done|]. intros [H _].
    by apply elem_of_nil in H.
  - cbn [fold_left map fst]. rewrite IH, setProp_lookup.
    destruct (decide (col ∈ map fst rest /\ col <> "__proto__")) as [[Hr Hp]|Hn].
    + rewrite decide_True; [done|]. split; [by right|done].
    + destruct (decide (col = c /\ c <> "__proto__")) as [[-> Hp]|Hn2].
      * rewrite decide_True; [done|]. split; [left|done].
      * rewrite decide_False; [done|]. intros [Hin Hp].
        apply elem_of_cons in Hin as [->|Hin]; [by apply Hn2|by apply Hn].
Qed.

Lemma cleanRow_lookup schema rowData col :
  cleanRow schema rowData !! col
  = if decide (col ∈ schemaKeys schema /\ col <> "__proto__")
    then Some (trimValue (getProp rowData col)) else None.
Proof. unfold cleanRow. by rewrite cleanRow_fold_lookup, lookup_empty. Qed.

Lemma cleanRow_dom schema rowData :
  dom (cleanRow schema rowData)
  = (list_to_set (filter (fun col => col <> "__proto__") (schemaKeys schema)) : gset string).
Proof.
  apply set_eq. intros col.
  rewrite elem_of_dom, cleanRow_lookup, elem_of_list_to_set, list_elem_of_filter.
  case_decide as H; split; intros H2.
  - tauto.
  - done.
  - by destruct H2 as [? ?].
  - tauto.
Qed.

Lemma filter_proto_absent (keys : list string) :
  "__proto__" ∉ keys -> filter (fun col => col <> "__proto__") keys = keys.
Proof.
  induction keys as [|k keys IH]; intros Hout; [done|].
  rewrite filter_cons_True.
  - f_equal. apply IH. intros H. apply Hout. by right.
  - intros ->. apply Hout. left.
Qed.

(** X22.  The shape of the processed rows, for a schema without a column
    named [__proto__]: a run that returns gives one processed row per input row,
    in the same order; the keys of a processed row are the columns of the
    schema, a string value is stored trimmed and any other value as it
    is. *)
Theorem processedData_shape :
  forall (observer : Observer) (before : Refs) (data : list Row)
         (schema : ExcelValidationSchema) (unique : ExcelUniqueConstraint)
         (r : ValidationResult),
    "__proto__" ∉ schemaKeys schema ->
    outcome (validateData observer before data schema unique) = Return r ->
    length (processedData r) = length data
    /\ forall (i : nat) (rowData : Row),
        data !! i = Some rowData ->
        exists processedRow : Row,
          processedData r !! i = Some processedRow
          /\ dom processedRow = (list_to_set (schemaKeys schema) : gset string)
          /\ forall col : string,
              col ∈ schemaKeys schema ->
              (forall s, getProp rowData col = VString s ->
                         processedRow !! col = Some (VString (JsString.trim s)))
              /\ ((forall s, getProp rowData col <> VString s) ->
                  processedRow !! col = Some (getProp rowData col)).
Proof.
  intros observer before data schema unique r Hproto Hrun.
  apply validateData_returns in Hrun as (_ & Hp & _).
  rewrite Hp. split; [by rewrite length_map|].
  intros i rowData Hi. exists (cleanRow schema rowData).
  split; [by rewrite list_lookup_fmap, Hi|].
  split; [by rewrite cleanRow_dom, filter_proto_absent|].
  intros col Hcol. rewrite cleanRow_lookup, decide_True; [|split; [done|by intros ->]].
  split.
  - intros s ->. reflexivity.
  - intros Hns. destruct (getProp rowData col) eqn:E; try reflexivity.
    by destruct (Hns s).
Qed.

(** C5.  The claim fails for a schema that owns a column named
    [__proto__]: the column loop assigns the cell to
    [processedRow["__proto__"]], which creates no own property, so the
    processed row lacks a column of the schema.  Here the row
    [{ "__proto__": " a " }] under the schema [{ "__proto__": { type:
    "string" } }] passes every check and its processed row has no key. *)
Theorem proto_column_is_not_stored :
  outcome (validateData idle Samples.freshRefs [ Samples.protoRow ] Samples.protoSchema [])
  = Return {| errors := []; processedData := [ ∅ ] |}
  /\ schemaKeys Samples.protoSchema = [ "__proto__" ]
  /\ dom (cleanRow Samples.protoSchema Samples.protoRow)
     <> (list_to_set (schemaKeys Samples.protoSchema) : gset string).
Proof.
  split; [vm_compute; reflexivity|]. split; [reflexivity|].
  rewrite cleanRow_dom. vm_compute. discriminate.
Qed.

Lemma required_missing_reported_once_witness :
  let r := {| errors := [requiredError 2 "name"];
              processedData := [ {[ "name" := VString EmptyString ]} ] |} in
  NoDup (schemaKeys Samples.nameSchema)
  /\ ("name", Samples.nameRules) ∈ Samples.nameSchema
  /\ required Samples.nameRules = true
  /\ trimValue (getProp Samples.blankName "name") = VString EmptyString
  /\ outcome (validateData idle Samples.freshRefs [Samples.blankName] Samples.nameSchema [])
     = Return r
  /\ List.filter
       (fun e => bool_decide (row e = 0 + 2 /\ column e = "name" /\ errorType e = REQUIRED))
       (errors r)
     = [ {| row := 0 + 2; column := "name";
            message := "This field is required"; errorType := REQUIRED |} ].
Proof.
  intros r.
  assert (Hnd : NoDup (schemaKeys Samples.nameSchema)) by apply NoDup_singleton.
  assert (Hin : ("name", Samples.nameRules) ∈ Samples.nameSchema)
    by (apply list_elem_of_singleton; reflexivity).
  assert (Hmiss : trimValue (getProp Samples.blankName "name") = VString EmptyString)
    by (vm_compute; reflexivity).
  assert (Hrun : outcome (validateData idle Samples.freshRefs [Samples.blankName]
                            Samples.nameSchema []) = Return r)
    by (vm_compute; reflexivity).
  split; [exact Hnd|]. split; [exact Hin|]. split; [reflexivity|].
  split; [exact Hmiss|]. split; [exact Hrun|].
  exact (proj1 (proj2 (required_missing_reported_once Samples.nameSchema 0
                         Samples.blankName "name" Samples.nameRules Hnd Hin eq_refl
                         (or_intror (or_intror Hmiss)))
                  idle Samples.freshRefs [Samples.blankName] [] r Hrun eq_refl)).
Defined.

Lemma processedData_shape_witness :
  let r := {| errors := [requiredError 2 "name"];
              processedData := [ {[ "name" := VString EmptyString ]} ] |} in
  ("__proto__" ∉ schemaKeys Samples.nameSchema)
  /\ outcome (validateData idle Samples.freshRefs [Samples.blankName] Samples.nameSchema [])
    = Return r
  /\ length (processedData r) = length [Samples.blankName].
Proof.
  intros r.
  assert (Hrun : outcome (validateData idle Samples.freshRefs [Samples.blankName]
                            Samples.nameSchema []) = Return r)
    by (vm_compute; reflexivity).
  assert (Hproto : "__proto__" ∉ schemaKeys Samples.nameSchema).
  { intros H. apply list_elem_of_singleton in H. discriminate H. }
  split; [exact Hproto|]. split; [exact Hrun|].
  exact (proj1 (processedData_shape idle Samples.freshRefs [Samples.blankName]
                  Samples.nameSchema [] r Hproto Hrun)).
Defined.

(** ** Format validators *)

(** In a run that returns, the errors with the row and the column of a cell
    and a type other than DUPLICATE are those the column loop pushed for
    the cell. *)
Lemma cell_errors_of_run observer before data schema unique r i rowData col rules e :
  outcome (validateData observer before data schema unique) = Return r ->
  NoDup (schemaKeys schema) ->
  (col, rules) ∈ schema ->
  data !! i = Some rowData ->
  errorType e <> DUPLICATE ->
  (e ∈ errors r /\ row e = i + 2 /\ column e = col)
  <-> e ∈ validateCell (i + 2) col rules (trimValue (getProp rowData col)).
Proof.
  intros Hrun Hnd Hin Hi Htype.
  apply validateData_returns in Hrun as (Herr & _ & _).
  destruct (dataErrors_cell schema data i rowData col rules Hnd Hi Hin)
    as (pre & post & Hcut & Hother).
  rewrite Herr, Hcut. change ROW_NUMBER_OFFSET with 2 in *.
  rewrite !elem_of_app. split.
  - intros ([[He|[He|He]]|He] & Hr & Hc).
    + exfalso. apply (Hother e); [apply elem_of_app; by left|done].
    + done.
    + exfalso. apply (Hother e); [apply elem_of_app; by right|done].
    + apply resolutionErrors_type in He as [Ht _]. done.
  - intros He. split; [auto|]. by apply validateCell_row_column in He.
Qed.

(** C10, as stated, fails: a boolean cell of a column whose custom
    validator returns an error of type EMAIL_RULE gets that error, with its
    type, since the merge keeps every field of the returned error but the
    row and the column. *)
Lemma custom_validator_reports_a_format_type :
  trimValue (getProp Samples.activeRow "active") = VBoolean true
  /\ validators Samples.activeRules
     = Some {| useEmail := true; useMobileNumber := true; useEmployeeNumber := true |}
  /\ outcome (validateData idle Samples.freshRefs [ Samples.activeRow ]
                Samples.activeSchema [])
     = Return {| errors := [ {| row := 2; column := "active";
                                message := "Not a contact";
                                errorType := EMAIL_RULE |} ];
                 processedData := [ Samples.activeRow ] |}.
Proof. repeat split; vm_compute; reflexivity. Qed.

(** C10, amended.  In a run that returns, for a cell whose trimmed value is
    present and whose column declares validators: when the value is neither
    a string nor a number, every EMAIL_RULE, MOBILE_RULE or EMPLOYEE_RULE
    error of the run on that cell is the error the custom validator of the
    column returned, and there is none when the column has no custom
    validator; when the cell passes the required and the type check, the
    run reports the email error on it exactly when [isEmail] is switched on
    and the value is a string that fails the pattern (or the custom
    validator returned that very error), and the mobile or employee error
    exactly when the switch is on and the value is a string or a number
    that fails the pattern (or the custom validator returned it). *)
Theorem format_validators_by_value_kind :
  forall (observer : Observer) (before : Refs) (data : list Row)
         (schema : ExcelValidationSchema) (unique : ExcelUniqueConstraint)
         (r : ValidationResult) (i : nat) (rowData : Row) (col : string)
         (rules : ExcelValidationSchemaOption) (vs : ExcelValidators),
    outcome (validateData observer before data schema unique) = Return r ->
    NoDup (schemaKeys schema) ->
    (col, rules) ∈ schema ->
    data !! i = Some rowData ->
    validators rules = Some vs ->
    isNullish (trimValue (getProp rowData col)) = false ->
    let value := trimValue (getProp rowData col) in
    let onCell := fun e => e ∈ errors r /\ row e = i + 2 /\ column e = col in
    (typeof value <> "string" -> typeof value <> "number" ->
     (forall e, onCell e -> isFormatError e -> e ∈ customErrors (i + 2) col rules value)
     /\ (customValidator rules = None -> forall e, onCell e -> ~ isFormatError e))
    /\ (required rules && isMissing value = false ->
        typeMismatch rules value = None ->
        (onCell (emailError (i + 2) col)
         <-> (useEmail vs = true /\ exists s, value = VString s /\ isEmail s = false)
             \/ emailError (i + 2) col ∈ customErrors (i + 2) col rules value)
        /\ (onCell (mobileError (i + 2) col)
            <-> (useMobileNumber vs = true
                 /\ (typeof value = "string" \/ typeof value = "number")
                 /\ isMobileNumber value = false)
                \/ mobileError (i + 2) col ∈ customErrors (i + 2) col rules value)
        /\ (onCell (employeeError (i + 2) col)
            <-> (useEmployeeNumber vs = true
                 /\ (typeof value = "string" \/ typeof value = "number")
                 /\ isEmployeeNumber value = false)
                \/ employeeError (i + 2) col ∈ customErrors (i + 2) col rules value)).
Proof.
  intros observer before data schema unique r i rowData col rules vs
         Hrun Hnd Hin Hi Hvs Hnn value onCell.
  assert (Hfmt : forall e, isFormatError e -> errorType e <> DUPLICATE).
  { intros e [H|[H|H]]; rewrite H; discriminate. }
  assert (Hcell : forall e, errorType e <> DUPLICATE ->
                            onCell e <-> e ∈ validateCell (i + 2) col rules value).
  { intros e He. by apply (cell_errors_of_run observer before data schema unique). }
  destruct (formatErrors_by_value_kind (i + 2) col rules vs value Hvs Hnn)
    as (Hemail & Hmobile & Hemployee & _ & Hother).
  cbv zeta in Hemail, Hmobile, Hemployee, Hother.
  split.
  - intros Hs Hn. destruct (Hother Hs Hn) as (_ & Hcustom & Hnone). split.
    + intros e He Hf. apply Hcustom; [|done]. by apply Hcell; [apply Hfmt|].
    + intros Hnocustom e He Hf. apply (Hnone Hnocustom e); [|done].
      by apply Hcell; [apply Hfmt|].
  - intros Hreq Hty.
    assert (Hsplit : forall e, errorType e <> ACCEPTED_VALUES ->
               e ∈ validateCell (i + 2) col rules value
               <-> e ∈ formatErrors (i + 2) col rules value
                   \/ e ∈ customErrors (i + 2) col rules value).
    { intros e He. unfold validateCell. rewrite Hreq, Hty, !elem_of_app. split.
      - intros [H|[H|H]]; [by left| |by right].
        apply acceptedValuesErrors_type in H as [H _]. done.
      - intros [H|H]; auto. }
    split; [|split].
    + rewrite Hcell, Hsplit, Hemail by discriminate. reflexivity.
    + rewrite Hcell, Hsplit, Hmobile by discriminate. reflexivity.
    + rewrite Hcell, Hsplit, Hemployee by discriminate. reflexivity.
Qed.

Lemma format_validators_by_value_kind_witness :
  let r := {| errors := [ emailError 2 "email" ];
              processedData := [ Samples.emailRow "bad" ] |} in
  let value := trimValue (getProp (Samples.emailRow "bad") "email") in
  let onCell := fun e => e ∈ errors r /\ row e = 0 + 2 /\ column e = "email" in
  onCell (emailError (0 + 2) "email")
  <-> (true = true /\ exists s, value = VString s /\ isEmail s = false)
      \/ emailError (0 + 2) "email" ∈ customErrors (0 + 2) "email" Samples.emailRules value.
Proof.
  intros r value onCell.
  assert (Hrun : outcome (validateData idle Samples.freshRefs [ Samples.emailRow "bad" ]
                            Samples.emailSchema []) = Return r)
    by (vm_compute; reflexivity).
  assert (Hnd : NoDup (schemaKeys Samples.emailSchema)) by apply NoDup_singleton.
  assert (Hin : ("email", Samples.emailRules) ∈ Samples.emailSchema) by left.
  exact (proj1 (proj2 (format_validators_by_value_kind idle Samples.freshRefs
                         [ Samples.emailRow "bad" ] Samples.emailSchema [] r 0
                         (Samples.emailRow "bad") "email" Samples.emailRules
                         {| useEmail := true; useMobileNumber := false;
                            useEmployeeNumber := false |}
                         Hrun Hnd Hin eq_refl eq_refl eq_refl)
                      eq_refl eq_refl)).
Defined.

(** ** Custom validators *)

(** C7, as stated, fails: the value "abc" of a number column is present
    and the declared validator rejects it, yet the only error of the run is
    the TYPE_MISMATCH; the validator's error is not merged into the list. *)
Lemma custom_validator_skipped_on_type_mismatch :
  customValidator Samples.ageRules = Some Samples.rejectAll
  /\ isNullish (trimValue (getProp (Samples.ageRow (VString "abc")) "age")) = false
  /\ Samples.rejectAll (VString "abc") (Some (Samples.ageRow (VString "abc")))
     = CustomError Samples.tooYoung
  /\ outcome (validateData idle Samples.freshRefs [Samples.ageRow (VString "abc")]
                Samples.ageSchema [])
     = Return {| errors := [ typeMismatchError 2 "age" TypeNumber (VString "abc") ];
                 processedData := [ Samples.ageRow (VString "abc") ] |}
  /\ mergeCustom Samples.tooYoung 2 "age"
     ∉ [ typeMismatchError 2 "age" TypeNumber (VString "abc") ].
Proof.
  repeat split; try (vm_compute; reflexivity).
  intros H. apply list_elem_of_singleton in H. discriminate H.
Qed.

(** C7, amended.  In a run that returns, when a column declares a custom
    validator, its trimmed value is present and the required and type checks
    of the column pass, the validator is applied to the value; a result
    other than [true] is merged with the row number and the column name
    and the merged record is in the error list of the run. *)
Theorem custom_validator_after_checks :
  forall (observer : Observer) (before : Refs) (data : list Row)
         (schema : ExcelValidationSchema) (unique : ExcelUniqueConstraint)
         (r : ValidationResult) (i : nat) (rowData : Row) (col : string)
         (rules : ExcelValidationSchemaOption)
         (validator : JsValue -> option Row -> CustomResult),
    outcome (validateData observer before data schema unique) = Return r ->
    data !! i = Some rowData ->
    (col, rules) ∈ schema ->
    customValidator rules = Some validator ->
    isNullish (trimValue (getProp rowData col)) = false ->
    required rules && isMissing (trimValue (getProp rowData col)) = false ->
    typeMismatch rules (trimValue (getProp rowData col)) = None ->
    exists rowArg : option Row,
      validateCell (i + 2) col rules (trimValue (getProp rowData col))
      = formatErrors (i + 2) col rules (trimValue (getProp rowData col))
        ++ acceptedValuesErrors (i + 2) col rules (trimValue (getProp rowData col))
        ++ customErrors (i + 2) col rules (trimValue (getProp rowData col))
      /\ match validator (trimValue (getProp rowData col)) rowArg with
         | CustomTrue =>
             customErrors (i + 2) col rules (trimValue (getProp rowData col)) = []
         | CustomError customResult =>
             customErrors (i + 2) col rules (trimValue (getProp rowData col))
             = [ {| row := i + 2; column := col;
                    message := message customResult;
                    errorType := errorType customResult |} ]
             /\ {| row := i + 2; column := col;
                   message := message customResult;
                   errorType := errorType customResult |} ∈ errors r
         end.
Proof.
  intros observer before data schema unique r i rowData col rules validator
         Hrun Hi Hin Hcv Hnn Hreq Hty.
  apply validateData_returns in Hrun as (Herr & _ & _).
  exists None.
  assert (Hcell : validateCell (i + 2) col rules (trimValue (getProp rowData col))
      = formatErrors (i + 2) col rules (trimValue (getProp rowData col))
        ++ acceptedValuesErrors (i + 2) col rules (trimValue (getProp rowData col))
        ++ customErrors (i + 2) col rules (trimValue (getProp rowData col))).
  { unfold validateCell. by rewrite Hreq, Hty. }
  split; [exact Hcell|].
  unfold customErrors at 1 2. rewrite Hcv, Hnn.
  destruct (validator (trimValue (getProp rowData col)) None) as [|customResult] eqn:Hres;
    [reflexivity|].
  split; [reflexivity|].
  rewrite Herr. apply elem_of_app. left.
  apply (dataErrors_elem schema data 0 i rowData); [done|].
  apply (rowErrors_elem _ _ _ col rules); [done|].
  change (0 + i + ROW_NUMBER_OFFSET) with (i + 2). rewrite Hcell.
  rewrite !elem_of_app. right; right.
  unfold customErrors. rewrite Hcv, Hnn, Hres.
  apply list_elem_of_singleton. reflexivity.
Qed.

Lemma custom_validator_after_checks_witness :
  let r := {| errors := [ mergeCustom Samples.tooYoung 2 "age" ];
              processedData := [ Samples.ageRow (VNumber 12) ] |} in
  outcome (validateData idle Samples.freshRefs [Samples.ageRow (VNumber 12)]
             Samples.ageSchema []) = Return r
  /\ exists rowArg : option Row,
      validateCell (0 + 2) "age" Samples.ageRules
        (trimValue (getProp (Samples.ageRow (VNumber 12)) "age"))
      = formatErrors (0 + 2) "age" Samples.ageRules
          (trimValue (getProp (Samples.ageRow (VNumber 12)) "age"))
        ++ acceptedValuesErrors (0 + 2) "age" Samples.ageRules
             (trimValue (getProp (Samples.ageRow (VNumber 12)) "age"))
        ++ customErrors (0 + 2) "age" Samples.ageRules
             (trimValue (getProp (Samples.ageRow (VNumber 12)) "age"))
      /\ match Samples.rejectAll
                 (trimValue (getProp (Samples.ageRow (VNumber 12)) "age")) rowArg with
         | CustomTrue =>
             customErrors (0 + 2) "age" Samples.ageRules
               (trimValue (getProp (Samples.ageRow (VNumber 12)) "age")) = []
         | CustomError customResult =>
             customErrors (0 + 2) "age" Samples.ageRules
               (trimValue (getProp (Samples.ageRow (VNumber 12)) "age"))
             = [ {| row := 0 + 2; column := "age";
                    message := message customResult;
                    errorType := errorType customResult |} ]
             /\ {| row := 0 + 2; column := "age";
                   message := message customResult;
                   errorType := errorType customResult |} ∈ errors r
         end.
Proof.
  intros r.
  assert (Hrun : outcome (validateData idle Samples.freshRefs
                            [Samples.ageRow (VNumber 12)] Samples.ageSchema [])
                 = Return r) by (vm_compute; reflexivity).
  split; [exact Hrun|].
  refine (custom_validator_after_checks idle Samples.freshRefs
            [Samples.ageRow (VNumber 12)] Samples.ageSchema [] r 0
            (Samples.ageRow (VNumber 12)) "age" Samples.ageRules Samples.rejectAll
            Hrun eq_refl _ eq_refl _ _ _).
  - apply list_elem_of_singleton. reflexivity.
  - vm_compute. reflexivity.
  - vm_compute. reflexivity.
  - vm_compute. reflexivity.
Defined.

(** ** Insertion-ordered containers *)

Lemma JsObject_get_replace {V} (o : JsObject.t V) k v k' :
  JsObject.get o k <> None ->
  JsObject.get (JsObject.replace o k v) k'
  = if String.eqb k k' then Some v else JsObject.get o k'.
Proof.
  induction o as [|[k0 v0] o IH]; simpl; [done|].
  destruct (String.eqb k0 k) eqn:E0; simpl.
  - intros _. apply String.eqb_eq in E0. subst k0. by destruct (String.eqb k k').
  - intros H. rewrite (IH H). destruct (String.eqb k0 k') eqn:E1; [|done].
    apply String.eqb_eq in E1. subst k0. by rewrite String.eqb_sym, E0.
Qed.

Lemma JsObject_get_create {V} (o : JsObject.t V) k v k' :
  JsObject.get o k = None ->
  JsObject.get (JsObject.create o k v) k'
  = if String.eqb k k' then Some v else JsObject.get o k'.
Proof.
  induction o as [|[k0 v0] o IH]; simpl; [done|].
  destruct (String.eqb k0 k) eqn:E0; [discriminate|]. intros H.
  destruct (JsObject.before k k0); simpl.
  - destruct (String.eqb k k') eqn:E; [done|]. reflexivity.
  - rewrite (IH H). destruct (String.eqb k0 k') eqn:E1; [|done].
    apply String.eqb_eq in E1. subst k0. by rewrite String.eqb_sym, E0.
Qed.

Lemma JsObject_get_set {V} (o : JsObject.t V) k v k' :
  k <> "__proto__" ->
  JsObject.get (JsObject.set o k v) k'
  = if String.eqb k k' then Some v else JsObject.get o k'.
Proof.
  intros Hk. unfold JsObject.set. apply String.eqb_neq in Hk. rewrite Hk.
  destruct (JsObject.get o k) eqn:E.
  - apply JsObject_get_replace. congruence.
  - by apply JsObject_get_create.
Qed.

Lemma JsObject_get_set_ne {V} (o : JsObject.t V) k v k' :
  k <> k' -> JsObject.get (JsObject.set o k v) k' = JsObject.get o k'.
Proof.
  intros Hne. destruct (decide (k = "__proto__")) as [->|Hk].
  - reflexivity.
  - rewrite JsObject_get_set by done. apply String.eqb_neq in Hne. by rewrite Hne.
Qed.

Lemma JsObject_keys_replace {V} (o : JsObject.t V) k v :
  JsObject.get o k <> None ->
  JsObject.keys (JsObject.replace o k v) = JsObject.keys o.
Proof.
  unfold JsObject.keys.
  induction o as [|[k0 v0] o IH]; simpl; [done|].
  destruct (String.eqb k0 k) eqn:E0; simpl.
  - intros _. apply String.eqb_eq in E0. by subst.
  - intros H. by rewrite (IH H).
Qed.

Lemma JsObject_get_None {V} (o : JsObject.t V) k :
  JsObject.get o k = None <-> k ∉ JsObject.keys o.
Proof.
  induction o as [|[k0 v0] o IH]; simpl.
  - split; [intros _ H; inversion H|done].
  - rewrite not_elem_of_cons. destruct (String.eqb k0 k) eqn:E0.
    + apply String.eqb_eq in E0. split; [done|]. intros [H _]. congruence.
    + apply String.eqb_neq in E0. rewrite IH. unfold JsObject.keys. intuition congruence.
Qed.

Lemma JsObject_keys_create {V} (o : JsObject.t V) k v k' :
  k' ∈ JsObject.keys (JsObject.create o k v) <-> k' = k \/ k' ∈ JsObject.keys o.
Proof.
  induction o as [|[k0 v0] o IH]; simpl.
  - rewrite list_elem_of_singleton. split; [auto|]. intros [H|H]; [done|inversion H].
  - destruct (JsObject.before k k0); simpl.
    + rewrite !elem_of_cons. reflexivity.
    + rewrite !elem_of_cons, IH. unfold JsObject.keys. tauto.
Qed.

Lemma JsObject_NoDup_create {V} (o : JsObject.t V) k v :
  k ∉ JsObject.keys o -> NoDup (JsObject.keys o) ->
  NoDup (JsObject.keys (JsObject.create o k v)).
Proof.
  induction o as [|[k0 v0] o IH]; simpl; intros Hk Hnd.
  - apply NoDup_singleton.
  - destruct (JsObject.before k k0); simpl.
    + apply NoDup_cons. split; [exact Hk|exact Hnd].
    + apply not_elem_of_cons in Hk as [Hne Hk].
      apply NoDup_cons in Hnd as [Hk0 Hnd].
      apply NoDup_cons. split; [|by apply IH].
      fold (JsObject.keys (JsObject.create o k v)).
      rewrite JsObject_keys_create. intros [H|H]; [congruence|done].
Qed.

Lemma JsObject_NoDup_set {V} (o : JsObject.t V) k v :
  NoDup (JsObject.keys o) -> NoDup (JsObject.keys (JsObject.set o k v)).
Proof.
  intros Hnd. unfold JsObject.set. destruct (String.eqb k "__proto__"); [done|].
  destruct (JsObject.get o k) eqn:E.
  - rewrite JsObject_keys_replace; [done|congruence].
  - apply JsObject_NoDup_create; [|done]. by apply JsObject_get_None.
Qed.

Lemma JsObject_keys_set {V} (o : JsObject.t V) k v k' :
  k' ∈ JsObject.keys (JsObject.set o k v)
  <-> (k' = k /\ k <> "__proto__") \/ k' ∈ JsObject.keys o.
Proof.
  unfold JsObject.set. destruct (String.eqb_spec k "__proto__") as [->|Hk].
  - split; [auto|]. intros [[_ H]|H]; done.
  - destruct (JsObject.get o k) eqn:E.
    + rewrite JsObject_keys_replace by congruence. split; [auto|].
      intros [[-> _]|H]; [|done].
      destruct (decide (k ∈ JsObject.keys o)) as [H|H]; [done|].
      apply JsObject_get_None in H. congruence.
    + rewrite JsObject_keys_create. tauto.
Qed.

(** ** Uniqueness tracking *)

Lemma trackGroup_noteRow rowIndex rowData uniqueValues cols :
  trackGroup rowIndex rowData uniqueValues cols
  = match JsObject.get uniqueValues (uniqueKey cols) with
    | Some valueMap =>
        JsObject.set uniqueValues (uniqueKey cols)
          (noteRow valueMap (compositeKey rowData cols) (rowIndex + ROW_NUMBER_OFFSET))
    | None => uniqueValues
    end.
Proof.
  unfold trackGroup, noteRow.
  destruct (JsObject.get uniqueValues (uniqueKey cols)) as [valueMap|]; [|done].
  by destruct (JsMap.has valueMap (compositeKey rowData cols)).
Qed.

Lemma trackGroup_keys rowIndex rowData uniqueValues cols :
  JsObject.keys (trackGroup rowIndex rowData uniqueValues cols)
  = JsObject.keys uniqueValues.
Proof.
  rewrite trackGroup_noteRow.
  destruct (JsObject.get uniqueValues (uniqueKey cols)) as [valueMap|] eqn:E; [|done].
  unfold JsObject.set. destruct (String.eqb (uniqueKey cols) "__proto__"); [done|].
  rewrite E. apply JsObject_keys_replace. congruence.
Qed.

Lemma trackRow_keys rowIndex rowData unique : forall uniqueValues,
  JsObject.keys (trackRow rowIndex rowData unique uniqueValues)
  = JsObject.keys uniqueValues.
Proof.
  unfold trackRow. induction unique as [|cols rest IH]; intros uniqueValues; simpl.
  - reflexivity.
  - by rewrite IH, trackGroup_keys.
Qed.

Lemma trackRows_keys unique : forall data rowIndex uniqueValues,
  JsObject.keys (trackRows unique rowIndex data uniqueValues)
  = JsObject.keys uniqueValues.
Proof.
  induction data as [|rowData rest IH]; intros rowIndex uniqueValues; simpl.
  - reflexivity.
  - by rewrite IH, trackRow_keys.
Qed.

Lemma find_group_absent k (unique : ExcelUniqueConstraint) :
  k ∉ map uniqueKey unique ->
  List.find (fun g => String.eqb (uniqueKey g) k) unique = None.
Proof.
  induction unique as [|g rest IH]; simpl; [done|].
  rewrite not_elem_of_cons. intros [Hne Hrest].
  destruct (String.eqb (uniqueKey g) k) eqn:E.
  - apply String.eqb_eq in E. congruence.
  - by apply IH.
Qed.

Lemma find_group_present (unique : ExcelUniqueConstraint) cols :
  NoDup (map uniqueKey unique) ->
  cols ∈ unique ->
  List.find (fun g => String.eqb (uniqueKey g) (uniqueKey cols)) unique = Some cols.
Proof.
  induction unique as [|g rest IH]; simpl; intros Hnd Hin; [inversion Hin|].
  apply NoDup_cons in Hnd as [Hg Hnd].
  destruct (String.eqb (uniqueKey g) (uniqueKey cols)) eqn:E.
  - apply String.eqb_eq in E. apply elem_of_cons in Hin as [->|Hin]; [done|].
    exfalso. apply Hg. rewrite E. apply list_elem_of_In, in_map. by apply list_elem_of_In.
  - apply String.eqb_neq in E. apply elem_of_cons in Hin as [->|Hin]; [done|].
    by apply IH.
Qed.

(** One row updates the map of a key once: with the composite key of the
    group that owns the key. *)
Lemma trackRow_get rowIndex rowData k : forall unique uniqueValues valueMap,
  k <> "__proto__" ->
  NoDup (map uniqueKey unique) ->
  JsObject.get uniqueValues k = Some valueMap ->
  JsObject.get (trackRow rowIndex rowData unique uniqueValues) k
  = Some match List.find (fun g => String.eqb (uniqueKey g) k) unique with
         | Some g => noteRow valueMap (compositeKey rowData g) (rowIndex + ROW_NUMBER_OFFSET)
         | None => valueMap
         end.
Proof.
  unfold trackRow.
  induction unique as [|g rest IH]; intros uniqueValues valueMap Hk Hnd Hget; simpl.
  - exact Hget.
  - apply NoDup_cons in Hnd as [Hg Hnd]. rewrite trackGroup_noteRow.
    destruct (String.eqb (uniqueKey g) k) eqn:E.
    + apply String.eqb_eq in E. subst k. rewrite Hget.
      rewrite (IH _ (noteRow valueMap (compositeKey rowData g)
                       (rowIndex + ROW_NUMBER_OFFSET)) Hk Hnd).
      * by rewrite find_group_absent.
      * by rewrite JsObject_get_set, String.eqb_refl.
    + apply String.eqb_neq in E.
      destruct (JsObject.get uniqueValues (uniqueKey g)) as [m'|] eqn:Eg.
      * apply (IH _ valueMap Hk Hnd). by rewrite JsObject_get_set_ne.
      * by apply IH.
Qed.

Lemma trackRows_get unique cols : forall data rowIndex uniqueValues valueMap,
  uniqueKey cols <> "__proto__" ->
  NoDup (map uniqueKey unique) ->
  cols ∈ unique ->
  JsObject.get uniqueValues (uniqueKey cols) = Some valueMap ->
  JsObject.get (trackRows unique rowIndex data uniqueValues) (uniqueKey cols)
  = Some (fold_left (fun m '(n, values) => noteRow m values n)
                    (keyedRows cols rowIndex data) valueMap).
Proof.
  induction data as [|rowData rest IH];
    intros rowIndex uniqueValues valueMap Hk Hnd Hin Hget; simpl.
  - exact Hget.
  - apply IH; [done|done|done|].
    rewrite (trackRow_get _ _ _ _ _ valueMap Hk Hnd Hget).
    by rewrite find_group_present.
Qed.

Lemma initUniqueValues_fold_get (unique : ExcelUniqueConstraint) k :
  k <> "__proto__" ->
  forall o : UniqueValues,
    JsObject.get
      (fold_left (fun uniqueValues cols => JsObject.set uniqueValues (uniqueKey cols) [])
                 unique o) k
    = if bool_decide (k ∈ map uniqueKey unique) then Some [] else JsObject.get o k.
Proof.
  intros Hk. induction unique as [|g rest IH]; intros o; simpl.
  - reflexivity.
  - rewrite IH.
    destruct (bool_decide (k ∈ map uniqueKey rest)) eqn:Er.
    + apply bool_decide_eq_true in Er. rewrite bool_decide_eq_true_2; [done|].
      apply elem_of_cons. by right.
    + apply bool_decide_eq_false in Er.
      destruct (String.eqb_spec (uniqueKey g) k) as [E|E].
      * rewrite JsObject_get_set by congruence. rewrite E, String.eqb_refl.
        rewrite bool_decide_eq_true_2; [done|]. apply elem_of_cons. by left.
      * rewrite JsObject_get_set_ne by done. rewrite bool_decide_eq_false_2; [done|].
        rewrite not_elem_of_cons. split; congruence.
Qed.

Lemma initUniqueValues_get unique cols :
  uniqueKey cols <> "__proto__" ->
  cols ∈ unique ->
  JsObject.get (initUniqueValues unique) (uniqueKey cols) = Some [].
Proof.
  intros Hk Hin. unfold initUniqueValues. rewrite initUniqueValues_fold_get by done.
  rewrite bool_decide_eq_true_2; [done|].
  apply list_elem_of_In, in_map. by apply list_elem_of_In.
Qed.

Lemma initUniqueValues_fold_keys (unique : ExcelUniqueConstraint) :
  forall o : UniqueValues,
    NoDup (JsObject.keys o) ->
    NoDup (JsObject.keys
             (fold_left (fun uniqueValues cols => JsObject.set uniqueValues (uniqueKey cols) [])
                        unique o))
    /\ forall k,
        k ∈ JsObject.keys
              (fold_left (fun uniqueValues cols => JsObject.set uniqueValues (uniqueKey cols) [])
                         unique o)
        <-> (k ∈ map uniqueKey unique /\ k <> "__proto__") \/ k ∈ JsObject.keys o.
Proof.
  induction unique as [|g rest IH]; intros o Hnd; simpl.
  - split; [done|]. intros k. split; [auto|]. intros [[H _]|H]; [inversion H|done].
  - destruct (IH (JsObject.set o (uniqueKey g) [])) as [Hnd' Hkeys].
    { by apply JsObject_NoDup_set. }
    split; [done|]. intros k. rewrite Hkeys, JsObject_keys_set, elem_of_cons.
    split.
    + intros [[H1 H2]|[[-> H]|H]]; auto.
    + intros [[[->|H1] H2]|H]; auto.
Qed.

Lemma initUniqueValues_keys unique :
  NoDup (JsObject.keys (initUniqueValues unique))
  /\ forall k, k ∈ JsObject.keys (initUniqueValues unique)
               <-> k ∈ map uniqueKey unique /\ k <> "__proto__".
Proof.
  destruct (initUniqueValues_fold_keys unique []) as [Hnd Hkeys]; [apply NoDup_nil_2|].
  split; [done|]. intros k. unfold initUniqueValues. rewrite Hkeys.
  split; [|auto]. intros [H|H]; [done|inversion H].
Qed.

Lemma initUniqueValues_length unique :
  NoDup (map uniqueKey unique) ->
  "__proto__" ∉ map uniqueKey unique ->
  length (initUniqueValues unique) = length unique.
Proof.
  intros Hnd Hproto. destruct (initUniqueValues_keys unique) as [Hnd' Hkeys].
  rewrite <- (length_map fst (initUniqueValues unique)), <- (length_map uniqueKey unique).
  apply Permutation_length, NoDup_Permutation; [done|done|].
  intros k. fold (JsObject.keys (initUniqueValues unique)). rewrite Hkeys. split.
  - by intros [H _].
  - intros H. split; [done|]. by intros ->.
Qed.

Lemma trackRows_length unique data rowIndex uniqueValues :
  length (trackRows unique rowIndex data uniqueValues) = length uniqueValues.
Proof.
  rewrite <- (length_map fst (trackRows unique rowIndex data uniqueValues)),
          <- (length_map fst uniqueValues).
  fold (JsObject.keys (trackRows unique rowIndex data uniqueValues)).
  by rewrite trackRows_keys.
Qed.

(** The errors the resolution loop attributes to one key are those of the
    map stored at that key. *)
Lemma resolutionErrors_of_key (o : UniqueValues) k valueMap :
  NoDup (JsObject.keys o) ->
  JsObject.get o k = Some valueMap ->
  List.filter (fun e => String.eqb (column e) k)
              (resolutionErrors (JsObject.entries o))
  = duplicateErrors k valueMap.
Proof.
  unfold JsObject.entries, resolutionErrors.
  induction o as [|[k0 m0] o IH]; simpl; intros Hnd Hget; [discriminate|].
  apply NoDup_cons in Hnd as [Hk0 Hnd]. rewrite List.filter_app.
  destruct (String.eqb k0 k) eqn:E.
  - apply String.eqb_eq in E. subst k0. injection Hget as ->.
    rewrite (filter_none _ (flat_map _ o)).
    + rewrite app_nil_r. apply forallb_filter_id, forallb_forall.
      intros e He. apply list_elem_of_In, duplicateErrors_type in He as [_ ->].
      apply String.eqb_refl.
    + intros e He. apply resolutionErrors_type in He as [_ He].
      apply String.eqb_neq. intros Hc. apply Hk0. by rewrite <- Hc.
  - rewrite (filter_none _ (duplicateErrors k0 m0)).
    + by apply IH.
    + intros e He. apply duplicateErrors_type in He as [_ ->]. exact E.
Qed.

(** ** The tracked map is the one the description gives *)

Lemma firstSeen_snoc ks k :
  firstSeen (ks ++ [k])
  = if bool_decide (k ∈ firstSeen ks) then firstSeen ks else firstSeen ks ++ [k].
Proof. unfold firstSeen. by rewrite fold_left_app. Qed.

Lemma firstSeen_elem ks k : k ∈ firstSeen ks <-> k ∈ ks.
Proof.
  induction ks as [|k0 ks IH] using rev_ind; [done|].
  rewrite firstSeen_snoc, elem_of_app, list_elem_of_singleton.
  destruct (bool_decide (k0 ∈ firstSeen ks)) eqn:E.
  - apply bool_decide_eq_true in E. rewrite IH. split; [auto|].
    intros [H| ->]; [done|]. by apply IH.
  - by rewrite elem_of_app, list_elem_of_singleton, IH.
Qed.

Lemma firstSeen_NoDup ks : NoDup (firstSeen ks).
Proof.
  induction ks as [|k0 ks IH] using rev_ind; [apply NoDup_nil_2|].
  rewrite firstSeen_snoc.
  destruct (bool_decide (k0 ∈ firstSeen ks)) eqn:E; [done|].
  apply bool_decide_eq_false in E. apply NoDup_app. split; [done|].
  split; [|apply NoDup_singleton].
  intros x Hx Hx'. apply list_elem_of_singleton in Hx'. by subst.
Qed.

Lemma rowsHolding_snoc k' keyed n k :
  rowsHolding k' (keyed ++ [(n, k)])
  = rowsHolding k' keyed ++ (if String.eqb k k' then [n] else []).
Proof.
  unfold rowsHolding. rewrite List.filter_app, map_app. simpl.
  by destruct (String.eqb k k').
Qed.

Lemma rowsHolding_absent k keyed : k ∉ map snd keyed -> rowsHolding k keyed = [].
Proof.
  intros Hk. unfold rowsHolding. rewrite filter_none; [done|].
  intros [n k'] Hin. simpl. apply String.eqb_neq. intros ->.
  apply Hk. apply list_elem_of_In, in_map_iff. exists (n, k). split; [done|].
  by apply list_elem_of_In.
Qed.

Lemma JsMap_get_tabulate {V} (f : string -> V) ks k :
  JsMap.get (map (fun k' => (k', f k')) ks) k
  = if bool_decide (k ∈ ks) then Some (f k) else None.
Proof.
  induction ks as [|k0 ks IH]; simpl; [done|].
  destruct (String.eqb k0 k) eqn:E.
  - apply String.eqb_eq in E. subst. rewrite bool_decide_eq_true_2; [done|].
    apply elem_of_cons. by left.
  - apply String.eqb_neq in E. rewrite IH.
    destruct (bool_decide (k ∈ ks)) eqn:Ek.
    + apply bool_decide_eq_true in Ek. rewrite bool_decide_eq_true_2; [done|].
      apply elem_of_cons. by right.
    + apply bool_decide_eq_false in Ek. rewrite bool_decide_eq_false_2; [done|].
      rewrite not_elem_of_cons. split; congruence.
Qed.

Lemma JsMap_set_new {V} (f : string -> V) ks k v :
  k ∉ ks ->
  JsMap.set (map (fun k' => (k', f k')) ks) k v = map (fun k' => (k', f k')) ks ++ [(k, v)].
Proof.
  induction ks as [|k0 ks IH]; simpl; [done|].
  rewrite not_elem_of_cons. intros [Hne Hk].
  destruct (String.eqb k0 k) eqn:E.
  - apply String.eqb_eq in E. congruence.
  - by rewrite IH.
Qed.

Lemma JsMap_set_present {V} (f : string -> V) ks k v :
  NoDup ks -> k ∈ ks ->
  JsMap.set (map (fun k' => (k', f k')) ks) k v
  = map (fun k' => (k', if String.eqb k' k then v else f k')) ks.
Proof.
  induction ks as [|k0 ks IH]; simpl; intros Hnd Hin; [inversion Hin|].
  apply NoDup_cons in Hnd as [Hk0 Hnd].
  destruct (String.eqb k0 k) eqn:E.
  - apply String.eqb_eq in E. subst k0. f_equal.
    apply map_ext_in. intros k' Hk'. 
    destruct (String.eqb k' k) eqn:E'; [|done].
    apply String.eqb_eq in E'. subst k'. exfalso. apply Hk0. by apply list_elem_of_In.
  - apply String.eqb_neq in E. apply elem_of_cons in Hin as [->|Hin]; [done|].
    by rewrite IH.
Qed.

(** Refinement: folding the callback of [trackGroup] over the rows builds,
    for each composite key in first-seen order, the list of the row numbers
    holding it. *)
Lemma noteRow_fold_spec (keyed : list (nat * string)) :
  fold_left (fun m '(n, values) => noteRow m values n) keyed []
  = map (fun k => (k, rowsHolding k keyed)) (firstSeen (map snd keyed)).
Proof.
  induction keyed as [|[n k] keyed IH] using rev_ind; [done|].
  rewrite fold_left_app, IH, map_app. simpl. rewrite firstSeen_snoc.
  unfold noteRow, JsMap.has. rewrite JsMap_get_tabulate.
  destruct (bool_decide (k ∈ firstSeen (map snd keyed))) eqn:E.
  - apply bool_decide_eq_true in E. simpl.
    rewrite JsMap_set_present; [|apply firstSeen_NoDup|done].
    apply map_ext. intros k'. rewrite rowsHolding_snoc, (String.eqb_sym k' k).
    destruct (String.eqb k k') eqn:E'; [|by rewrite app_nil_r].
    apply String.eqb_eq in E'. by subst.
  - apply bool_decide_eq_false in E.
    rewrite JsMap_set_new by done. rewrite map_app. simpl.
    rewrite rowsHolding_snoc, String.eqb_refl.
    rewrite (rowsHolding_absent k keyed) by (by rewrite <- firstSeen_elem).
    f_equal. apply map_ext_in. intros k' Hk'. rewrite rowsHolding_snoc.
    destruct (String.eqb k k') eqn:E'; [|by rewrite app_nil_r].
    apply String.eqb_eq in E'. subst k'. exfalso. apply E. by apply list_elem_of_In.
Qed.

Lemma duplicateErrors_spec cols data :
  duplicateErrors (uniqueKey cols)
    (fold_left (fun m '(n, values) => noteRow m values n) (keyedRows cols 0 data) [])
  = duplicatesSpec cols data.
Proof.
  rewrite noteRow_fold_spec. unfold duplicateErrors, duplicatesSpec.
  generalize (firstSeen (map snd (keyedRows cols 0 data))) as ks.
  induction ks as [|k ks IH]; simpl; [done|]. by rewrite IH.
Qed.

(** The resolution pass of a run, group by group. *)
Lemma resolution_of_group unique data cols :
  NoDup (map uniqueKey unique) ->
  uniqueKey cols <> "__proto__" ->
  cols ∈ unique ->
  List.filter (fun e => String.eqb (column e) (uniqueKey cols))
    (resolutionErrors
       (JsObject.entries (trackRows unique 0 data (initUniqueValues unique))))
  = duplicatesSpec cols data.
Proof.
  intros Hnd Hk Hin.
  rewrite (resolutionErrors_of_key _ _
             (fold_left (fun m '(n, values) => noteRow m values n)
                        (keyedRows cols 0 data) [])).
  - apply duplicateErrors_spec.
  - rewrite trackRows_keys. apply initUniqueValues_keys.
  - apply trackRows_get; [done|done|done|]. by apply initUniqueValues_get.
Qed.

(** No error of the resolution pass carries the key [__proto__]: the key
    is never an own property of [uniqueValues]. *)
Lemma resolutionErrors_not_proto unique data e :
  e ∈ resolutionErrors
        (JsObject.entries (trackRows unique 0 data (initUniqueValues unique))) ->
  column e ∈ map uniqueKey unique /\ column e <> "__proto__".
Proof.
  intros He. apply resolutionErrors_type in He as [_ Hc].
  unfold JsObject.entries in Hc.
  fold (JsObject.keys (trackRows unique 0 data (initUniqueValues unique))) in Hc.
  rewrite trackRows_keys in Hc. by apply initUniqueValues_keys in Hc.
Qed.

Lemma not_proto_of_absent (unique : ExcelUniqueConstraint) cols :
  "__proto__" ∉ map uniqueKey unique -> cols ∈ unique -> uniqueKey cols <> "__proto__".
Proof.
  intros Hproto Hin Heq. apply Hproto. rewrite <- Heq.
  apply list_elem_of_fmap. by exists cols.
Qed.

(** ** Duplicate detection *)




(** When the constraint keys are pairwise distinct, the duplicates
    reported for a group are those of a run with that group alone. *)
Lemma groups_independent_when_keys_differ observer observer2 before before2
    (data : list Row) schema unique cols r r2 :
  outcome (validateData observer before data schema unique) = Return r ->
  outcome (validateData observer2 before2 data schema [cols]) = Return r2 ->
  NoDup (map uniqueKey unique) ->
  cols ∈ unique ->
  List.filter (fun e => String.eqb (column e) (uniqueKey cols)
                        && bool_decide (errorType e = DUPLICATE)) (errors r)
  = List.filter (fun e => String.eqb (column e) (uniqueKey cols)
                          && bool_decide (errorType e = DUPLICATE)) (errors r2).
Proof.
  intros Hrun Hrun2 Hnd Hin.
  apply validateData_returns in Hrun as (Herr & _ & _).
  apply validateData_returns in Hrun2 as (Herr2 & _ & _).
  rewrite Herr, Herr2, !List.filter_app. f_equal.
  assert (Hsplit : forall l,
             (forall e, e ∈ l -> errorType e = DUPLICATE) ->
             List.filter (fun e => String.eqb (column e) (uniqueKey cols)
                                   && bool_decide (errorType e = DUPLICATE)) l
             = List.filter (fun e => String.eqb (column e) (uniqueKey cols)) l).
  { intros l Hl. apply filter_ext_in. intros e He.
    rewrite (bool_decide_eq_true_2 _ (Hl e (proj2 (list_elem_of_In _ _) He))).
    apply andb_true_r. }
  rewrite !Hsplit by (intros e He; by apply resolutionErrors_type in He as [? _]).
  destruct (decide (uniqueKey cols = "__proto__")) as [Hk|Hk].
  - rewrite !filter_none; [done| |]; intros e He;
      apply resolutionErrors_not_proto in He as [_ He];
      apply String.eqb_neq; congruence.
  - rewrite resolution_of_group by done.
    rewrite resolution_of_group; [done|apply NoDup_singleton|done|].
    apply list_elem_of_singleton. reflexivity.
Qed.

(** C8 on the groups [["a","b"]] and [["a-b"]]: both have the constraint
    key "a-b" and share one map, so the single row is listed twice and is
    reported as a duplicate of itself; each group alone reports nothing. *)
Theorem groups_with_equal_keys_interfere :
  outcome (validateData idle Samples.freshRefs [Samples.abRow] [] [["a"; "b"]; ["a-b"]])
  = Return {| errors :=
                [ {| row := 2; column := "a-b";
                     message := "Duplicate value found: 1-2 in rows 2, 2";
                     errorType := DUPLICATE |};
                  {| row := 2; column := "a-b";
                     message := "Duplicate value found: 1-2 in rows 2, 2";
                     errorType := DUPLICATE |} ];
              processedData := [ ∅ ] |}
  /\ outcome (validateData idle Samples.freshRefs [Samples.abRow] [] [["a"; "b"]])
     = Return {| errors := []; processedData := [ ∅ ] |}
  /\ outcome (validateData idle Samples.freshRefs [Samples.abRow] [] [["a-b"]])
     = Return {| errors := []; processedData := [ ∅ ] |}
  /\ uniqueKey ["a"; "b"] = uniqueKey ["a-b"]
  /\ initUniqueValues [["a"; "b"]; ["a-b"]] = [("a-b", [])].
Proof. repeat split; vm_compute; reflexivity. Qed.

(** ** Progress *)

Section DoubleArithmetic.

Local Open Scope Z_scope.

Lemma nearestEven_spec n d :
  0 < d -> - d <= 2 * (Double.nearestEven n d * d - n) <= d.
Proof.
  intros Hd. unfold Double.nearestEven.
  pose proof (Z.div_mod n d ltac:(lia)) as Hdm.
  pose proof (Z.mod_pos_bound n d Hd) as Hr.
  destruct (Z.ltb_spec (2 * (n mod d)) d); [nia|].
  destruct (Z.ltb_spec d (2 * (n mod d))); [nia|].
  destruct (Z.even (n / d)); nia.
Qed.

Lemma floorLog2_lower n d :
  0 < n -> 0 < d ->
  d * 2 ^ Z.max 0 (Double.floorLog2 n d) <= n * 2 ^ Z.max 0 (- Double.floorLog2 n d).
Proof.
  intros Hn Hd. unfold Double.floorLog2, Double.scaled.
  set (k := Z.log2 n - Z.log2 d).
  destruct (Z.leb_spec (d * 2 ^ Z.max 0 k) (n * 2 ^ Z.max 0 (- k))) as [Hle|Hgt]; [exact Hle|].
  pose proof (Z.log2_spec n Hn) as [Hn1 Hn2].
  pose proof (Z.log2_spec d Hd) as [Hd1 Hd2].
  pose proof (Z.log2_nonneg n) as Ha. pose proof (Z.log2_nonneg d) as Hb.
  destruct (Z.le_gt_cases 1 k) as [Hk|Hk].
  - rewrite (Z.max_r 0 (k - 1)) by lia. rewrite (Z.max_l 0 (- (k - 1))) by lia.
    rewrite Z.pow_0_r, Z.mul_1_r.
    assert (H2 : 2 ^ Z.succ (Z.log2 d) * 2 ^ (k - 1) = 2 ^ Z.log2 n).
    { rewrite <- Z.pow_add_r by lia. f_equal. unfold k. lia. }
    assert (0 < 2 ^ (k - 1)) by (apply Z.pow_pos_nonneg; lia).
    nia.
  - rewrite (Z.max_l 0 (k - 1)) by lia. rewrite (Z.max_r 0 (- (k - 1))) by lia.
    rewrite Z.pow_0_r, Z.mul_1_r.
    assert (H2 : 2 ^ Z.log2 n * 2 ^ (- (k - 1)) = 2 ^ Z.succ (Z.log2 d)).
    { rewrite <- Z.pow_add_r by lia. f_equal. unfold k. lia. }
    assert (0 < 2 ^ (- (k - 1))) by (apply Z.pow_pos_nonneg; lia).
    nia.
Qed.

Lemma floorLog2_upper n d j :
  0 < n -> 0 < d -> 0 <= j -> n < d * 2 ^ j -> Double.floorLog2 n d < j.
Proof.
  intros Hn Hd Hj Hlt.
  pose proof (floorLog2_lower n d Hn Hd) as Hlow.
  destruct (Z.lt_ge_cases (Double.floorLog2 n d) j) as [|Hge]; [done|exfalso].
  rewrite (Z.max_r 0 (Double.floorLog2 n d)) in Hlow by lia.
  rewrite (Z.max_l 0 (- Double.floorLog2 n d)) in Hlow by lia.
  rewrite Z.pow_0_r, Z.mul_1_r in Hlow.
  assert (2 ^ j <= 2 ^ Double.floorLog2 n d) by (apply Z.pow_le_mono_r; lia).
  nia.
Qed.

(** The double nearest to a ratio below [2 ^ j], [j <= 52]: a mantissa over
    a power of two, within half a unit of the scaled ratio. *)
Lemma ofRatio_spec n d j :
  0 < n -> 0 < d -> 0 <= j <= 52 -> n < d * 2 ^ j ->
  exists m s,
    Double.ofRatio n d = Double.mk m (- s)
    /\ 53 - j <= s
    /\ - d <= 2 * (m * d - n * 2 ^ s) <= d.
Proof.
  intros Hn Hd Hj Hlt. unfold Double.ofRatio.
  destruct (Z.leb_spec n 0); [lia|].
  pose proof (floorLog2_upper n d j Hn Hd ltac:(lia) Hlt) as Hk.
  set (k := Double.floorLog2 n d) in *.
  unfold Double.scaled.
  rewrite (Z.max_r 0 (- (k - 52))) by lia. rewrite (Z.max_l 0 (k - 52)) by lia.
  rewrite Z.pow_0_r, Z.mul_1_r.
  exists (Double.nearestEven (n * 2 ^ (- (k - 52))) d), (- (k - 52)).
  split; [f_equal; lia|]. split; [lia|].
  by apply nearestEven_spec.
Qed.

Lemma getProgress_nearest (completed total : nat) :
  (1 <= completed <= total)%nat -> Z.of_nat total < 2 ^ 33 ->
  let p := getProgress completed total in
  2 * Z.of_nat total * p - Z.of_nat total <= 200 * Z.of_nat completed
  <= 2 * Z.of_nat total * p + Z.of_nat total.
Proof.
  intros Hc Ht. cbv zeta. unfold getProgress.
  destruct total as [|total']; [lia|]. set (total := S total') in *.
  set (c := Z.of_nat completed). set (t := Z.of_nat total) in *.
  assert (Hc1 : 1 <= c <= t) by lia.
  destruct (ofRatio_spec c t 1) as (m1 & s1 & Hdiv & Hs1 & H1); try lia.
  unfold Double.div. rewrite Hdiv. unfold Double.mul. cbn [Double.mant Double.expo].
  assert (HA : 2 ^ 52 <= 2 ^ s1) by (apply Z.pow_le_mono_r; lia).
  set (A := 2 ^ s1) in *.
  rewrite (Z.max_l 0 (- s1)) by lia. rewrite (Z.max_r 0 (- - s1)) by lia.
  rewrite Z.pow_0_r, Z.mul_1_r, Z.opp_involutive. fold A.
  change (2 ^ 52) with 4503599627370496 in HA.
  change (2 ^ 33) with 8589934592 in Ht.
  assert (HcA : 1 * A <= c * A) by (apply Z.mul_le_mono_nonneg_r; lia).
  assert (HtA : c * A <= t * A) by (apply Z.mul_le_mono_nonneg_r; lia).
  assert (Hm1 : 0 < m1 <= A).
  { split.
    - apply (Z.mul_lt_mono_pos_r t); lia.
    - apply Z.lt_succ_r, (Z.mul_lt_mono_pos_r t); lia. }
  destruct (ofRatio_spec (m1 * 100) A 7) as (m2 & s2 & Hmul & Hs2 & H2);
    [lia|lia|lia|change (2 ^ 7) with 128; lia|].
  rewrite Hmul. unfold Double.round. cbn [Double.mant Double.expo].
  destruct (Z.leb_spec 0 (- s2)); [lia|].
  assert (HB : 2 ^ 46 <= 2 ^ s2) by (apply Z.pow_le_mono_r; lia).
  replace (1 - - s2) with (Z.succ s2) by lia. rewrite Z.opp_involutive.
  rewrite Z.pow_succ_r by lia.
  set (B := 2 ^ s2) in *.
  set (p := (2 * m2 + B) / (2 * B)).
  change (2 ^ 46) with 70368744177664 in HB.
  assert (H3 : 2 * B * p <= 2 * m2 + B < 2 * B * p + 2 * B).
  { pose proof (Z.div_mod (2 * m2 + B) (2 * B) ltac:(lia)) as Hdm.
    pose proof (Z.mod_pos_bound (2 * m2 + B) (2 * B) ltac:(lia)) as Hr.
    fold p in Hdm. lia. }
  assert (HE : t * A + 100 * t * B < A * B).
  { assert (A * 70368744177664 <= A * B) by (apply Z.mul_le_mono_nonneg_l; lia).
    assert (4503599627370496 * B <= A * B) by (apply Z.mul_le_mono_nonneg_r; lia).
    assert (t * A <= 8589934591 * A) by (apply Z.mul_le_mono_nonneg_r; lia).
    assert (t * B <= 8589934591 * B) by (apply Z.mul_le_mono_nonneg_r; lia).
    lia. }
  pose proof (Z.mul_le_mono_nonneg_l _ _ (100 * B) ltac:(lia) (proj1 H1)) as F1a.
  pose proof (Z.mul_le_mono_nonneg_l _ _ (100 * B) ltac:(lia) (proj2 H1)) as F1b.
  pose proof (Z.mul_le_mono_nonneg_l _ _ t ltac:(lia) (proj1 H2)) as F2a.
  pose proof (Z.mul_le_mono_nonneg_l _ _ t ltac:(lia) (proj2 H2)) as F2b.
  assert (HtApos : 0 < t * A) by (apply Z.mul_pos_pos; lia).
  pose proof (Z.mul_le_mono_nonneg_l _ _ (t * A) ltac:(lia) (proj1 H3)) as F3a.
  pose proof (proj1 (Z.mul_lt_mono_pos_l (t * A) _ _ HtApos) (proj2 H3)) as F3b.
  assert (HAB : 0 < A * B) by (apply Z.mul_pos_pos; lia).
  split.
  - destruct (Z.le_gt_cases (2 * t * p - t) (200 * c)) as [|Hgt]; [done|exfalso].
    assert (Hgt2 : 200 * c + 1 <= 2 * t * p - t) by lia.
    pose proof (Z.mul_le_mono_nonneg_l _ _ (A * B) ltac:(lia) Hgt2) as G. lia.
  - destruct (Z.le_gt_cases (200 * c) (2 * t * p + t)) as [|Hgt]; [done|exfalso].
    assert (Hgt2 : 2 * t * p + t + 1 <= 200 * c) by lia.
    pose proof (Z.mul_le_mono_nonneg_l _ _ (A * B) ltac:(lia) Hgt2) as G. lia.
Qed.

(** What the mantissa and the exponent of [Double.ofRatio] are: the ratio
    lies in the binade of the exponent. *)
Lemma floorLog2_upper_bound n d :
  0 < n -> 0 < d ->
  n * 2 ^ Z.max 0 (- (Double.floorLog2 n d + 1))
  < d * 2 ^ Z.max 0 (Double.floorLog2 n d + 1).
Proof.
  intros Hn Hd. unfold Double.floorLog2, Double.scaled.
  set (k := Z.log2 n - Z.log2 d).
  pose proof (Z.log2_spec n Hn) as [Hn1 Hn2].
  pose proof (Z.log2_spec d Hd) as [Hd1 Hd2].
  pose proof (Z.log2_nonneg n) as Ha. pose proof (Z.log2_nonneg d) as Hb.
  destruct (Z.leb_spec (d * 2 ^ Z.max 0 k) (n * 2 ^ Z.max 0 (- k))) as [Hle|Hgt].
  - destruct (Z.le_gt_cases 0 (k + 1)) as [Hk|Hk].
    + rewrite (Z.max_r 0 (k + 1)) by lia. rewrite (Z.max_l 0 (- (k + 1))) by lia.
      rewrite Z.pow_0_r, Z.mul_1_r.
      assert (H2 : 2 ^ Z.log2 d * 2 ^ (k + 1) = 2 ^ Z.succ (Z.log2 n)).
      { rewrite <- Z.pow_add_r by lia. f_equal. unfold k. lia. }
      assert (0 < 2 ^ (k + 1)) by (apply Z.pow_pos_nonneg; lia).
      nia.
    + rewrite (Z.max_l 0 (k + 1)) by lia. rewrite (Z.max_r 0 (- (k + 1))) by lia.
      rewrite Z.pow_0_r, Z.mul_1_r.
      assert (H2 : 2 ^ Z.succ (Z.log2 n) * 2 ^ (- (k + 1)) = 2 ^ Z.log2 d).
      { rewrite <- Z.pow_add_r by lia. f_equal. unfold k. lia. }
      assert (0 < 2 ^ (- (k + 1))) by (apply Z.pow_pos_nonneg; lia).
      nia.
  - replace (k - 1 + 1) with k by lia. exact Hgt.
Qed.

End DoubleArithmetic.

(** The model agrees with the binary64 numbers of the kernel on every
    pair [1 <= completed <= total <= 100]; the tie at 23 steps of 40,
    where the exact percentage is 57.5, comes out as 57 in both. *)
Lemma getProgress_as_binary64 :
  forallb (fun total =>
             forallb (fun completed =>
                        Z.eqb (getProgress completed total)
                              (getProgressBinary64 completed total))
                     (seq 1 total))
          (seq 1 100) = true
  /\ getProgress 23 40 = 57%Z.
Proof. split; vm_compute; reflexivity. Qed.

Lemma getProgress_zero total : getProgress 0 total = 0%Z.
Proof. by destruct total. Qed.

Lemma getProgress_bounds completed total :
  1 <= completed <= total -> (Z.of_nat total < 2 ^ 33)%Z ->
  (0 <= getProgress completed total <= 100)%Z.
Proof.
  intros Hc Ht. pose proof (getProgress_nearest completed total Hc Ht) as Hp.
  cbv zeta in Hp. split; nia.
Qed.

Lemma getProgress_full total :
  0 < total -> (Z.of_nat total < 2 ^ 33)%Z -> getProgress total total = 100%Z.
Proof.
  intros Hpos Ht. pose proof (getProgress_nearest total total ltac:(lia) Ht) as Hp.
  cbv zeta in Hp. nia.
Qed.

Lemma getProgress_mono total completed completed' :
  completed <= completed' <= total -> (Z.of_nat total < 2 ^ 33)%Z ->
  (getProgress completed total <= getProgress completed' total)%Z.
Proof.
  intros Hc Ht.
  destruct (decide (completed = completed')) as [->|Hne]; [done|].
  destruct completed as [|c].
  - rewrite getProgress_zero. apply getProgress_bounds; [lia|done].
  - pose proof (getProgress_nearest (S c) total ltac:(lia) Ht) as Hp.
    pose proof (getProgress_nearest completed' total ltac:(lia) Ht) as Hq.
    cbv zeta in Hp, Hq. nia.
Qed.

(** C3, as stated, fails on the run over no rows and no groups: it makes
    no step, publishes only the reset value and leaves the progress at 0. *)
Lemma empty_run_stays_at_zero :
  outcome (validateData idle Samples.freshRefs [] [] [])
  = Return {| errors := []; processedData := [] |}
  /\ published (validateData idle Samples.freshRefs [] [] []) = [0%Z]
  /\ validationProgress (refs (validateData idle Samples.freshRefs [] [] [])) = 0%Z
  /\ last (published (validateData idle Samples.freshRefs [] [] [])) <> Some 100%Z.
Proof. repeat split; try (vm_compute; reflexivity). vm_compute. discriminate. Qed.

(** C3, amended.  For a run that returns, over N rows and M groups with
    pairwise distinct constraint keys, none of them "__proto__", and
    0 < N + M (below 2 ^ 33, as the lengths of arrays are), the values
    assigned to the progress cell are the reset value 0 followed by one
    value per step: N + M increments, the value after k steps being
    Math.round((k / (N + M)) * 100) as the source computes it in double
    precision, an integer within one half of the exact percentage; the
    sequence starts at 0, ends at 100 and never decreases. *)
Theorem progress_sequence :
  forall (observer : Observer) (before : Refs) (data : list Row)
         (schema : ExcelValidationSchema) (unique : ExcelUniqueConstraint)
         (r : ValidationResult),
    outcome (validateData observer before data schema unique) = Return r ->
    NoDup (map uniqueKey unique) ->
    "__proto__" ∉ map uniqueKey unique ->
    0 < length data + length unique ->
    (Z.of_nat (length data + length unique) < 2 ^ 33)%Z ->
    let totalSteps := length data + length unique in
    let seen := published (validateData observer before data schema unique) in
    seen = 0%Z :: map (fun completedSteps => getProgress completedSteps totalSteps)
                      (seq 1 totalSteps)
    /\ length seen = S totalSteps
    /\ head seen = Some 0%Z
    /\ last seen = Some 100%Z
    /\ (forall (k : nat) (p : Z),
          1 <= k -> seen !! k = Some p ->
          (2 * Z.of_nat totalSteps * p - Z.of_nat totalSteps <= 200 * Z.of_nat k
           <= 2 * Z.of_nat totalSteps * p + Z.of_nat totalSteps)%Z)
    /\ forall (i : nat) (a b : Z),
         seen !! i = Some a -> seen !! S i = Some b -> (a <= b)%Z.
Proof.
  intros observer before data schema unique r Hrun Hnd Hproto Hpos Hbound totalSteps seen.
  apply validateData_returns in Hrun as (_ & _ & Hpub).
  rewrite trackRows_length, initUniqueValues_length in Hpub by done.
  assert (Hseen : seen = 0%Z :: map (fun completedSteps =>
                                       getProgress completedSteps totalSteps)
                                    (seq 1 totalSteps)).
  { unfold seen. rewrite Hpub. reflexivity. }
  assert (Hat : forall k p, 1 <= k -> seen !! k = Some p ->
                            k <= totalSteps /\ p = getProgress k totalSteps).
  { intros k p Hk Hp. rewrite Hseen in Hp. destruct k as [|k]; [lia|].
    assert (Hp2 : map (fun completedSteps => getProgress completedSteps totalSteps)
                      (seq 1 totalSteps) !! k = Some p) by exact Hp.
    rewrite list_lookup_fmap in Hp2.
    destruct (seq 1 totalSteps !! k) as [x|] eqn:Ex; [|discriminate].
    apply lookup_seq in Ex as [-> Hlt]. injection Hp2 as <-. split; [lia|done]. }
  split; [exact Hseen|].
  split; [by rewrite Hseen; cbn [length]; rewrite length_map, length_seq|].
  split; [by rewrite Hseen|].
  split.
  - rewrite Hseen. destruct totalSteps as [|n] eqn:Et; [lia|].
    rewrite seq_S, map_app. cbn [map].
    change (0%Z :: ?l ++ [?x]) with ((0%Z :: l) ++ [x]). rewrite last_snoc.
    replace (1 + n) with (S n) by lia. by rewrite getProgress_full by lia.
  - split.
    + intros k p Hk Hp. destruct (Hat k p Hk Hp) as [Hle ->].
      apply getProgress_nearest; [lia|done].
    + intros i a b Ha Hb.
      destruct (Hat (S i) b ltac:(lia) Hb) as [Hle ->].
      destruct i as [|i].
      * rewrite Hseen in Ha. injection Ha as <-. apply getProgress_bounds; [lia|done].
      * destruct (Hat (S i) a ltac:(lia) Ha) as [_ ->].
        apply getProgress_mono; [lia|done].
Qed.

Lemma progress_sequence_witness :
  let r := {| errors := [requiredError 2 "name"];
              processedData := [ {[ "name" := VString EmptyString ]} ] |} in
  outcome (validateData idle Samples.freshRefs [Samples.blankName] Samples.nameSchema
             [["name"]]) = Return r
  /\ NoDup (map uniqueKey [["name"]])
  /\ ("__proto__" ∉ map uniqueKey [["name"]])
  /\ 0 < length [Samples.blankName] + length [["name"]]
  /\ (Z.of_nat (length [Samples.blankName] + length [["name"]]) < 2 ^ 33)%Z
  /\ last (published (validateData idle Samples.freshRefs [Samples.blankName]
                        Samples.nameSchema [["name"]])) = Some 100%Z.
Proof.
  intros r.
  assert (Hrun : outcome (validateData idle Samples.freshRefs [Samples.blankName]
                            Samples.nameSchema [["name"]]) = Return r)
    by (vm_compute; reflexivity).
  assert (Hnd : NoDup (map uniqueKey [["name"]])) by apply NoDup_singleton.
  assert (Hproto : "__proto__" ∉ map uniqueKey [["name"]]).
  { intros H. apply list_elem_of_singleton in H. discriminate H. }
  assert (Hpos : 0 < length [Samples.blankName] + length [["name"]]) by (simpl; lia).
  assert (Hbound : (Z.of_nat (length [Samples.blankName] + length [["name"]]) < 2 ^ 33)%Z)
    by (vm_compute; reflexivity).
  split; [exact Hrun|]. split; [exact Hnd|]. split; [exact Hproto|].
  split; [exact Hpos|]. split; [exact Hbound|].
  exact (proj1 (proj2 (proj2 (proj2
           (progress_sequence idle Samples.freshRefs [Samples.blankName]
              Samples.nameSchema [["name"]] r Hrun Hnd Hproto Hpos Hbound))))).
Defined.

(** ** Cancellation *)

Section FlagInvariant.

Variable observer : Observer.
Variable schema : ExcelValidationSchema.
Variable unique : ExcelUniqueConstraint.
Variable totalSteps : nat.

Lemma updateProgress_flag st :
  flagTracked observer totalSteps st -> flagTracked observer totalSteps (updateProgress observer totalSteps st).
Proof. unfold flagTracked. intros H. simpl. by rewrite H. Qed.

Lemma rowLoop_throws :
  forall data rowIndex st k,
    flagTracked observer totalSteps st ->
    k < length data ->
    (forall j, j < k -> flagAt observer totalSteps (st_completedSteps st + j) = false) ->
    flagAt observer totalSteps (st_completedSteps st + k) = true ->
    exists st',
      rowLoop observer schema unique totalSteps rowIndex data st
      = Thrown (ValidationCancellationError
                  (st_errors st ++ dataErrors schema rowIndex (take k data))) st'.
Proof.
  induction data as [|rowData rest IH]; intros rowIndex st k Hinv Hk Hbefore Hat;
    simpl in Hk; [lia|].
  destruct k as [|k]; simpl.
  - rewrite Nat.add_0_r in Hat. rewrite Hinv, Hat, app_nil_r. by eexists.
  - assert (H0 := Hbefore 0 ltac:(lia)). rewrite Nat.add_0_r in H0.
    rewrite Hinv, H0.
    set (st1 := updateProgress observer totalSteps
                  (processRow schema unique rowIndex rowData st)).
    assert (Hc1 : st_completedSteps st1 = S (st_completedSteps st)).
    { unfold st1. rewrite processRow_spec. reflexivity. }
    destruct (IH (S rowIndex) st1 k) as [st' Hst'].
    + unfold st1. apply updateProgress_flag. by rewrite processRow_spec.
    + lia.
    + intros j Hj. rewrite Hc1.
      replace (S (st_completedSteps st) + j) with (st_completedSteps st + S j) by lia.
      apply Hbefore. lia.
    + rewrite Hc1.
      by replace (S (st_completedSteps st) + k) with (st_completedSteps st + S k) by lia.
    + exists st'. rewrite Hst'. do 2 f_equal.
      unfold st1. rewrite processRow_spec. simpl. by rewrite <- app_assoc.
Qed.

Lemma rowLoop_finishes :
  forall data rowIndex st,
    flagTracked observer totalSteps st ->
    (forall j, j < length data ->
               flagAt observer totalSteps (st_completedSteps st + j) = false) ->
    exists st',
      rowLoop observer schema unique totalSteps rowIndex data st = Finished st'
      /\ flagTracked observer totalSteps st'.
Proof.
  induction data as [|rowData rest IH]; intros rowIndex st Hinv Hbefore; simpl.
  - by exists st.
  - assert (H0 := Hbefore 0 ltac:(simpl; lia)). rewrite Nat.add_0_r in H0.
    rewrite Hinv, H0.
    set (st1 := updateProgress observer totalSteps
                  (processRow schema unique rowIndex rowData st)).
    assert (Hc1 : st_completedSteps st1 = S (st_completedSteps st)).
    { unfold st1. rewrite processRow_spec. reflexivity. }
    apply IH.
    + unfold st1. apply updateProgress_flag. by rewrite processRow_spec.
    + intros j Hj. rewrite Hc1.
      replace (S (st_completedSteps st) + j) with (st_completedSteps st + S j) by lia.
      apply Hbefore. simpl. lia.
Qed.

Lemma groupLoop_throws :
  forall entries st k,
    flagTracked observer totalSteps st ->
    k < length entries ->
    (forall j, j < k -> flagAt observer totalSteps (st_completedSteps st + j) = false) ->
    flagAt observer totalSteps (st_completedSteps st + k) = true ->
    exists st',
      groupLoop observer totalSteps entries st
      = Thrown (ValidationCancellationError
                  (st_errors st ++ resolutionErrors (take k entries))) st'.
Proof.
  induction entries as [|[key valueMap] rest IH]; intros st k Hinv Hk Hbefore Hat;
    simpl in Hk; [lia|].
  destruct k as [|k]; simpl.
  - rewrite Nat.add_0_r in Hat. rewrite Hinv, Hat.
    unfold resolutionErrors. simpl. rewrite app_nil_r. by eexists.
  - assert (H0 := Hbefore 0 ltac:(lia)). rewrite Nat.add_0_r in H0.
    rewrite Hinv, H0.
    set (st1 := updateProgress observer totalSteps (resolveGroup key valueMap st)).
    assert (Hc1 : st_completedSteps st1 = S (st_completedSteps st)) by reflexivity.
    destruct (IH st1 k) as [st' Hst'].
    + unfold st1. by apply updateProgress_flag.
    + lia.
    + intros j Hj. rewrite Hc1.
      replace (S (st_completedSteps st) + j) with (st_completedSteps st + S j) by lia.
      apply Hbefore. lia.
    + rewrite Hc1.
      by replace (S (st_completedSteps st) + k) with (st_completedSteps st + S k) by lia.
    + exists st'. rewrite Hst'. do 2 f_equal.
      unfold resolutionErrors. simpl. by rewrite <- app_assoc.
Qed.

End FlagInvariant.

(** A run raises at its first check that reads the flag set, with the
    errors of the steps completed before it. *)
Lemma validateData_cancelled observer before data schema unique k :
  k < length data + length (initUniqueValues unique) ->
  (forall j, j < k -> flagAt observer (length data + length unique) j = false) ->
  flagAt observer (length data + length unique) k = true ->
  outcome (validateData observer before data schema unique)
  = Throw (ValidationCancellationError (errorsAfter schema unique data k)).
Proof.
  intros Hk Hbefore Hat. unfold validateData, errorsAfter.
  set (totalSteps := length data + length unique) in *.
  destruct (decide (k < length data)) as [Hrows|Hrows].
  - destruct (rowLoop_throws observer schema unique totalSteps data 0
                (initialState unique) k) as [st' Hst']; try done.
    rewrite Hst'. simpl.
    replace (k - length data) with 0 by lia. by rewrite take_0, app_nil_r.
  - destruct (rowLoop_finishes observer schema unique totalSteps data 0
                (initialState unique)) as (st & Hst & Hinv); [done| |].
    { intros j Hj. change (st_completedSteps (initialState unique) + j) with j.
      apply Hbefore. lia. }
    rewrite Hst.
    apply rowLoop_finished in Hst as (He & _ & Hu & Hc & _). simpl in He, Hu, Hc.
    rewrite Hu.
    destruct (groupLoop_throws observer totalSteps
                (JsObject.entries (trackRows unique 0 data (initUniqueValues unique)))
                st (k - length data)) as [st' Hst']; try done.
    + unfold JsObject.entries. rewrite trackRows_length. lia.
    + intros j Hj. rewrite Hc. apply Hbefore. lia.
    + rewrite Hc. by replace (length data + (k - length data)) with k by lia.
    + rewrite Hst'. simpl. rewrite He. by rewrite (take_ge data k) by lia.
Qed.

(** C4, as stated, fails on its first instance: with the flag set before
    any row is processed, that is when [validateData] is called, the run
    does not raise; it clears the flag, processes the row and returns. *)
Lemma flag_set_before_the_run_is_cleared :
  isValidationCancelled Samples.cancelledRefs = true
  /\ outcome (validateData idle Samples.cancelledRefs [Samples.blankName]
                Samples.nameSchema [])
     = Return {| errors := [requiredError 2 "name"];
                 processedData := [ {[ "name" := VString EmptyString ]} ] |}
  /\ isValidationCancelled
       (refs (validateData idle Samples.cancelledRefs [Samples.blankName]
                Samples.nameSchema [])) = false.
Proof. repeat split; vm_compute; reflexivity. Qed.

(** C4, amended.  A loop iteration that starts with the flag set raises the
    cancellation signal with the errors accumulated so far, in the row loop
    and in the resolution loop; so a run raises at its first check that
    reads the flag set, carrying the errors of the steps completed before
    it.  The flag is cleared at entry and the first check follows with no
    suspension in between: the first check never reads it set, and the
    cells as they were before the call do not matter.  A flag set during
    the suspension after the first row is read by the second check, which
    raises the signal with exactly the errors of the first row. *)
Theorem cancellation_carries_accumulated_errors :
  forall (observer : Observer) (before : Refs) (data : list Row)
         (schema : ExcelValidationSchema) (unique : ExcelUniqueConstraint),
    let totalSteps := length data + length unique in
    let checks := length data + length (initUniqueValues unique) in
    (forall (rowIndex : nat) (rowData : Row) (rest : list Row) (st : EngineState),
        isValidationCancelled (st_refs st) = true ->
        rowLoop observer schema unique totalSteps rowIndex (rowData :: rest) st
        = Thrown (ValidationCancellationError (st_errors st)) st)
    /\ (forall (entry : string * JsMap.t (list nat))
               (rest : list (string * JsMap.t (list nat))) (st : EngineState),
          isValidationCancelled (st_refs st) = true ->
          groupLoop observer totalSteps (entry :: rest) st
          = Thrown (ValidationCancellationError (st_errors st)) st)
    /\ (forall k : nat,
          k < checks ->
          (forall j, j < k -> flagAt observer totalSteps j = false) ->
          flagAt observer totalSteps k = true ->
          outcome (validateData observer before data schema unique)
          = Throw (ValidationCancellationError (errorsAfter schema unique data k)))
    /\ flagAt observer totalSteps 0 = false
    /\ (forall before2 : Refs,
          validateData observer before2 data schema unique
          = validateData observer before data schema unique)
    /\ (forall (rowData : Row) (rest : list Row),
          data = rowData :: rest ->
          1 < checks ->
          isValidationCancelled
            (observer 1 {| validationProgress := getProgress 1 totalSteps;
                           isValidationCancelled := false |}) = true ->
          outcome (validateData observer before data schema unique)
          = Throw (ValidationCancellationError (rowErrors 2 rowData schema))).
Proof.
  intros observer before data schema unique totalSteps checks.
  split; [|split; [|split; [|split; [|split]]]].
  - intros rowIndex rowData rest st Hflag. simpl. by rewrite Hflag.
  - intros [key valueMap] rest st Hflag. simpl. by rewrite Hflag.
  - intros k Hk Hbefore Hat. by apply validateData_cancelled.
  - reflexivity.
  - reflexivity.
  - intros rowData rest -> Hchecks Hflag.
    rewrite (validateData_cancelled observer before (rowData :: rest) schema unique 1).
    + unfold errorsAfter. simpl. unfold resolutionErrors. simpl.
      by rewrite !app_nil_r.
    + exact Hchecks.
    + intros j Hj. by replace j with 0 by lia.
    + exact Hflag.
Qed.

Lemma cancellation_carries_accumulated_errors_witness :
  outcome (validateData (cancelAfter 1) Samples.freshRefs
             [Samples.emailRow "bad"; Samples.emailRow "worse"] Samples.emailSchema [])
  = Throw (ValidationCancellationError
             (rowErrors 2 (Samples.emailRow "bad") Samples.emailSchema)).
Proof.
  refine (proj2 (proj2 (proj2 (proj2 (proj2
            (cancellation_carries_accumulated_errors (cancelAfter 1) Samples.freshRefs
               [Samples.emailRow "bad"; Samples.emailRow "worse"]
               Samples.emailSchema [])))))
            (Samples.emailRow "bad") [Samples.emailRow "worse"] eq_refl _ eq_refl).
  simpl. lia.
Defined.

(** ** The file-level entry point *)







(** ** Patterns and their languages *)

Lemma append_nil_l (s : string) : (EmptyString +:+ s) = s.
Proof. reflexivity. Qed.

Lemma append_cons (c : ascii) (s1 s2 : string) :
  (String c s1 +:+ s2) = String c (s1 +:+ s2).
Proof. reflexivity. Qed.

Ltac unfold_append := rewrite ?append_cons, ?append_nil_l in *.

Lemma append_empty (s1 s2 : string) :
  (s1 +:+ s2) = EmptyString -> s1 = EmptyString /\ s2 = EmptyString.
Proof. destruct s1; unfold_append; [done|discriminate]. Qed.

Lemma append_nil_r (s : string) : (s +:+ EmptyString) = s.
Proof. induction s as [|c s IH]; unfold_append; [done|by f_equal]. Qed.

Lemma append_assoc (s1 s2 s3 : string) : ((s1 +:+ s2) +:+ s3) = (s1 +:+ (s2 +:+ s3)).
Proof. induction s1 as [|c s1 IH]; unfold_append; [done|by f_equal]. Qed.

Lemma nullable_Matches r : RegExp.nullable r = true <-> Matches r EmptyString.
Proof.
  split.
  - induction r as [| |p|r1 IH1 r2 IH2|r1 IH1 r2 IH2|r IH]; simpl; intros H;
      try discriminate.
    + constructor.
    + apply andb_true_iff in H as [H1 H2].
      apply (MSeq r1 r2 EmptyString EmptyString); auto.
    + apply orb_true_iff in H as [H|H]; [apply MAltL|apply MAltR]; auto.
    + constructor.
  - intros H. remember EmptyString as s eqn:Es.
    induction H as [|p c Hp|r1 r2 s1 s2 H1 IH1 H2 IH2|r1 r2 s H IH|r1 r2 s H IH
                    |r|r s1 s2 H1 IH1 H2 IH2]; simpl; try done.
    + apply append_empty in Es as [-> ->].
      by rewrite IH1, IH2.
    + by rewrite IH.
    + rewrite IH by done. apply orb_true_r.
Qed.

Lemma deriv_Matches c r : forall s, Matches (RegExp.deriv c r) s <-> Matches r (String c s).
Proof.
  intros s. split.
  - revert s.
    induction r as [| |p|r1 IH1 r2 IH2|r1 IH1 r2 IH2|r IH]; simpl; intros s H.
    + inversion H.
    + inversion H.
    + destruct (p c) eqn:Hp; inversion H; subst. by constructor.
    + destruct (RegExp.nullable r1) eqn:Hn.
      * inversion H as [| | |? ? ? HL|? ? ? HR| |]; subst.
        -- inversion HL as [| |? ? s1 s2 Ha Hb| | | |]; subst.
           apply (MSeq r1 r2 (String c s1) s2); auto.
        -- apply (MSeq r1 r2 EmptyString (String c s)); [|auto].
           by apply nullable_Matches.
      * inversion H as [| |? ? s1 s2 Ha Hb| | | |]; subst.
        apply (MSeq r1 r2 (String c s1) s2); auto.
    + inversion H; subst; [apply MAltL|apply MAltR]; auto.
    + inversion H as [| |? ? s1 s2 Ha Hb| | | |]; subst.
      apply (MStarApp r (String c s1) s2); auto.
  - intros H. remember (String c s) as s0 eqn:Es. revert s Es.
    induction H as [|p c0 Hp|r1 r2 s1 s2 H1 IH1 H2 IH2|r1 r2 s0 H IH|r1 r2 s0 H IH
                    |r|r s1 s2 H1 IH1 H2 IH2]; intros s Es; simpl.
    + discriminate.
    + injection Es as -> <-. rewrite Hp. constructor.
    + destruct s1 as [|c1 s1]; unfold_append.
      * subst s2. apply nullable_Matches in H1. rewrite H1. apply MAltR. by apply IH2.
      * injection Es as -> <-.
        assert (Hseq : Matches (RegExp.Seq (RegExp.deriv c r1) r2) (s1 +:+ s2)).
        { constructor; [by apply IH1|done]. }
        destruct (RegExp.nullable r1); [by apply MAltL|done].
    + apply MAltL. by apply IH.
    + apply MAltR. by apply IH.
    + discriminate.
    + destruct s1 as [|c1 s1]; unfold_append.
      * by apply IH2.
      * injection Es as -> <-. constructor; [by apply IH1|done].
Qed.

(** [RegExp.test] decides the language of the pattern. *)
Lemma test_Matches : forall s r, RegExp.test r s = true <-> Matches r s.
Proof.
  induction s as [|c s IH]; intros r; simpl.
  - apply nullable_Matches.
  - rewrite IH. apply deriv_Matches.
Qed.

Lemma allChars_app p s1 s2 :
  allChars p (s1 +:+ s2) = allChars p s1 && allChars p s2.
Proof.
  induction s1 as [|c s1 IH]; unfold_append; simpl; [done|]. by rewrite IH, andb_assoc.
Qed.

Lemma length_append (s1 s2 : string) :
  String.length (s1 +:+ s2) = String.length s1 + String.length s2.
Proof. induction s1 as [|c s1 IH]; unfold_append; simpl; [done|by rewrite IH]. Qed.

Lemma Matches_Class p s :
  Matches (RegExp.Class p) s <-> exists c, s = String c EmptyString /\ p c = true.
Proof.
  split.
  - intros H. inversion H; subst. eauto.
  - intros (c & -> & Hp). by constructor.
Qed.

Lemma Matches_Star_Class p s :
  Matches (RegExp.Star (RegExp.Class p)) s <-> allChars p s = true.
Proof.
  split.
  - intros H. remember (RegExp.Star (RegExp.Class p)) as r eqn:Er.
    induction H as [| | | | | |r s1 s2 H1 IH1 H2 IH2]; try discriminate; [done|].
    injection Er as ->. apply Matches_Class in H1 as (c & -> & Hp).
    unfold_append. simpl. rewrite Hp. by apply IH2.
  - induction s as [|c s IH]; simpl; intros H; [constructor|].
    apply andb_true_iff in H as [Hp Hs].
    apply (MStarApp _ (String c EmptyString) s); [by constructor|auto].
Qed.

Lemma Matches_Plus_Class p s :
  Matches (RegExp.Plus (RegExp.Class p)) s
  <-> s <> EmptyString /\ allChars p s = true.
Proof.
  unfold RegExp.Plus. split.
  - intros H. inversion H as [| |? ? s1 s2 H1 H2| | | |]; subst.
    apply Matches_Class in H1 as (c & -> & Hp). apply Matches_Star_Class in H2.
    unfold_append. simpl. by rewrite Hp, H2.
  - intros [Hne H]. destruct s as [|c s]; [done|]. simpl in H.
    apply andb_true_iff in H as [Hp Hs].
    apply (MSeq _ _ (String c EmptyString) s); [by constructor|].
    by apply Matches_Star_Class.
Qed.

Lemma Matches_Exactly_Class p n : forall s,
  Matches (RegExp.Exactly n (RegExp.Class p)) s
  <-> String.length s = n /\ allChars p s = true.
Proof.
  induction n as [|n IH]; intros s; simpl.
  - split.
    + intros H. by inversion H.
    + intros [Hl _]. destruct s; [constructor|discriminate].
  - split.
    + intros H. inversion H as [| |? ? s1 s2 H1 H2| | | |]; subst.
      apply Matches_Class in H1 as (c & -> & Hp). apply IH in H2 as [<- Hs].
      unfold_append. simpl. by rewrite Hp, Hs.
    + intros [Hl H]. destruct s as [|c s]; [discriminate|]. simpl in *.
      apply andb_true_iff in H as [Hp Hs].
      apply (MSeq _ _ (String c EmptyString) s); [by constructor|].
      apply IH. split; [lia|done].
Qed.

Lemma Matches_AtMost_Class p n : forall s,
  Matches (RegExp.AtMost n (RegExp.Class p)) s
  <-> String.length s <= n /\ allChars p s = true.
Proof.
  induction n as [|n IH]; intros s; simpl.
  - split.
    + intros H. inversion H. simpl. split; [lia|done].
    + intros [Hl _]. destruct s; [constructor|simpl in Hl; lia].
  - unfold RegExp.Opt. split.
    + intros H. inversion H as [| | |? ? ? HL|? ? ? HR| |]; subst.
      * inversion HL as [| |? ? s1 s2 H1 H2| | | |]; subst.
        apply Matches_Class in H1 as (c & -> & Hp). apply IH in H2 as [Hl Hs].
        unfold_append. simpl. rewrite Hp, Hs. split; [lia|done].
      * inversion HR. simpl. split; [lia|done].
    + intros [Hl H]. destruct s as [|c s]; [apply MAltR; constructor|].
      simpl in *. apply andb_true_iff in H as [Hp Hs]. apply MAltL.
      apply (MSeq _ _ (String c EmptyString) s); [by constructor|].
      apply IH. split; [lia|done].
Qed.

Lemma string_split (n : nat) : forall s : string,
  n <= String.length s ->
  exists s1 s2, s = (s1 +:+ s2) /\ String.length s1 = n.
Proof.
  induction n as [|n IH]; intros s Hn.
  - by exists EmptyString, s.
  - destruct s as [|c s]; simpl in Hn; [lia|].
    destruct (IH s) as (s1 & s2 & -> & Hl); [lia|].
    exists (String c s1), s2. unfold_append. simpl. by rewrite Hl.
Qed.

Lemma Matches_Between_Class p lo hi s :
  lo <= hi ->
  Matches (RegExp.Between lo hi (RegExp.Class p)) s
  <-> (lo <= String.length s <= hi) /\ allChars p s = true.
Proof.
  intros Hlh. unfold RegExp.Between. split.
  - intros H. inversion H as [| |? ? s1 s2 H1 H2| | | |]; subst.
    apply Matches_Exactly_Class in H1 as [Hl1 Hp1].
    apply Matches_AtMost_Class in H2 as [Hl2 Hp2].
    rewrite length_append, allChars_app, Hp1, Hp2. split; [lia|done].
  - intros [Hl Hp].
    destruct (string_split lo s) as (s1 & s2 & -> & Hl1); [lia|].
    rewrite length_append in Hl. rewrite allChars_app in Hp.
    apply andb_true_iff in Hp as [Hp1 Hp2].
    constructor.
    + by apply Matches_Exactly_Class.
    + apply Matches_AtMost_Class. split; [lia|done].
Qed.

Lemma Matches_Lit l s : Matches (RegExp.Lit l) s <-> s = l.
Proof.
  revert s. induction l as [|c l IH]; intros s; simpl.
  - split; [intros H; by inversion H|intros ->; constructor].
  - split.
    + intros H. inversion H as [| |? ? s1 s2 H1 H2| | | |]; subst.
      apply Matches_Class in H1 as (c' & -> & Hc). apply Ascii.eqb_eq in Hc.
      apply IH in H2. by subst.
    + intros ->. apply (MSeq _ _ (String c EmptyString) l).
      * constructor. apply Ascii.eqb_refl.
      * by apply IH.
Qed.

(** ** What the built-in validators accept *)

(** X1.  [isEmployeeNumber] accepts exactly the values whose string form
    is made of 7 to 9 decimal digits. *)
Theorem isEmployeeNumber_iff :
  forall value : JsValue,
    isEmployeeNumber value = true
    <-> (7 <= String.length (String_ value) <= 9)
        /\ allChars JsString.isDigit (String_ value) = true.
Proof.
  intros value. unfold isEmployeeNumber, employeePattern.
  rewrite test_Matches. apply Matches_Between_Class. lia.
Qed.

Lemma removeWhiteSpace_clean s :
  allChars (fun c => negb (JsString.isWhiteSpace c)) (JsString.removeWhiteSpace s) = true.
Proof.
  induction s as [|c s IH]; simpl; [done|].
  destruct (JsString.isWhiteSpace c) eqn:E; simpl; [done|]. by rewrite E, IH.
Qed.

Lemma allChars_conflict p s :
  allChars p s = true -> allChars (fun c => negb (p c)) s = true -> s = EmptyString.
Proof.
  destruct s as [|c s]; simpl; [done|].
  destruct (p c); simpl; [discriminate|done].
Qed.

(** X2.  [isMobileNumber] looks at the string form of the value with all
    white space removed, and accepts exactly ten decimal digits, optionally
    preceded by "+91" or by "0". *)
Theorem isMobileNumber_iff :
  forall value : JsValue,
    isMobileNumber value = true
    <-> exists prefix digits : string,
          JsString.removeWhiteSpace (String_ value) = (prefix +:+ digits)
          /\ (prefix = EmptyString \/ prefix = "+91" \/ prefix = "0")
          /\ String.length digits = 10
          /\ allChars JsString.isDigit digits = true.
Proof.
  intros value. unfold isMobileNumber, mobilePattern. rewrite test_Matches.
  pose proof (removeWhiteSpace_clean (String_ value)) as Hclean.
  set (t := JsString.removeWhiteSpace (String_ value)) in *.
  split.
  - intros H.
    inversion H as [| |? ? prefix rest Hp Hr| | | |]; subst.
    inversion Hr as [| |? ? w digits Hw Hd| | | |]; subst.
    apply Matches_Star_Class in Hw.
    apply (Matches_Exactly_Class _ 10) in Hd as [Hl Hd].
    assert (w = EmptyString) as ->.
    { apply (allChars_conflict JsString.isWhiteSpace); [done|].
      match goal with E : (_ +:+ _) = t |- _ => rewrite <- E in Hclean end.
      rewrite !allChars_app in Hclean.
      apply andb_true_iff in Hclean as [_ Hclean].
      by apply andb_true_iff in Hclean as [Hclean _]. }
    exists prefix, digits. unfold_append. split; [done|].
    split; [|done]. unfold RegExp.Opt in Hp.
    inversion Hp as [| | |? ? ? HL|? ? ? HR| |]; subst.
    + inversion HL as [| | |? ? ? H91|? ? ? H0| |]; subst.
      * apply (Matches_Lit "+91") in H91. auto.
      * apply (Matches_Lit "0") in H0. auto.
    + inversion HR. auto.
  - intros (prefix & digits & Ht & Hprefix & Hl & Hd). rewrite Ht.
    constructor.
    + unfold RegExp.Opt.
      destruct Hprefix as [ -> | [ -> | -> ] ].
      * apply MAltR. constructor.
      * apply MAltL, MAltL. by apply Matches_Lit.
      * apply MAltL, MAltR. by apply Matches_Lit.
    + apply (MSeq _ _ EmptyString digits); [constructor|].
      by apply Matches_Exactly_Class.
Qed.

(** X3.  [isEmail] accepts exactly the strings of the form
    local "@" domain "." tld where the three parts are non-empty and contain
    neither white space nor "@" (the domain and the tld may contain dots). *)
Theorem isEmail_iff :
  forall s : string,
    isEmail s = true
    <-> exists localPart domain tld : string,
          s = (localPart +:+ "@" +:+ domain +:+ "." +:+ tld)
          /\ localPart <> EmptyString /\ domain <> EmptyString /\ tld <> EmptyString
          /\ allChars notSpaceOrAt localPart = true
          /\ allChars notSpaceOrAt domain = true
          /\ allChars notSpaceOrAt tld = true.
Proof.
  intros s. unfold isEmail, emailPattern. rewrite test_Matches. split.
  - intros H.
    inversion H as [| |? ? localPart r1 Hl H1| | | |]; subst.
    inversion H1 as [| |? ? at_ r2 Hat H2| | | |]; subst.
    inversion H2 as [| |? ? domain r3 Hd H3| | | |]; subst.
    inversion H3 as [| |? ? dot tld Hdot Ht| | | |]; subst.
    apply Matches_Plus_Class in Hl as [Hl1 Hl2].
    apply Matches_Plus_Class in Hd as [Hd1 Hd2].
    apply Matches_Plus_Class in Ht as [Ht1 Ht2].
    apply Matches_Class in Hat as (c1 & -> & Hc1). apply Ascii.eqb_eq in Hc1. subst c1.
    apply Matches_Class in Hdot as (c2 & -> & Hc2). apply Ascii.eqb_eq in Hc2. subst c2.
    exists localPart, domain, tld. done.
  - intros (localPart & domain & tld & -> & Hl1 & Hd1 & Ht1 & Hl2 & Hd2 & Ht2).
    constructor; [by apply Matches_Plus_Class|].
    constructor; [constructor; apply Ascii.eqb_refl|].
    constructor; [by apply Matches_Plus_Class|].
    constructor; [constructor; apply Ascii.eqb_refl|].
    by apply Matches_Plus_Class.
Qed.

(** ** Every run, step by step *)

Lemma flagAt_refsAt observer totalSteps k :
  flagAt observer totalSteps k = isValidationCancelled (refsAt observer totalSteps k).
Proof. induction k as [|k IH]; simpl; [done|by rewrite IH]. Qed.

Section Steps.

Variable observer : Observer.
Variable schema : ExcelValidationSchema.
Variable unique : ExcelUniqueConstraint.
Variable totalSteps : nat.

Lemma updateProgress_refs st :
  st_refs st = refsAt observer totalSteps (st_completedSteps st) ->
  st_refs (updateProgress observer totalSteps st)
  = refsAt observer totalSteps (S (st_completedSteps st)).
Proof. intros H. simpl. by rewrite H. Qed.

(** The row loop stops at the first check that reads the flag set, or runs
    through all the rows. *)
Lemma rowLoop_steps : forall data rowIndex st,
  st_refs st = refsAt observer totalSteps (st_completedSteps st) ->
  exists k st',
    advancedByRows schema unique totalSteps rowIndex data k st st'
    /\ st_refs st' = refsAt observer totalSteps (st_completedSteps st')
    /\ (forall j, j < k -> flagAt observer totalSteps (st_completedSteps st + j) = false)
    /\ ((k = length data
         /\ rowLoop observer schema unique totalSteps rowIndex data st = Finished st')
        \/ (k < length data
            /\ flagAt observer totalSteps (st_completedSteps st + k) = true
            /\ rowLoop observer schema unique totalSteps rowIndex data st
               = Thrown (ValidationCancellationError (st_errors st')) st')).
Proof.
  induction data as [|rowData rest IH]; intros rowIndex st Hrefs.
  - exists 0, st. unfold advancedByRows, progressValues. simpl.
    rewrite !app_nil_r, Nat.add_0_r. repeat split; try done; [lia|by left].
  - simpl. destruct (isValidationCancelled (st_refs st)) eqn:Hflag.
    + exists 0, st. unfold advancedByRows, progressValues. simpl.
      rewrite !app_nil_r, Nat.add_0_r. repeat split; try done; [lia|].
      right. split; [lia|]. split; [|done]. by rewrite flagAt_refsAt, <- Hrefs.
    + set (st1 := updateProgress observer totalSteps
                    (processRow schema unique rowIndex rowData st)).
      assert (Hc1 : st_completedSteps st1 = S (st_completedSteps st)).
      { unfold st1. rewrite processRow_spec. reflexivity. }
      destruct (IH (S rowIndex) st1) as (k & st' & Hadv & Hrefs' & Hbefore & Hend).
      { unfold st1. rewrite updateProgress_refs; rewrite processRow_spec; done. }
      exists (S k), st'. split; [|split; [done|split]].
      * destruct Hadv as (He & Hp & Hu & Hc & Hl).
        unfold advancedByRows. rewrite He, Hp, Hu, Hc, Hl, Hc1.
        unfold st1. rewrite processRow_spec. simpl. unfold progressValues. simpl.
        rewrite <- !app_assoc. simpl. repeat split; lia.
      * intros [|j] Hj.
        -- by rewrite Nat.add_0_r, flagAt_refsAt, <- Hrefs.
        -- replace (st_completedSteps st + S j) with (st_completedSteps st1 + j) by lia.
           apply Hbefore. lia.
      * rewrite Hc1 in Hend.
        replace (st_completedSteps st + S k) with (S (st_completedSteps st) + k) by lia.
        destruct Hend as [[-> Hrun]|(Hk & Hat & Hrun)]; [left|right]; repeat split;
          try done. lia.
Qed.

Lemma groupLoop_steps : forall entries st,
  st_refs st = refsAt observer totalSteps (st_completedSteps st) ->
  exists k st',
    advancedByGroups totalSteps entries k st st'
    /\ st_refs st' = refsAt observer totalSteps (st_completedSteps st')
    /\ (forall j, j < k -> flagAt observer totalSteps (st_completedSteps st + j) = false)
    /\ ((k = length entries
         /\ groupLoop observer totalSteps entries st = Finished st')
        \/ (k < length entries
            /\ flagAt observer totalSteps (st_completedSteps st + k) = true
            /\ groupLoop observer totalSteps entries st
               = Thrown (ValidationCancellationError (st_errors st')) st')).
Proof.
  induction entries as [|[key valueMap] rest IH]; intros st Hrefs.
  - exists 0, st. unfold advancedByGroups, progressValues, resolutionErrors. simpl.
    rewrite !app_nil_r, Nat.add_0_r. repeat split; try done; [lia|by left].
  - simpl. destruct (isValidationCancelled (st_refs st)) eqn:Hflag.
    + exists 0, st. unfold advancedByGroups, progressValues, resolutionErrors. simpl.
      rewrite !app_nil_r, Nat.add_0_r. repeat split; try done; [lia|].
      right. split; [lia|]. split; [|done]. by rewrite flagAt_refsAt, <- Hrefs.
    + set (st1 := updateProgress observer totalSteps (resolveGroup key valueMap st)).
      assert (Hc1 : st_completedSteps st1 = S (st_completedSteps st)) by reflexivity.
      destruct (IH st1) as (k & st' & Hadv & Hrefs' & Hbefore & Hend).
      { unfold st1. by rewrite updateProgress_refs. }
      exists (S k), st'. split; [|split; [done|split]].
      * destruct Hadv as (He & Hp & Hc & Hl).
        unfold advancedByGroups. rewrite He, Hp, Hc, Hl, Hc1.
        unfold st1. simpl. unfold progressValues, resolutionErrors. simpl.
        rewrite <- !app_assoc. simpl. repeat split; lia.
      * intros [|j] Hj.
        -- by rewrite Nat.add_0_r, flagAt_refsAt, <- Hrefs.
        -- replace (st_completedSteps st + S j) with (st_completedSteps st1 + j) by lia.
           apply Hbefore. lia.
      * rewrite Hc1 in Hend.
        replace (st_completedSteps st + S k) with (S (st_completedSteps st) + k) by lia.
        destruct Hend as [[-> Hrun]|(Hk & Hat & Hrun)]; [left|right]; repeat split;
          try done. lia.
Qed.

End Steps.

Lemma initUniqueValues_length_le unique :
  length (initUniqueValues unique) <= length unique.
Proof.
  destruct (initUniqueValues_keys unique) as [Hnd Hkeys].
  rewrite <- (length_map fst (initUniqueValues unique)), <- (length_map uniqueKey unique).
  apply submseteq_length, NoDup_submseteq; [done|].
  intros k Hk. by apply Hkeys.
Qed.

Lemma checkCount_le data unique : checkCount data unique <= length data + length unique.
Proof. unfold checkCount. pose proof (initUniqueValues_length_le unique). lia. Qed.

(** Every run: it completes some number [k] of steps, publishing one
    progress value for each; no check before check [k] reads the flag set;
    it returns when [k] is the number of checks, and otherwise check [k]
    reads the flag set and raises the signal with the errors so far. *)
Lemma validateData_run observer before data schema unique :
  exists k,
    k <= checkCount data unique
    /\ published (validateData observer before data schema unique)
       = 0%Z :: progressValues (length data + length unique) 1 k
    /\ refs (validateData observer before data schema unique)
       = refsAt observer (length data + length unique) k
    /\ (forall j, j < k -> flagAt observer (length data + length unique) j = false)
    /\ ((k = checkCount data unique
         /\ outcome (validateData observer before data schema unique)
            = Return {| errors := errorsAfter schema unique data k;
                        processedData := map (cleanRow schema) data |})
        \/ (k < checkCount data unique
            /\ flagAt observer (length data + length unique) k = true
            /\ outcome (validateData observer before data schema unique)
               = Throw (ValidationCancellationError (errorsAfter schema unique data k)))).
Proof.
  unfold validateData, checkCount, errorsAfter.
  set (totalSteps := length data + length unique).
  destruct (rowLoop_steps observer schema unique totalSteps data 0 (initialState unique))
    as (k1 & st1 & (He1 & Hp1 & Hu1 & Hc1 & Hl1) & Hrefs1 & Hbefore1 & Hend1); [done|].
  simpl in He1, Hp1, Hu1, Hc1, Hl1, Hbefore1, Hend1.
  destruct Hend1 as [[-> Hrun1]|(Hk1 & Hat1 & Hrun1)].
  - rewrite Hrun1. rewrite firstn_all in He1, Hp1, Hu1.
    destruct (groupLoop_steps observer totalSteps
                (JsObject.entries (st_uniqueValues st1)) st1)
      as (k2 & st2 & (He2 & Hp2 & Hc2 & Hl2) & Hrefs2 & Hbefore2 & Hend2); [done|].
    rewrite Hc1 in Hc2, Hl2, Hbefore2, Hend2. rewrite Hu1 in He2, Hend2 |- *.
    assert (Hlen : length (JsObject.entries
                             (trackRows unique 0 data (initUniqueValues unique)))
                   = length (initUniqueValues unique)).
    { unfold JsObject.entries. apply trackRows_length. }
    rewrite Hlen in Hend2.
    exists (length data + k2).
    replace (length data + k2 - length data) with k2 by lia.
    rewrite (take_ge data) by lia.
    assert (Hpub : st_published st2
                   = 0%Z :: progressValues totalSteps 1 (length data + k2)).
    { rewrite Hl2, Hl1. unfold progressValues. simpl. f_equal.
      by rewrite seq_app, map_app. }
    assert (Hflags : forall j, j < length data + k2 -> flagAt observer totalSteps j = false).
    { intros j Hj. destruct (decide (j < length data)) as [Hlt|Hge].
      - by apply Hbefore1.
      - replace j with (length data + (j - length data)) by lia. apply Hbefore2. lia. }
    destruct Hend2 as [[-> Hrun2]|(Hk2 & Hat2 & Hrun2)]; rewrite Hrun2; simpl.
    + split; [lia|]. split; [done|]. split; [by rewrite Hrefs2, Hc2|].
      split; [done|]. left. split; [done|].
      by rewrite He2, Hp2, He1, Hp1.
    + split; [lia|]. split; [done|]. split; [by rewrite Hrefs2, Hc2|].
      split; [done|]. right. split; [lia|]. split; [done|].
      by rewrite He2, He1.
  - rewrite Hrun1. simpl. exists k1.
    replace (k1 - length data) with 0 by lia. rewrite take_0.
    unfold resolutionErrors at 1 2. simpl. rewrite !app_nil_r.
    split; [lia|]. split; [by rewrite Hl1|]. split; [by rewrite Hrefs1, Hc1|].
    split; [done|]. right. split; [lia|]. split; [done|]. by rewrite He1.
Qed.

(** ** Progress of every run *)

(** X4.  In every run, cancelled or not, over at most 2 ^ 33 - 1 rows and
    groups, the engine never completes more than
    [data.length + unique.length] steps, and the values it assigns to
    [validationProgress], computed in double precision, stay between 0 and
    100 and never decrease. *)
Theorem progress_within_bounds :
  forall (observer : Observer) (before : Refs) (data : list Row)
         (schema : ExcelValidationSchema) (unique : ExcelUniqueConstraint),
    (Z.of_nat (length data + length unique) < 2 ^ 33)%Z ->
    let seen := published (validateData observer before data schema unique) in
    length seen <= S (length data + length unique)
    /\ (forall p, p ∈ seen -> (0 <= p <= 100)%Z)
    /\ (forall (i : nat) (a b : Z),
          seen !! i = Some a -> seen !! S i = Some b -> (a <= b)%Z).
Proof.
  intros observer before data schema unique Hbound seen.
  destruct (validateData_run observer before data schema unique)
    as (k & Hk & Hpub & _). fold seen in Hpub.
  pose proof (checkCount_le data unique) as Hcc.
  set (totalSteps := length data + length unique) in *.
  rewrite Hpub. unfold progressValues. split; [|split].
  - simpl. rewrite length_map, length_seq. lia.
  - intros p Hp. apply elem_of_cons in Hp as [->|Hp]; [lia|].
    apply list_elem_of_fmap in Hp as (c & -> & Hc).
    apply elem_of_seq in Hc. apply getProgress_bounds; [lia|done].
  - intros i a b Ha Hb.
    destruct i as [|i]; simpl in Ha, Hb.
    + injection Ha as <-. rewrite list_lookup_fmap in Hb.
      destruct (seq 1 k !! 0) as [c|] eqn:Ec; [|discriminate].
      apply lookup_seq in Ec as [-> Hlt]. injection Hb as <-.
      apply getProgress_bounds; [lia|done].
    + rewrite list_lookup_fmap in Ha, Hb.
      destruct (seq 1 k !! i) as [x|] eqn:Ex; [|discriminate].
      destruct (seq 1 k !! S i) as [y|] eqn:Ey; [|discriminate].
      apply lookup_seq in Ex as [-> _]. apply lookup_seq in Ey as [-> Hlt].
      injection Ha as <-. injection Hb as <-.
      apply getProgress_mono; [lia|done].
Qed.

Lemma progress_within_bounds_witness :
  let seen := published (validateData (cancelAfter 2) Samples.freshRefs
                           [ Samples.emailRow "bad"; Samples.emailRow "worse";
                             Samples.emailRow "x@y.com" ]
                           Samples.emailSchema [["email"]]) in
  seen = [ 0%Z; 25%Z; 50%Z ]
  /\ length seen <= S (3 + 1)
  /\ (forall p, p ∈ seen -> (0 <= p <= 100)%Z)
  /\ (forall (i : nat) (a b : Z),
        seen !! i = Some a -> seen !! S i = Some b -> (a <= b)%Z).
Proof.
  intros seen. split; [vm_compute; reflexivity|].
  apply (progress_within_bounds (cancelAfter 2) Samples.freshRefs
           [ Samples.emailRow "bad"; Samples.emailRow "worse"; Samples.emailRow "x@y.com" ]
           Samples.emailSchema [["email"]]).
  vm_compute. reflexivity.
Defined.

(** ** Cancelled and completed runs *)

Lemma resolutionErrors_app l1 l2 :
  resolutionErrors (l1 ++ l2) = resolutionErrors l1 ++ resolutionErrors l2.
Proof. unfold resolutionErrors. apply flat_map_app. Qed.

Lemma errorsAfter_prefix schema unique data k k' :
  k <= k' ->
  exists rest, errorsAfter schema unique data k' = errorsAfter schema unique data k ++ rest.
Proof.
  intros Hk. unfold errorsAfter.
  set (entries := JsObject.entries (trackRows unique 0 data (initUniqueValues unique))).
  destruct (decide (k <= length data)) as [Hle|Hgt].
  - replace (k - length data) with 0 by lia. rewrite take_0.
    unfold resolutionErrors at 2. simpl. rewrite app_nil_r.
    assert (Hsplit : take k' data = take k data ++ drop k (take k' data)).
    { rewrite <- (take_drop k (take k' data)) at 1.
      by rewrite take_take, Nat.min_l by lia. }
    rewrite Hsplit, dataErrors_app, <- app_assoc. eauto.
  - rewrite !(take_ge data) by lia.
    assert (Hsplit : take (k' - length data) entries
                     = take (k - length data) entries
                       ++ drop (k - length data) (take (k' - length data) entries)).
    { rewrite <- (take_drop (k - length data) (take (k' - length data) entries)) at 1.
      by rewrite take_take, Nat.min_l by lia. }
    rewrite Hsplit, resolutionErrors_app, app_assoc. eauto.
Qed.

(** X5.  The errors a cancelled run carries are an initial segment of the
    errors a completed run over the same input returns: cancellation loses
    the errors of the steps not yet made, and nothing else. *)
Theorem cancelled_errors_are_a_prefix :
  forall (observer observer2 : Observer) (before before2 : Refs) (data : list Row)
         (schema : ExcelValidationSchema) (unique : ExcelUniqueConstraint)
         (errs : list ExcelCellValidationError) (r : ValidationResult),
    outcome (validateData observer before data schema unique)
    = Throw (ValidationCancellationError errs) ->
    outcome (validateData observer2 before2 data schema unique) = Return r ->
    exists rest, errors r = errs ++ rest.
Proof.
  intros observer observer2 before before2 data schema unique errs r Hthrow Hret.
  destruct (validateData_run observer before data schema unique)
    as (k & Hk & _ & _ & _ & [[_ Hout]|(_ & _ & Hout)]); rewrite Hout in Hthrow;
    [discriminate|]. injection Hthrow as <-.
  destruct (validateData_run observer2 before2 data schema unique)
    as (k2 & Hk2 & _ & _ & _ & [[-> Hout2]|(_ & _ & Hout2)]); rewrite Hout2 in Hret;
    [|discriminate]. injection Hret as <-. simpl.
  by apply errorsAfter_prefix.
Qed.

Lemma flagAt_idle totalSteps k : flagAt idle totalSteps k = false.
Proof. induction k as [|k IH]; simpl; [done|exact IH]. Qed.


(** X7.  What a run returns does not depend on the observer nor on the
    cells before the call: two runs over the same input that both return,
    return the same errors and the same processed rows. *)
Theorem result_independent_of_observer :
  forall (observer observer2 : Observer) (before before2 : Refs) (data : list Row)
         (schema : ExcelValidationSchema) (unique : ExcelUniqueConstraint)
         (r r2 : ValidationResult),
    outcome (validateData observer before data schema unique) = Return r ->
    outcome (validateData observer2 before2 data schema unique) = Return r2 ->
    r = r2.
Proof.
  intros observer observer2 before before2 data schema unique r r2 H1 H2.
  apply validateData_returns in H1 as (He1 & Hp1 & _).
  apply validateData_returns in H2 as (He2 & Hp2 & _).
  destruct r, r2. simpl in *. congruence.
Qed.

Lemma result_independent_of_observer_witness :
  let r := {| errors := [ emailError 3 "email" ];
              processedData := [ Samples.emailRow "x@y.com"; Samples.emailRow "bad" ] |} in
  outcome (validateData idle Samples.freshRefs
             [ Samples.emailRow "x@y.com"; Samples.emailRow "bad" ]
             Samples.emailSchema []) = Return r
  /\ outcome (validateData (cancelAfter 2) Samples.cancelledRefs
                [ Samples.emailRow "x@y.com"; Samples.emailRow "bad" ]
                Samples.emailSchema []) = Return r.
Proof.
  intros r.
  assert (H1 : outcome (validateData idle Samples.freshRefs
                          [ Samples.emailRow "x@y.com"; Samples.emailRow "bad" ]
                          Samples.emailSchema []) = Return r)
    by (vm_compute; reflexivity).
  assert (H2 : exists r2, outcome (validateData (cancelAfter 2) Samples.cancelledRefs
                          [ Samples.emailRow "x@y.com"; Samples.emailRow "bad" ]
                          Samples.emailSchema []) = Return r2)
    by (eexists; vm_compute; reflexivity).
  split; [exact H1|]. destruct H2 as [r2 H2].
  rewrite (result_independent_of_observer _ _ _ _ _ _ _ _ _ H1 H2). exact H2.
Defined.

Lemma cancelled_errors_are_a_prefix_witness :
  outcome (validateData (cancelAfter 1) Samples.freshRefs
             [ Samples.emailRow "bad"; Samples.emailRow "worse" ] Samples.emailSchema [])
  = Throw (ValidationCancellationError [ emailError 2 "email" ])
  /\ outcome (validateData idle Samples.freshRefs
                [ Samples.emailRow "bad"; Samples.emailRow "worse" ] Samples.emailSchema [])
     = Return {| errors := [ emailError 2 "email"; emailError 3 "email" ];
                 processedData := [ Samples.emailRow "bad"; Samples.emailRow "worse" ] |}
  /\ exists rest, [ emailError 2 "email"; emailError 3 "email" ]
                  = [ emailError 2 "email" ] ++ rest.
Proof.
  assert (H1 : outcome (validateData (cancelAfter 1) Samples.freshRefs
             [ Samples.emailRow "bad"; Samples.emailRow "worse" ] Samples.emailSchema [])
            = Throw (ValidationCancellationError [ emailError 2 "email" ]))
    by (vm_compute; reflexivity).
  assert (H2 : outcome (validateData idle Samples.freshRefs
                [ Samples.emailRow "bad"; Samples.emailRow "worse" ] Samples.emailSchema [])
     = Return {| errors := [ emailError 2 "email"; emailError 3 "email" ];
                 processedData := [ Samples.emailRow "bad"; Samples.emailRow "worse" ] |})
    by (vm_compute; reflexivity).
  split; [exact H1|]. split; [exact H2|].
  exact (cancelled_errors_are_a_prefix _ _ _ _ _ _ _ _ _ H1 H2).
Defined.

(** ** Cancelling during a given suspension *)

Lemma flagAt_cancelAfter totalSteps k0 j :
  flagAt (cancelAfter k0) totalSteps j = Nat.leb 1 k0 && Nat.leb k0 j.
Proof.
  induction j as [|j IH].
  - destruct k0 as [|k0]; reflexivity.
  - cbn [flagAt]. unfold cancelAfter at 1.
    destruct (Nat.eqb_spec (S j) k0) as [<-|Hne]; cbn [isValidationCancelled cancelValidation].
    + symmetry. by rewrite Nat.leb_refl.
    + rewrite IH.
      destruct (Nat.leb_spec 1 k0), (Nat.leb_spec k0 j), (Nat.leb_spec k0 (S j));
        try reflexivity; lia.
Qed.

Lemma refsAt_cancelAfter totalSteps k0 :
  1 <= k0 ->
  refsAt (cancelAfter k0) totalSteps k0
  = {| validationProgress := 0; isValidationCancelled := true |}.
Proof.
  intros Hk0. destruct k0 as [|k0]; [lia|]. simpl.
  unfold cancelAfter. by rewrite Nat.eqb_refl.
Qed.

(** X8.  A call of cancelValidation during the suspension that ends step
    [k0], when a check still follows: the run has published exactly the
    progress of its first [k0] steps, the next check raises the signal with
    the errors of those steps, and the cells are left as cancelValidation
    set them, the progress back at 0. *)
Theorem cancel_between_steps :
  forall (before : Refs) (data : list Row) (schema : ExcelValidationSchema)
         (unique : ExcelUniqueConstraint) (k0 : nat),
    1 <= k0 -> k0 < checkCount data unique ->
    let run := validateData (cancelAfter k0) before data schema unique in
    outcome run = Throw (ValidationCancellationError (errorsAfter schema unique data k0))
    /\ published run = 0%Z :: progressValues (length data + length unique) 1 k0
    /\ refs run = {| validationProgress := 0; isValidationCancelled := true |}.
Proof.
  intros before data schema unique k0 H1 Hlt run. subst run.
  destruct (validateData_run (cancelAfter k0) before data schema unique)
    as (k & Hk & Hpub & Hrefs & Hbefore & Hcase).
  assert (Hat0 : flagAt (cancelAfter k0) (length data + length unique) k0 = true).
  { rewrite flagAt_cancelAfter.
    destruct (Nat.leb_spec 1 k0); [|lia]. by rewrite Nat.leb_refl. }
  assert (Hkk : k = k0).
  { destruct (Nat.lt_trichotomy k k0) as [Hlt2|[Heq|Hgt]]; [|done|].
    - destruct Hcase as [[-> _]|(_ & Hat & _)]; [lia|].
      rewrite flagAt_cancelAfter in Hat.
      destruct (Nat.leb_spec k0 k); [lia|]. by rewrite andb_false_r in Hat.
    - rewrite (Hbefore k0 Hgt) in Hat0. discriminate. }
  subst k. destruct Hcase as [[-> _]|(_ & _ & Hout)]; [lia|].
  rewrite Hout, Hpub, Hrefs, refsAt_cancelAfter by done. done.
Qed.

Lemma cancel_between_steps_witness :
  let run := validateData (cancelAfter 1) Samples.freshRefs
               [ Samples.emailRow "bad"; Samples.emailRow "worse" ]
               Samples.emailSchema [] in
  outcome run
  = Throw (ValidationCancellationError
             (errorsAfter Samples.emailSchema []
                [ Samples.emailRow "bad"; Samples.emailRow "worse" ] 1))
  /\ published run = 0%Z :: progressValues (2 + 0) 1 1
  /\ refs run = {| validationProgress := 0; isValidationCancelled := true |}.
Proof.
  apply (cancel_between_steps Samples.freshRefs
           [ Samples.emailRow "bad"; Samples.emailRow "worse" ]
           Samples.emailSchema [] 1).
  - lia.
  - vm_compute. lia.
Defined.

(** X9.  A call of cancelValidation during the suspension that ends the
    last step is never observed: no check follows, so the run returns its
    complete result, yet the cells are left with the progress at 0 and the
    flag set until the next run resets them. *)
Theorem cancel_after_last_step_is_lost :
  forall (before : Refs) (data : list Row) (schema : ExcelValidationSchema)
         (unique : ExcelUniqueConstraint),
    1 <= checkCount data unique ->
    let run := validateData (cancelAfter (checkCount data unique)) before data schema unique in
    outcome run
    = outcome (validateData idle before data schema unique)
    /\ (exists r, outcome run = Return r)
    /\ published run
       = 0%Z :: progressValues (length data + length unique) 1 (checkCount data unique)
    /\ refs run = {| validationProgress := 0; isValidationCancelled := true |}.
Proof.
  intros before data schema unique H1 run. subst run.
  destruct (validateData_run (cancelAfter (checkCount data unique)) before data schema unique)
    as (k & Hk & Hpub & Hrefs & Hbefore & [[-> Hout]|(Hlt & Hat & _)]).
  - destruct (validateData_run idle before data schema unique)
      as (k2 & _ & _ & _ & _ & [[-> Hout2]|(_ & Hat2 & _)]).
    + rewrite Hout, Hout2, Hpub, Hrefs, refsAt_cancelAfter by done. eauto.
    + rewrite flagAt_idle in Hat2. discriminate.
  - rewrite flagAt_cancelAfter in Hat.
    destruct (Nat.leb_spec (checkCount data unique) k); [lia|].
    by rewrite andb_false_r in Hat.
Qed.

Lemma cancel_after_last_step_is_lost_witness :
  let data := [ Samples.emailRow "bad"; Samples.emailRow "worse" ] in
  let run := validateData (cancelAfter (checkCount data [])) Samples.freshRefs data
               Samples.emailSchema [] in
  outcome run = outcome (validateData idle Samples.freshRefs data Samples.emailSchema [])
  /\ (exists r, outcome run = Return r)
  /\ published run = 0%Z :: progressValues (length data + 0) 1 (checkCount data [])
  /\ refs run = {| validationProgress := 0; isValidationCancelled := true |}.
Proof.
  intros data.
  apply (cancel_after_last_step_is_lost Samples.freshRefs data Samples.emailSchema []).
  vm_compute. lia.
Defined.

(** ** Where the errors point *)

Lemma JsMap_get_elem {V} (m : JsMap.t V) k v :
  JsMap.get m k = Some v -> (k, v) ∈ m.
Proof.
  induction m as [|[k2 v2] m IH]; simpl; [done|].
  destruct (String.eqb_spec k2 k) as [->|Hne].
  - intros [= ->]. left.
  - intros Hget. right. by apply IH.
Qed.

Lemma JsMap_set_elem {V} (m : JsMap.t V) k v k2 v2 :
  (k2, v2) ∈ JsMap.set m k v -> (k2, v2) = (k, v) \/ (k2, v2) ∈ m.
Proof.
  induction m as [|[k3 v3] m IH]; simpl.
  - rewrite list_elem_of_singleton. by left.
  - destruct (String.eqb k3 k); rewrite !elem_of_cons; [tauto|].
    intros [H|H]; [tauto|]. destruct (IH H); tauto.
Qed.

Lemma JsObject_get_elem {V} (o : JsObject.t V) k v :
  JsObject.get o k = Some v -> (k, v) ∈ o.
Proof. apply JsMap_get_elem. Qed.

Lemma JsObject_replace_elem {V} (o : JsObject.t V) k v k2 v2 :
  (k2, v2) ∈ JsObject.replace o k v -> (k2, v2) = (k, v) \/ (k2, v2) ∈ o.
Proof.
  induction o as [|[k3 v3] o IH]; simpl; [by right|].
  destruct (String.eqb k3 k); rewrite !elem_of_cons; [tauto|].
  intros [H|H]; [tauto|]. destruct (IH H); tauto.
Qed.

Lemma JsObject_create_elem {V} (o : JsObject.t V) k v k2 v2 :
  (k2, v2) ∈ JsObject.create o k v -> (k2, v2) = (k, v) \/ (k2, v2) ∈ o.
Proof.
  induction o as [|[k3 v3] o IH]; simpl.
  - rewrite list_elem_of_singleton. by left.
  - destruct (JsObject.before k k3); rewrite !elem_of_cons; [tauto|].
    intros [H|H]; [tauto|]. destruct (IH H); tauto.
Qed.

Lemma JsObject_set_elem {V} (o : JsObject.t V) k v k2 v2 :
  (k2, v2) ∈ JsObject.set o k v -> (k2, v2) = (k, v) \/ (k2, v2) ∈ o.
Proof.
  unfold JsObject.set. destruct (String.eqb k "__proto__"); [by right|].
  destruct (JsObject.get o k).
  - apply JsObject_replace_elem.
  - apply JsObject_create_elem.
Qed.

Lemma rowsWithin_mono lo hi hi2 uniqueValues :
  hi <= hi2 -> rowsWithin lo hi uniqueValues -> rowsWithin lo hi2 uniqueValues.
Proof.
  intros Hle Hin key valueMap values rows n Hk Hv Hn.
  specialize (Hin key valueMap values rows n Hk Hv Hn). lia.
Qed.

Lemma rowsWithin_init lo hi unique : rowsWithin lo hi (initUniqueValues unique).
Proof.
  unfold initUniqueValues.
  assert (Hgen : forall (acc : UniqueValues),
             rowsWithin lo hi acc ->
             rowsWithin lo hi
               (fold_left (fun uniqueValues cols =>
                             JsObject.set uniqueValues (uniqueKey cols) []) unique acc)).
  { induction unique as [|cols unique IH]; intros acc Hacc; simpl; [done|].
    apply IH. intros key valueMap values rows n Hk Hv Hn.
    apply JsObject_set_elem in Hk as [[= -> ->]|Hk].
    - by apply elem_of_nil in Hv.
    - by apply (Hacc key valueMap values rows n). }
  apply Hgen. intros key valueMap values rows n Hk. by apply elem_of_nil in Hk.
Qed.

Lemma rowsWithin_noteRow lo hi (valueMap : JsMap.t (list nat)) values rowNumber :
  lo <= rowNumber < hi ->
  (forall v rows n, (v, rows) ∈ valueMap -> n ∈ rows -> lo <= n < hi) ->
  forall v rows n, (v, rows) ∈ noteRow valueMap values rowNumber -> n ∈ rows ->
                   lo <= n < hi.
Proof.
  intros Hrow Hin v rows n Hv Hn. unfold noteRow, JsMap.has in Hv.
  destruct (JsMap.get valueMap values) as [existingRows|] eqn:Hget; simpl in Hv.
  - apply JsMap_set_elem in Hv as [[= -> ->]|Hv]; [|by apply (Hin v rows n)].
    apply elem_of_app in Hn as [Hn|Hn].
    + apply JsMap_get_elem in Hget. by apply (Hin values existingRows n).
    + apply list_elem_of_singleton in Hn. by subst n.
  - apply JsMap_set_elem in Hv as [[= -> ->]|Hv]; [|by apply (Hin v rows n)].
    apply list_elem_of_singleton in Hn. by subst n.
Qed.

Lemma rowsWithin_trackGroup lo hi rowIndex rowData uniqueValues cols :
  lo <= rowIndex + ROW_NUMBER_OFFSET < hi ->
  rowsWithin lo hi uniqueValues ->
  rowsWithin lo hi (trackGroup rowIndex rowData uniqueValues cols).
Proof.
  intros Hrow Hin. rewrite trackGroup_noteRow.
  destruct (JsObject.get uniqueValues (uniqueKey cols)) as [valueMap|] eqn:Hget; [|done].
  intros key valueMap2 values rows n Hk Hv Hn.
  apply JsObject_set_elem in Hk as [[= -> ->]|Hk].
  - apply JsObject_get_elem in Hget.
    eapply rowsWithin_noteRow; [exact Hrow| |exact Hv|exact Hn].
    intros v2 rows2 n2 Hv2 Hn2. exact (Hin _ _ _ _ _ Hget Hv2 Hn2).
  - by apply (Hin key valueMap2 values rows n).
Qed.

Lemma rowsWithin_trackRow lo hi rowIndex rowData unique : forall uniqueValues,
  lo <= rowIndex + ROW_NUMBER_OFFSET < hi ->
  rowsWithin lo hi uniqueValues ->
  rowsWithin lo hi (trackRow rowIndex rowData unique uniqueValues).
Proof.
  unfold trackRow. induction unique as [|cols unique IH]; intros uniqueValues Hrow Hin;
    simpl; [done|].
  apply IH; [done|]. by apply rowsWithin_trackGroup.
Qed.

Lemma rowsWithin_trackRows lo unique : forall data rowIndex uniqueValues,
  lo <= rowIndex + ROW_NUMBER_OFFSET ->
  rowsWithin lo (rowIndex + ROW_NUMBER_OFFSET) uniqueValues ->
  rowsWithin lo (rowIndex + ROW_NUMBER_OFFSET + length data)
             (trackRows unique rowIndex data uniqueValues).
Proof.
  induction data as [|rowData rest IH]; intros rowIndex uniqueValues Hlo Hin; simpl.
  - by rewrite Nat.add_0_r.
  - replace (rowIndex + ROW_NUMBER_OFFSET + S (length rest))
      with (S rowIndex + ROW_NUMBER_OFFSET + length rest) by lia.
    apply IH; [lia|]. apply rowsWithin_trackRow; [simpl; lia|].
    eapply rowsWithin_mono; [|exact Hin]. simpl. lia.
Qed.

Lemma resolutionErrors_row entries e :
  e ∈ resolutionErrors entries ->
  exists key valueMap values rows,
    (key, valueMap) ∈ entries /\ (values, rows) ∈ valueMap /\ row e ∈ rows
    /\ column e = key /\ errorType e = DUPLICATE.
Proof.
  unfold resolutionErrors. rewrite list_elem_of_In, in_flat_map.
  intros ([key valueMap] & Hk & He). unfold duplicateErrors in He.
  apply in_flat_map in He as ([values rows] & Hv & He).
  destruct (1 <? length rows)%nat; [|done].
  apply in_map_iff in He as (n & <- & Hn).
  exists key, valueMap, values, rows. rewrite !list_elem_of_In. done.
Qed.

Lemma dataErrors_column schema : forall data rowIndex e,
  e ∈ dataErrors schema rowIndex data -> column e ∈ schemaKeys schema.
Proof.
  induction data as [|rowData rest IH]; intros rowIndex e; simpl.
  - intros He. by apply elem_of_nil in He.
  - rewrite elem_of_app. intros [He|He].
    + by apply rowErrors_row_column in He as [_ He].
    + by apply (IH (S rowIndex)).
Qed.

Lemma errorsAfter_location schema unique data k e :
  e ∈ errorsAfter schema unique data k ->
  ROW_NUMBER_OFFSET <= row e < ROW_NUMBER_OFFSET + length data
  /\ (column e ∈ schemaKeys schema \/ column e ∈ map uniqueKey unique).
Proof.
  unfold errorsAfter. rewrite elem_of_app. intros [He|He].
  - split.
    + apply dataErrors_row in He. rewrite length_take in He. simpl in *. lia.
    + left. by apply dataErrors_column in He.
  - apply resolutionErrors_row in He
      as (key & valueMap & values & rows & Hk & Hv & Hn & Hc & Ht).
    apply subseteq_take in Hk. unfold JsObject.entries in Hk. split.
    + pose proof (rowsWithin_trackRows ROW_NUMBER_OFFSET unique data 0
                    (initUniqueValues unique)) as Hin.
      specialize (Hin ltac:(simpl; lia) (rowsWithin_init _ _ _)).
      specialize (Hin key valueMap values rows (row e) Hk Hv Hn). simpl in *. lia.
    + right. rewrite Hc.
      apply initUniqueValues_keys. rewrite <- (trackRows_keys unique data 0).
      unfold JsObject.keys. apply list_elem_of_fmap. by exists (key, valueMap).
Qed.

(** X10.  Every error a run reports, in its result or with the cancellation
    signal, points at a row of the data (row numbers 2 .. N + 1 for N rows)
    and at a column of the schema or at the key of a constraint group. *)
Theorem reported_errors_point_into_the_data :
  forall (observer : Observer) (before : Refs) (data : list Row)
         (schema : ExcelValidationSchema) (unique : ExcelUniqueConstraint)
         (e : ExcelCellValidationError),
    e ∈ reportedErrors (outcome (validateData observer before data schema unique)) ->
    2 <= row e <= length data + 1
    /\ (column e ∈ schemaKeys schema \/ column e ∈ map uniqueKey unique).
Proof.
  intros observer before data schema unique e He.
  assert (Hk : exists k, e ∈ errorsAfter schema unique data k).
  { destruct (validateData_run observer before data schema unique)
      as (k & _ & _ & _ & _ & [[_ Hout]|(_ & _ & Hout)]);
      rewrite Hout in He; simpl in He; eauto. }
  destruct Hk as [k Hk]. apply errorsAfter_location in Hk as [Hrow Hcol].
  unfold ROW_NUMBER_OFFSET in Hrow. split; [lia|done].
Qed.

Lemma reported_errors_point_into_the_data_witness :
  2 <= row (emailError 3 "email") <= 2 + 1
  /\ (column (emailError 3 "email") ∈ schemaKeys Samples.emailSchema
      \/ column (emailError 3 "email") ∈ map uniqueKey []).
Proof.
  apply (reported_errors_point_into_the_data idle Samples.freshRefs
           [ Samples.emailRow "x@y.com"; Samples.emailRow "bad" ]
           Samples.emailSchema [] (emailError 3 "email")).
  vm_compute. apply list_elem_of_singleton. reflexivity.
Defined.

(** ** Which rows are reported as duplicates *)

Lemma keyedRows_elem cols : forall data rowIndex n k,
  (n, k) ∈ keyedRows cols rowIndex data
  <-> exists i rowData, data !! i = Some rowData
        /\ n = rowIndex + i + ROW_NUMBER_OFFSET /\ k = compositeKey rowData cols.
Proof.
  induction data as [|rd rest IH]; intros rowIndex n k; simpl.
  - split; [intros H; by apply elem_of_nil in H|intros (i & r & H & _); done].
  - rewrite elem_of_cons, IH. split.
    + intros [[= -> ->]|(i & r & Hi & -> & ->)].
      * exists 0, rd. split; [done|]. split; [lia|done].
      * exists (S i), r. split; [done|]. split; [lia|done].
    + intros (i & r & Hi & -> & ->). destruct i as [|i]; simpl in Hi.
      * left. injection Hi as ->. f_equal. lia.
      * right. exists i, r. split; [done|]. split; [lia|done].
Qed.

Lemma keyedRows_NoDup cols : forall data rowIndex,
  NoDup (map fst (keyedRows cols rowIndex data)).
Proof.
  induction data as [|rd rest IH]; intros rowIndex; simpl; [constructor|].
  constructor; [|apply IH].
  intros Hin. apply list_elem_of_fmap in Hin as ([n k] & Hn & Hin). simpl in Hn.
  apply keyedRows_elem in Hin as (i & r & _ & -> & _). lia.
Qed.

Lemma rowsHolding_elem k keyed n : n ∈ rowsHolding k keyed <-> (n, k) ∈ keyed.
Proof.
  unfold rowsHolding. rewrite list_elem_of_In, in_map_iff. split.
  - intros ([n2 k2] & Hn & Hin). simpl in Hn. subst n2.
    apply filter_In in Hin as [Hin Hk]. simpl in Hk.
    apply String.eqb_eq in Hk. subst k2. by apply list_elem_of_In.
  - intros Hin. exists (n, k). split; [done|]. apply filter_In. split.
    + by apply list_elem_of_In.
    + simpl. apply String.eqb_refl.
Qed.

Lemma rowsHolding_NoDup k : forall keyed,
  NoDup (map fst keyed) -> NoDup (rowsHolding k keyed).
Proof.
  unfold rowsHolding. induction keyed as [|[n k2] keyed IH]; simpl; [constructor|].
  intros Hnd. apply NoDup_cons in Hnd as [Hn Hnd].
  destruct (String.eqb k2 k); simpl; [|by apply IH].
  constructor; [|by apply IH]. intros Hin. apply Hn.
  apply list_elem_of_In, in_map_iff in Hin as (p & Hp & Hin).
  apply filter_In in Hin as [Hin _].
  apply list_elem_of_In, in_map_iff. by exists p.
Qed.

Lemma several_iff_another (l : list nat) n :
  NoDup l -> n ∈ l -> (1 < length l <-> exists n2, n2 ∈ l /\ n2 <> n).
Proof.
  intros Hnd Hn. split.
  - destruct l as [|a [|b l]]; simpl; [lia|lia|]. intros _.
    apply NoDup_cons in Hnd as [Hab _].
    destruct (decide (a = n)) as [->|Hne].
    + exists b. split; [right; left|]. intros ->. apply Hab. left.
    + exists a. split; [left|done].
  - intros (n2 & Hn2 & Hne). destruct l as [|a [|b l]]; simpl; [| |lia].
    + by apply elem_of_nil in Hn.
    + apply list_elem_of_singleton in Hn, Hn2. congruence.
Qed.

Lemma duplicatesSpec_row cols data n :
  (exists e, e ∈ duplicatesSpec cols data /\ row e = n)
  <-> exists k n2, (n, k) ∈ keyedRows cols 0 data
                   /\ (n2, k) ∈ keyedRows cols 0 data /\ n2 <> n.
Proof.
  unfold duplicatesSpec. cbv zeta. split.
  - intros (e & He & Hrow). apply list_elem_of_In, in_flat_map in He as (k & _ & He).
    destruct (1 <? length (rowsHolding k (keyedRows cols 0 data)))%nat eqn:Hlen; [|done].
    apply Nat.ltb_lt in Hlen.
    apply in_map_iff in He as (n1 & <- & Hn1). simpl in Hrow. subst n1.
    apply list_elem_of_In in Hn1.
    apply several_iff_another with (n := n) in Hlen as (n2 & Hn2 & Hne);
      [|apply rowsHolding_NoDup, keyedRows_NoDup|done].
    exists k, n2. by rewrite <- !rowsHolding_elem.
  - intros (k & n2 & Hn & Hn2 & Hne).
    exists (duplicateError (uniqueKey cols) k (rowsHolding k (keyedRows cols 0 data)) n).
    split; [|done]. apply list_elem_of_In, in_flat_map. exists k. split.
    + apply list_elem_of_In, firstSeen_elem, list_elem_of_fmap. by exists (n, k).
    + assert (Hlen : 1 < length (rowsHolding k (keyedRows cols 0 data))).
      { apply (several_iff_another _ n).
        - apply rowsHolding_NoDup, keyedRows_NoDup.
        - by apply rowsHolding_elem.
        - exists n2. by rewrite rowsHolding_elem. }
      apply Nat.ltb_lt in Hlen. rewrite Hlen.
      apply in_map, list_elem_of_In. by apply rowsHolding_elem.
Qed.

(** X11.  With pairwise distinct constraint keys, none of them
    "__proto__" (and an input the embedding reads and prints as JavaScript
    does, [withinModel]), among the errors that follow those of the cells,
    a row is reported for a constraint group exactly when another row of
    the data has the same composite key over the group's columns. *)
Theorem duplicate_reported_iff_key_shared :
  forall (observer : Observer) (before : Refs) (data : list Row)
         (schema : ExcelValidationSchema) (unique : ExcelUniqueConstraint)
         (r : ValidationResult) (cols : list string) (i : nat) (rowData : Row),
    outcome (validateData observer before data schema unique) = Return r ->
    NoDup (map uniqueKey unique) ->
    "__proto__" ∉ map uniqueKey unique ->
    withinModel data unique ->
    cols ∈ unique ->
    data !! i = Some rowData ->
    (exists e, e ∈ drop (length (dataErrors schema 0 data)) (errors r)
               /\ column e = uniqueKey cols /\ row e = i + 2)
    <-> exists j other, j <> i /\ data !! j = Some other
                        /\ compositeKey other cols = compositeKey rowData cols.
Proof.
  intros observer before data schema unique r cols i rowData Hrun Hnd Hproto _ Hcols Hi.
  apply validateData_returns in Hrun as (Herr & _ & _). cbv zeta in Herr.
  rewrite Herr, drop_app_length.
  pose proof (resolution_of_group unique data cols Hnd
                (not_proto_of_absent unique cols Hproto Hcols) Hcols) as Hgroup.
  assert (Hfilter : (exists e, e ∈ resolutionErrors
                        (JsObject.entries (trackRows unique 0 data (initUniqueValues unique)))
                      /\ column e = uniqueKey cols /\ row e = i + 2)
                    <-> exists e, e ∈ duplicatesSpec cols data /\ row e = i + 2).
  { rewrite <- Hgroup. split.
    - intros (e & He & Hc & Hr). exists e. split; [|done].
      apply list_elem_of_In, filter_In. split; [by apply list_elem_of_In|].
      by apply String.eqb_eq.
    - intros (e & He & Hr). apply list_elem_of_In, filter_In in He as [He Hc].
      apply String.eqb_eq in Hc. exists e. by rewrite list_elem_of_In. }
  rewrite Hfilter, duplicatesSpec_row. split.
  - intros (k & n2 & Hn & Hn2 & Hne).
    apply keyedRows_elem in Hn as (i1 & r1 & Hi1 & Hn & ->).
    apply keyedRows_elem in Hn2 as (j & other & Hj & -> & Hk).
    unfold ROW_NUMBER_OFFSET in *. assert (i1 = i) by lia. subst i1.
    assert (r1 = rowData) by congruence. subst r1.
    exists j, other. split; [intros ->; lia|]. split; [done|]. by symmetry.
  - intros (j & other & Hne & Hj & Hk).
    exists (compositeKey rowData cols), (j + 2). split; [|split].
    + apply keyedRows_elem. exists i, rowData. done.
    + apply keyedRows_elem. exists j, other. done.
    + lia.
Qed.

Lemma duplicate_reported_iff_key_shared_witness :
  let r := {| errors :=
                [ duplicateError "id" "1" [2; 4] 2; duplicateError "id" "1" [2; 4] 4 ];
              processedData := [ ∅; ∅; ∅ ] |} in
  (exists e, e ∈ drop (length (dataErrors [] 0 Samples.idRows)) (errors r)
             /\ column e = uniqueKey ["id"] /\ row e = 0 + 2)
  <-> exists j other, j <> 0 /\ Samples.idRows !! j = Some other
                      /\ compositeKey other ["id"] = compositeKey (Samples.idRow "1") ["id"].
Proof.
  intros r.
  apply (duplicate_reported_iff_key_shared idle Samples.freshRefs Samples.idRows []
           [["id"]] r ["id"] 0 (Samples.idRow "1")).
  - vm_compute. reflexivity.
  - vm_compute. apply NoDup_singleton.
  - intros H. apply list_elem_of_singleton in H. discriminate H.
  - apply (bool_decide_unpack _). vm_compute. reflexivity.
  - apply list_elem_of_singleton. reflexivity.
  - reflexivity.
Defined.

(** ** Validating the processed rows again *)

Lemma trimStart_fixed c s :
  JsString.isWhiteSpace c = false -> JsString.trimStart (String c s) = String c s.
Proof. intros Hc. simpl. by rewrite Hc. Qed.

Lemma trimEnd_head c s :
  JsString.isWhiteSpace c = false ->
  JsString.trimEnd (String c s) = String c (JsString.trimEnd s).
Proof. intros Hc. simpl. rewrite Hc. by destruct (JsString.trimEnd s). Qed.

Lemma trimStart_head s :
  JsString.trimStart s = EmptyString
  \/ exists c rest, JsString.trimStart s = String c rest /\ JsString.isWhiteSpace c = false.
Proof.
  induction s as [|c s IH]; simpl; [by left|].
  destruct (JsString.isWhiteSpace c) eqn:Hc; [exact IH|]. right. eauto.
Qed.

Lemma trimEnd_idempotent s : JsString.trimEnd (JsString.trimEnd s) = JsString.trimEnd s.
Proof.
  induction s as [|c s IH]; simpl; [done|].
  destruct (JsString.trimEnd s) as [|d t] eqn:Ht.
  - destruct (JsString.isWhiteSpace c) eqn:Hc; simpl; [done|]. by rewrite Hc.
  - change (JsString.trimEnd (String c (String d t))) with
      (match JsString.trimEnd (String d t) with
       | EmptyString =>
           if JsString.isWhiteSpace c then EmptyString else String c EmptyString
       | u => String c u
       end).
    by rewrite IH.
Qed.

Lemma trim_idempotent s : JsString.trim (JsString.trim s) = JsString.trim s.
Proof.
  unfold JsString.trim.
  destruct (trimStart_head s) as [->|(c & rest & -> & Hc)]; [done|].
  rewrite (trimEnd_head c rest Hc), (trimStart_fixed c _ Hc).
  rewrite <- (trimEnd_head c rest Hc). apply trimEnd_idempotent.
Qed.

Lemma trimValue_idempotent v : trimValue (trimValue v) = trimValue v.
Proof. destruct v; simpl; try done. by rewrite trim_idempotent. Qed.

Lemma keyPart_trimValue v : keyPart (trimValue v) = keyPart v.
Proof. destruct v; simpl; try done. by rewrite trim_idempotent. Qed.

Lemma plain_not_proto (keys : list string) col :
  Forall (fun k => inheritedName k = false) keys -> col ∈ keys -> col <> "__proto__".
Proof.
  intros Hplain Hin ->. rewrite Forall_forall in Hplain.
  specialize (Hplain _ Hin). vm_compute in Hplain. discriminate.
Qed.

Lemma getProp_cleanRow schema rowData col :
  col ∈ schemaKeys schema -> col <> "__proto__" ->
  getProp (cleanRow schema rowData) col = trimValue (getProp rowData col).
Proof.
  intros Hin Hp. unfold getProp at 1. rewrite cleanRow_lookup.
  by rewrite decide_True.
Qed.

Lemma cleanRow_idempotent schema rowData :
  cleanRow schema (cleanRow schema rowData) = cleanRow schema rowData.
Proof.
  apply map_eq. intros col. rewrite !cleanRow_lookup.
  destruct (decide (col ∈ schemaKeys schema /\ col <> "__proto__")) as [[Hin Hp]|Hout];
    [|done].
  by rewrite getProp_cleanRow, trimValue_idempotent.
Qed.

Lemma flat_map_agree {A B} (f g : A -> list B) (l : list A) :
  (forall a, a ∈ l -> f a = g a) -> flat_map f l = flat_map g l.
Proof.
  induction l as [|a l IH]; intros Hfg; simpl; [done|].
  rewrite (Hfg a) by left. rewrite IH; [done|]. intros b Hb. apply Hfg. by right.
Qed.

Lemma rowErrors_cleanRow rowNumber schema rowData :
  "__proto__" ∉ schemaKeys schema ->
  rowErrors rowNumber (cleanRow schema rowData) schema = rowErrors rowNumber rowData schema.
Proof.
  intros Hproto. unfold rowErrors. apply flat_map_agree. intros [col rules] Hin.
  assert (Hcol : col ∈ schemaKeys schema).
  { apply list_elem_of_fmap. by exists (col, rules). }
  rewrite getProp_cleanRow, trimValue_idempotent; [done|done|].
  by intros ->.
Qed.

Lemma dataErrors_cleanRow schema :
  "__proto__" ∉ schemaKeys schema ->
  forall data rowIndex,
    dataErrors schema rowIndex (map (cleanRow schema) data)
    = dataErrors schema rowIndex data.
Proof.
  intros Hproto. induction data as [|rowData rest IH]; intros rowIndex; simpl; [done|].
  by rewrite rowErrors_cleanRow, IH.
Qed.

Lemma compositeKey_cleanRow schema rowData cols :
  "__proto__" ∉ schemaKeys schema ->
  (forall col, col ∈ cols -> col ∈ schemaKeys schema) ->
  compositeKey (cleanRow schema rowData) cols = compositeKey rowData cols.
Proof.
  intros Hproto Hcols. unfold compositeKey. f_equal. apply map_ext_in. intros col Hin.
  apply list_elem_of_In, Hcols in Hin.
  rewrite getProp_cleanRow, keyPart_trimValue; [done|done|].
  by intros ->.
Qed.

Lemma trackRow_cleanRow schema rowIndex rowData :
  "__proto__" ∉ schemaKeys schema ->
  forall unique uniqueValues,
    (forall cols col, cols ∈ unique -> col ∈ cols -> col ∈ schemaKeys schema) ->
    trackRow rowIndex (cleanRow schema rowData) unique uniqueValues
    = trackRow rowIndex rowData unique uniqueValues.
Proof.
  intros Hproto. unfold trackRow.
  induction unique as [|cols unique IH]; intros uniqueValues Hcols; simpl; [done|].
  rewrite !trackGroup_noteRow, compositeKey_cleanRow; [|done|].
  - apply IH. intros cols2 col Hin. apply Hcols. by right.
  - intros col. apply Hcols. left.
Qed.

Lemma trackRows_cleanRow schema unique :
  "__proto__" ∉ schemaKeys schema ->
  (forall cols col, cols ∈ unique -> col ∈ cols -> col ∈ schemaKeys schema) ->
  forall data rowIndex uniqueValues,
    trackRows unique rowIndex (map (cleanRow schema) data) uniqueValues
    = trackRows unique rowIndex data uniqueValues.
Proof.
  intros Hproto Hcols.
  induction data as [|rowData rest IH]; intros rowIndex uniqueValues; simpl; [done|].
  by rewrite trackRow_cleanRow, IH.
Qed.

(** X12.  The processed rows are a fixed point of the validation: when no
    column of the schema is a name inherited from [Object.prototype]
    ("__proto__" among them) and every column of the constraint groups is a
    column of the schema, validating the processed rows of a result again
    gives the same errors and the same processed rows. *)
Theorem validating_processed_rows_again :
  forall (observer observer2 : Observer) (before before2 : Refs) (data : list Row)
         (schema : ExcelValidationSchema) (unique : ExcelUniqueConstraint)
         (r r2 : ValidationResult),
    Forall (fun col => inheritedName col = false) (schemaKeys schema) ->
    (forall cols col, cols ∈ unique -> col ∈ cols -> col ∈ schemaKeys schema) ->
    outcome (validateData observer before data schema unique) = Return r ->
    outcome (validateData observer2 before2 (processedData r) schema unique) = Return r2 ->
    r2 = r.
Proof.
  intros observer observer2 before before2 data schema unique r r2 Hplain Hcols H1 H2.
  assert (Hproto : "__proto__" ∉ schemaKeys schema).
  { intros Hin. by apply (plain_not_proto _ _ Hplain Hin). }
  apply validateData_returns in H1 as (He1 & Hp1 & _).
  apply validateData_returns in H2 as (He2 & Hp2 & _). cbv zeta in He1, He2.
  rewrite Hp1 in He2, Hp2.
  rewrite dataErrors_cleanRow, trackRows_cleanRow in He2 by done.
  assert (Hp : processedData r2 = processedData r).
  { rewrite Hp2, Hp1, map_map. apply map_ext. intros rowData. apply cleanRow_idempotent. }
  destruct r, r2. simpl in *. congruence.
Qed.

Lemma validating_processed_rows_again_witness :
  let r := {| errors := [ emailError 2 "email"; emailError 3 "email";
                          duplicateError "email" "bad" [2; 3] 2;
                          duplicateError "email" "bad" [2; 3] 3 ];
              processedData := [ Samples.emailRow "bad"; Samples.emailRow "bad" ] |} in
  outcome (validateData idle Samples.freshRefs
             [ Samples.emailRow " bad"; Samples.emailRow "bad " ]
             Samples.emailSchema [["email"]]) = Return r
  /\ outcome (validateData idle Samples.freshRefs (processedData r)
                Samples.emailSchema [["email"]]) = Return r.
Proof.
  intros r.
  assert (H1 : outcome (validateData idle Samples.freshRefs
             [ Samples.emailRow " bad"; Samples.emailRow "bad " ]
             Samples.emailSchema [["email"]]) = Return r)
    by (vm_compute; reflexivity).
  assert (H2 : exists r2, outcome (validateData idle Samples.freshRefs (processedData r)
                Samples.emailSchema [["email"]]) = Return r2)
    by (eexists; vm_compute; reflexivity).
  split; [exact H1|]. destruct H2 as [r2 H2].
  assert (Hplain : Forall (fun col => inheritedName col = false)
                          (schemaKeys Samples.emailSchema))
    by (apply (bool_decide_unpack _); vm_compute; reflexivity).
  assert (Hcols : forall cols col, cols ∈ [["email"]] -> col ∈ cols ->
                                   col ∈ schemaKeys Samples.emailSchema).
  { intros cols col Hc Hin. apply list_elem_of_singleton in Hc. subst cols.
    apply list_elem_of_singleton in Hin. subst col. vm_compute. left. }
  pose proof (validating_processed_rows_again _ _ _ _ _ _ _ _ _ Hplain Hcols H1 H2) as Heq.
  rewrite Heq in H2. exact H2.
Defined.

(** ** The header check: diagnostics and what it depends on *)

Lemma length_pos_nil {A} (l : list A) : (0 <? length l)%nat = false <-> l = [].
Proof.
  destruct l; simpl; [done|]. split; [|done]. intros H. discriminate.
Qed.

(** X13.  The header check prints nothing exactly when the trimmed headers
    and the columns of the schema are the same set; it prints the group of
    five calls exactly when it answers false, and the single notice about
    additional columns exactly when it answers true and some trimmed header
    is not a column of the schema. *)
Theorem validateHeader_diagnostics :
  forall (excelSchema : ExcelValidationSchema) (excelHeader : list string),
    let log := snd (validateHeaderLog excelSchema excelHeader) in
    (log = [] <-> forall h, h ∈ schemaKeys excelSchema <-> h ∈ map JsString.trim excelHeader)
    /\ (length log = 5 <-> validateHeader excelSchema excelHeader = false)
    /\ (length log = 1
        <-> validateHeader excelSchema excelHeader = true
            /\ exists h, h ∈ map JsString.trim excelHeader /\ h ∉ schemaKeys excelSchema).
Proof.
  intros excelSchema excelHeader. cbv zeta.
  unfold validateHeader, validateHeaderLog. cbv zeta.
  pose proof (missingHeaders_nil (schemaKeys excelSchema) (map JsString.trim excelHeader))
    as Hmissing.
  pose proof (missingHeaders_nil (map JsString.trim excelHeader) (schemaKeys excelSchema))
    as Hextra.
  destruct (0 <? length (List.filter
                           (fun h => negb (bool_decide (h ∈ map JsString.trim excelHeader)))
                           (schemaKeys excelSchema)))%nat eqn:Hm.
  - assert (Hnot : ~ forall k, k ∈ schemaKeys excelSchema ->
                               k ∈ map JsString.trim excelHeader).
    { intros Hall. apply (proj2 Hmissing) in Hall. rewrite Hall in Hm. discriminate. }
    simpl. split; [|split].
    + split; [discriminate|]. intros Hall. destruct Hnot. intros k. apply Hall.
    + done.
    + split; [discriminate|]. intros [? _]. discriminate.
  - apply length_pos_nil in Hm. pose proof (proj1 Hmissing Hm) as Hm2.
    destruct (0 <? length (List.filter
                             (fun h => negb (bool_decide (h ∈ schemaKeys excelSchema)))
                             (map JsString.trim excelHeader)))%nat eqn:He.
    + assert (Hnot : ~ forall k, k ∈ map JsString.trim excelHeader ->
                                 k ∈ schemaKeys excelSchema).
      { intros Hall. apply (proj2 Hextra) in Hall. rewrite Hall in He. discriminate. }
      simpl. split; [|split].
      * split; [discriminate|]. intros Hall. destruct Hnot. intros k. apply Hall.
      * split; discriminate.
      * split; [|done]. intros _. split; [done|].
        destruct (decide (Forall (fun k => k ∈ schemaKeys excelSchema)
                                 (map JsString.trim excelHeader))) as [Hall|Hex].
        -- rewrite Forall_forall in Hall. by destruct Hnot.
        -- apply not_Forall_Exists in Hex; [|intros x; apply _].
           apply Exists_exists in Hex as (h & Hh & Hnh). eauto.
    + apply length_pos_nil in He. pose proof (proj1 Hextra He) as He2. simpl.
      split; [|split].
      * split; [|done]. intros _ h. split; [apply Hm2|apply He2].
      * split; discriminate.
      * split; [discriminate|]. intros (_ & h & Hh & Hnh). destruct Hnh. by apply He2.
Qed.

(** X14.  The answer of the header check depends only on which trimmed
    headers the file has: two header rows with the same trimmed headers get
    the same answer, so trimming the headers beforehand, reordering them or
    repeating one changes nothing. *)
Theorem validateHeader_depends_on_trimmed_set :
  forall (excelSchema : ExcelValidationSchema) (excelHeader excelHeader2 : list string),
    (forall h, h ∈ map JsString.trim excelHeader <-> h ∈ map JsString.trim excelHeader2) ->
    validateHeader excelSchema excelHeader = validateHeader excelSchema excelHeader2.
Proof.
  intros excelSchema excelHeader excelHeader2 Hsame.
  destruct (validateHeader excelSchema excelHeader2) eqn:H2.
  - apply validateHeader_true. intros k Hk. apply Hsame.
    revert k Hk. by apply validateHeader_true.
  - destruct (validateHeader excelSchema excelHeader) eqn:H1; [|done].
    rewrite <- H2. symmetry. apply validateHeader_true. intros k Hk. apply Hsame.
    revert k Hk. by apply validateHeader_true.
Qed.

Lemma validateHeader_depends_on_trimmed_set_witness :
  validateHeader Samples.emailSchema [ " email "; "name" ]
  = validateHeader Samples.emailSchema [ "name"; "email"; "email" ].
Proof.
  apply (validateHeader_depends_on_trimmed_set Samples.emailSchema
           [ " email "; "name" ] [ "name"; "email"; "email" ]).
  intros h. vm_compute map. rewrite !elem_of_cons, !elem_of_nil. tauto.
Defined.

(** ** When a cell, and a whole run, is free of errors *)

Lemma if_singleton_nil {A} (b : bool) (x : A) : (if b then [x] else []) = [] <-> b = false.
Proof. destruct b; split; intros H; try done; discriminate. Qed.

Lemma typeMismatch_None rules value :
  typeMismatch rules value = None
  <-> (isNullish value = false ->
       forall t, type rules = Some t -> typeof value = typeName t).
Proof.
  unfold typeMismatch. destruct (type rules) as [t|]; [|split; [intros _ _ t2 H|]; done].
  destruct (isNullish value); simpl.
  - split; [intros _ H|]; done.
  - destruct (String.eqb_spec (typeof value) (typeName t)) as [Heq|Hne]; simpl.
    + split; [|done]. intros _ _ t2 [= <-]. done.
    + split; [discriminate|]. intros H. destruct Hne. by apply H.
Qed.

Lemma formatErrors_nil rowNumber col rules value :
  formatErrors rowNumber col rules value = []
  <-> (isNullish value = false ->
       forall vs, validators rules = Some vs ->
         (useEmail vs = true -> forall s, value = VString s -> isEmail s = true)
         /\ (useMobileNumber vs = true ->
             typeof value = "string" \/ typeof value = "number" ->
             isMobileNumber value = true)
         /\ (useEmployeeNumber vs = true ->
             typeof value = "string" \/ typeof value = "number" ->
             isEmployeeNumber value = true)).
Proof.
  destruct (validators rules) as [vs|] eqn:Hvs.
  - destruct (isNullish value) eqn:Hnn.
    + unfold formatErrors. rewrite Hvs, Hnn. split; [intros _ H|]; done.
    + rewrite (formatErrors_present _ _ _ _ _ Hvs Hnn).
      rewrite !app_nil, !if_singleton_nil, !andb_false_iff.
      split.
      * intros (He & Hm & Hp) _ vs2 [= <-]. split; [|split].
        -- intros Hu s ->. destruct He as [He|He]; [congruence|].
           by apply negb_false_iff in He.
        -- intros Hu Hty. destruct Hm as [Hm|Hm]; [congruence|].
           destruct (isMobileNumber value); [done|].
           destruct value; simpl in *; try discriminate; destruct Hty; discriminate.
        -- intros Hu Hty. destruct Hp as [Hp|Hp]; [congruence|].
           destruct (isEmployeeNumber value); [done|].
           destruct value; simpl in *; try discriminate; destruct Hty; discriminate.
      * intros H. destruct (H eq_refl vs eq_refl) as (He & Hm & Hp). split; [|split].
        -- destruct (useEmail vs); [right|by left].
           destruct value; try done. by rewrite (He eq_refl s).
        -- destruct (useMobileNumber vs); [right|by left].
           destruct value; try done; rewrite Hm; auto.
        -- destruct (useEmployeeNumber vs); [right|by left].
           destruct value; try done; rewrite Hp; auto.
  - unfold formatErrors. rewrite Hvs. split; [intros _ _ vs H|]; done.
Qed.

Lemma includes_elem accepted value : includes accepted value = true <-> value ∈ accepted.
Proof.
  unfold includes. rewrite existsb_exists. split.
  - intros (x & Hin & Hx). apply bool_decide_eq_true in Hx. subst x.
    by apply list_elem_of_In.
  - intros Hin. exists value. split; [by apply list_elem_of_In|].
    by apply bool_decide_eq_true.
Qed.

Lemma acceptedValuesErrors_nil rowNumber col rules value :
  acceptedValuesErrors rowNumber col rules value = []
  <-> (isNullish value = false ->
       forall accepted, acceptedValues rules = Some accepted -> value ∈ accepted).
Proof.
  unfold acceptedValuesErrors. destruct (acceptedValues rules) as [accepted|].
  - rewrite if_singleton_nil, andb_false_iff, !negb_false_iff, includes_elem. split.
    + intros [Hn|Hin] Hnn accepted2 [= <-]; [congruence|done].
    + intros H. destruct (isNullish value); [by left|right]. by apply H.
  - split; [intros _ _ accepted H|]; done.
Qed.

Lemma customErrors_nil rowNumber col rules value :
  customErrors rowNumber col rules value = []
  <-> (isNullish value = false ->
       forall validator, customValidator rules = Some validator ->
                         validator value None = CustomTrue).
Proof.
  unfold customErrors. destruct (customValidator rules) as [validator|].
  - destruct (isNullish value); [split; [intros _ H|]; done|].
    destruct (validator value None) eqn:Hv.
    + split; [|done]. intros _ _ validator2 [= <-]. done.
    + split; [discriminate|]. intros H. specialize (H eq_refl validator eq_refl).
      congruence.
  - split; [intros _ _ validator H|]; done.
Qed.

(** X15.  A cell gets no error exactly when: it is not both required and
    missing, and, if its value is present (neither null nor undefined), the
    value has the declared type, passes each format validator that is
    switched on and applies to its kind, is among the accepted values, and
    the custom validator answers true. *)
Theorem cell_accepted_iff :
  forall (rowNumber : nat) (col : string) (rules : ExcelValidationSchemaOption)
         (value : JsValue),
    validateCell rowNumber col rules value = []
    <-> (required rules = true -> isMissing value = false)
        /\ (isNullish value = false ->
            (forall t, type rules = Some t -> typeof value = typeName t)
            /\ (forall vs, validators rules = Some vs ->
                  (useEmail vs = true -> forall s, value = VString s -> isEmail s = true)
                  /\ (useMobileNumber vs = true ->
                      typeof value = "string" \/ typeof value = "number" ->
                      isMobileNumber value = true)
                  /\ (useEmployeeNumber vs = true ->
                      typeof value = "string" \/ typeof value = "number" ->
                      isEmployeeNumber value = true))
            /\ (forall accepted, acceptedValues rules = Some accepted -> value ∈ accepted)
            /\ (forall validator, customValidator rules = Some validator ->
                                  validator value None = CustomTrue)).
Proof.
  intros rowNumber col rules value.
  pose proof (typeMismatch_None rules value) as Ht.
  pose proof (formatErrors_nil rowNumber col rules value) as Hf.
  pose proof (acceptedValuesErrors_nil rowNumber col rules value) as Ha.
  pose proof (customErrors_nil rowNumber col rules value) as Hc.
  unfold validateCell.
  destruct (required rules && isMissing value) eqn:Hreq.
  - apply andb_true_iff in Hreq as [Hr Hm]. split; [discriminate|].
    intros [H _]. specialize (H Hr). congruence.
  - apply andb_false_iff in Hreq.
    assert (Hreq2 : required rules = true -> isMissing value = false).
    { intros Hr. destruct Hreq; congruence. }
    destruct (typeMismatch rules value) as [t|] eqn:Hty.
    + split; [discriminate|]. intros [_ H].
      assert (Hnone : Some t = None); [|discriminate].
      apply Ht. intros Hnn. by apply H.
    + rewrite !app_nil, Hf, Ha, Hc. split.
      * intros (H1 & H2 & H3). split; [done|]. intros Hnn.
        split; [by apply Ht|]. split; [by apply H1|]. split; [by apply H2|by apply H3].
      * intros [_ H]. split; [|split]; intros Hnn; by apply H.
Qed.

Lemma nil_iff_no_elem {A} (l : list A) : l = [] <-> forall x, x ∉ l.
Proof.
  split.
  - intros -> x. apply not_elem_of_nil.
  - destruct l as [|a l]; [done|]. intros H. destruct (H a). left.
Qed.

Lemma rowErrors_elem_inv rowNumber rowData schema e :
  e ∈ rowErrors rowNumber rowData schema ->
  exists col rules, (col, rules) ∈ schema
    /\ e ∈ validateCell rowNumber col rules (trimValue (getProp rowData col)).
Proof.
  unfold rowErrors. rewrite list_elem_of_In, in_flat_map.
  intros ([col rules] & Hin & He). exists col, rules. by rewrite !list_elem_of_In.
Qed.

Lemma dataErrors_elem_inv schema : forall data rowIndex e,
  e ∈ dataErrors schema rowIndex data ->
  exists i rowData col rules,
    data !! i = Some rowData /\ (col, rules) ∈ schema
    /\ e ∈ validateCell (rowIndex + i + ROW_NUMBER_OFFSET) col rules
                        (trimValue (getProp rowData col)).
Proof.
  induction data as [|rowData rest IH]; intros rowIndex e; simpl.
  - intros He. by apply elem_of_nil in He.
  - rewrite elem_of_app. intros [He|He].
    + apply rowErrors_elem_inv in He as (col & rules & Hin & He).
      exists 0, rowData, col, rules. by rewrite Nat.add_0_r.
    + apply IH in He as (i & rowData2 & col & rules & Hi & Hin & He).
      exists (S i), rowData2, col, rules. split; [done|]. split; [done|].
      by replace (rowIndex + S i) with (S rowIndex + i) by lia.
Qed.

Lemma dataErrors_nil schema data :
  dataErrors schema 0 data = []
  <-> forall i rowData col rules,
        data !! i = Some rowData -> (col, rules) ∈ schema ->
        validateCell (i + 2) col rules (trimValue (getProp rowData col)) = [].
Proof.
  split.
  - intros Hnil i rowData col rules Hi Hin. apply nil_iff_no_elem. intros e He.
    apply (rowErrors_elem _ rowData schema) in He; [|done].
    apply (dataErrors_elem schema data 0 i) in He; [|done].
    rewrite Hnil in He. by apply elem_of_nil in He.
  - intros Hcells. apply nil_iff_no_elem. intros e He.
    apply dataErrors_elem_inv in He as (i & rowData & col & rules & Hi & Hin & He).
    simpl in He. unfold ROW_NUMBER_OFFSET in He.
    rewrite (Hcells i rowData col rules Hi Hin) in He. by apply elem_of_nil in He.
Qed.

Lemma resolutionErrors_nil unique data :
  NoDup (map uniqueKey unique) ->
  "__proto__" ∉ map uniqueKey unique ->
  resolutionErrors (JsObject.entries (trackRows unique 0 data (initUniqueValues unique))) = []
  <-> forall cols i j ri rj,
        cols ∈ unique -> data !! i = Some ri -> data !! j = Some rj ->
        compositeKey ri cols = compositeKey rj cols -> i = j.
Proof.
  intros Hnd Hproto. split.
  - intros Hnil cols i j ri rj Hcols Hi Hj Hkey.
    destruct (decide (i = j)) as [|Hne]; [done|exfalso].
    pose proof (resolution_of_group unique data cols Hnd
                  (not_proto_of_absent unique cols Hproto Hcols) Hcols) as Hgroup.
    rewrite Hnil in Hgroup. simpl in Hgroup.
    assert (Hex : exists e, e ∈ duplicatesSpec cols data /\ row e = i + ROW_NUMBER_OFFSET).
    { apply duplicatesSpec_row.
      exists (compositeKey ri cols), (j + ROW_NUMBER_OFFSET). split; [|split].
      - apply keyedRows_elem. exists i, ri. done.
      - apply keyedRows_elem. exists j, rj. done.
      - lia. }
    destruct Hex as (e & He & _). rewrite <- Hgroup in He. by apply elem_of_nil in He.
  - intros Hdistinct. apply nil_iff_no_elem. intros e He.
    pose proof He as Hcol. apply resolutionErrors_not_proto in Hcol as [Hcol _].
    apply list_elem_of_fmap in Hcol as (cols & Hc & Hcols).
    assert (Hdup : exists e2, e2 ∈ duplicatesSpec cols data /\ row e2 = row e).
    { exists e. split; [|done].
      rewrite <- (resolution_of_group unique data cols Hnd
                    (not_proto_of_absent unique cols Hproto Hcols) Hcols).
      apply list_elem_of_In, filter_In. split; [by apply list_elem_of_In|].
      by apply String.eqb_eq. }
    apply duplicatesSpec_row in Hdup as (k & n2 & Hn & Hn2 & Hne).
    apply keyedRows_elem in Hn as (i & ri & Hi & Hrow & ->).
    apply keyedRows_elem in Hn2 as (j & rj & Hj & -> & Hk).
    assert (i = j) by (by apply (Hdistinct cols i j ri rj)). subst j.
    rewrite Hrow in Hne. by destruct Hne.
Qed.

(** X16.  With pairwise distinct constraint keys, none of them
    "__proto__" (and an input the embedding reads and prints as JavaScript
    does, [withinModel]), a run returns an empty list of errors exactly
    when every cell of every row under a column of the schema gets no error
    and, for each constraint group, no two rows have the same composite
    key. *)
Theorem no_errors_iff_cells_valid_and_keys_distinct :
  forall (observer : Observer) (before : Refs) (data : list Row)
         (schema : ExcelValidationSchema) (unique : ExcelUniqueConstraint)
         (r : ValidationResult),
    outcome (validateData observer before data schema unique) = Return r ->
    NoDup (map uniqueKey unique) ->
    "__proto__" ∉ map uniqueKey unique ->
    withinModel data unique ->
    (errors r = []
     <-> (forall i rowData col rules,
             data !! i = Some rowData -> (col, rules) ∈ schema ->
             validateCell (i + 2) col rules (trimValue (getProp rowData col)) = [])
         /\ (forall cols i j ri rj,
                cols ∈ unique -> data !! i = Some ri -> data !! j = Some rj ->
                compositeKey ri cols = compositeKey rj cols -> i = j)).
Proof.
  intros observer before data schema unique r Hrun Hnd Hproto _.
  apply validateData_returns in Hrun as (Herr & _ & _). cbv zeta in Herr.
  rewrite Herr, app_nil, dataErrors_nil, (resolutionErrors_nil unique data Hnd Hproto).
  done.
Qed.

Lemma no_errors_iff_cells_valid_and_keys_distinct_witness :
  let data := [ Samples.emailRow "x@y.com"; Samples.emailRow "z@y.com" ] in
  let r := {| errors := []; processedData := data |} in
  errors r = []
  <-> (forall i rowData col rules,
          data !! i = Some rowData -> (col, rules) ∈ Samples.emailSchema ->
          validateCell (i + 2) col rules (trimValue (getProp rowData col)) = [])
      /\ (forall cols i j ri rj,
             cols ∈ [["email"]] -> data !! i = Some ri -> data !! j = Some rj ->
             compositeKey ri cols = compositeKey rj cols -> i = j).
Proof.
  intros data r.
  apply (no_errors_iff_cells_valid_and_keys_distinct idle Samples.freshRefs data
           Samples.emailSchema [["email"]] r).
  - vm_compute. reflexivity.
  - vm_compute. apply NoDup_singleton.
  - intros H. apply list_elem_of_singleton in H. discriminate H.
  - apply (bool_decide_unpack _). vm_compute. reflexivity.
Defined.

(** ** Type mismatches *)

(** X17.  A present value whose typeof differs from the declared type of
    its column (and that the required check lets through) gets exactly one
    error from the column loop, the TYPE_MISMATCH error naming the declared
    and the actual type: in a run that returns, it is the only error with
    that row and column apart from DUPLICATE errors of the resolution, so
    the format validators, the accepted values and the custom validator
    were not consulted for the cell. *)
Theorem type_mismatch_reported_alone :
  forall (observer : Observer) (before : Refs) (data : list Row)
         (schema : ExcelValidationSchema) (unique : ExcelUniqueConstraint)
         (r : ValidationResult) (i : nat) (rowData : Row) (col : string)
         (rules : ExcelValidationSchemaOption) (t : ExcelCellDataType),
    NoDup (schemaKeys schema) ->
    (col, rules) ∈ schema ->
    data !! i = Some rowData ->
    type rules = Some t ->
    isNullish (trimValue (getProp rowData col)) = false ->
    required rules && isMissing (trimValue (getProp rowData col)) = false ->
    typeof (trimValue (getProp rowData col)) <> typeName t ->
    outcome (validateData observer before data schema unique) = Return r ->
    List.filter
      (fun e => bool_decide (row e = i + 2 /\ column e = col /\ errorType e <> DUPLICATE))
      (errors r)
    = [ {| row := i + 2; column := col;
           message := "Expected type " ++ typeName t ++ ", got "
                      ++ typeof (trimValue (getProp rowData col));
           errorType := TYPE_MISMATCH |} ].
Proof.
  intros observer before data schema unique r i rowData col rules t
         Hnd Hin Hi Htype Hnn Hreq Hne Hrun.
  assert (Hcell : validateCell (i + ROW_NUMBER_OFFSET) col rules
                    (trimValue (getProp rowData col))
                  = [typeMismatchError (i + 2) col t (trimValue (getProp rowData col))]).
  { unfold validateCell, typeMismatch. rewrite Hreq, Htype, Hnn.
    destruct (String.eqb_spec (typeof (trimValue (getProp rowData col))) (typeName t));
      [done|reflexivity]. }
  apply validateData_returns in Hrun as (Herr & _ & _).
  destruct (dataErrors_cell schema data i rowData col rules Hnd Hi Hin)
    as (pre & post & Hcut & Hother).
  rewrite Hcell in Hcut. rewrite Herr, Hcut. change ROW_NUMBER_OFFSET with 2 in *.
  rewrite !List.filter_app. simpl. rewrite !filter_none.
  - rewrite bool_decide_eq_true_2 by done. reflexivity.
  - intros e He. apply resolutionErrors_type in He as [Ht _].
    apply bool_decide_eq_false_2. intros (_ & _ & H). congruence.
  - intros e He. apply bool_decide_eq_false_2. intros (Hr & Hc & _).
    apply (Hother e); [apply elem_of_app; by right|done].
  - intros e He. apply bool_decide_eq_false_2. intros (Hr & Hc & _).
    apply (Hother e); [apply elem_of_app; by left|done].
Qed.

Lemma type_mismatch_reported_alone_witness :
  let r := {| errors := [ typeMismatchError 2 "age" TypeNumber (VString "abc") ];
              processedData := [ Samples.ageRow (VString "abc") ] |} in
  List.filter
    (fun e => bool_decide (row e = 0 + 2 /\ column e = "age" /\ errorType e <> DUPLICATE))
    (errors r)
  = [ {| row := 0 + 2; column := "age";
         message := "Expected type " ++ typeName TypeNumber ++ ", got "
                    ++ typeof (trimValue (getProp (Samples.ageRow (VString " abc")) "age"));
         errorType := TYPE_MISMATCH |} ].
Proof.
  intros r.
  apply (type_mismatch_reported_alone idle Samples.freshRefs
           [ Samples.ageRow (VString " abc") ] Samples.ageSchema [] r 0
           (Samples.ageRow (VString " abc")) "age" Samples.ageRules TypeNumber).
  - vm_compute. apply NoDup_singleton.
  - vm_compute. left.
  - reflexivity.
  - reflexivity.
  - reflexivity.
  - reflexivity.
  - vm_compute. discriminate.
  - vm_compute. reflexivity.
Defined.

(** ** The earlier version of the composable *)

Lemma Legacy_validateCell rowNumber col rules value :
  Legacy.validateCell rowNumber col rules value
  = validateCell rowNumber col (renameSwitches rules) value.
Proof.
  unfold Legacy.validateCell, validateCell.
  assert (Hfmt : Legacy.formatErrors rowNumber col rules value
                 = formatErrors rowNumber col (renameSwitches rules) value).
  { unfold Legacy.formatErrors, formatErrors. simpl.
    by destruct (Legacy.validators rules). }
  by rewrite Hfmt.
Qed.

Lemma Legacy_validateColumns rowNumber rowData : forall entries processedRow errs,
  Legacy.validateColumns rowNumber rowData entries processedRow errs
  = validateColumns rowNumber rowData (migrateSchema entries) processedRow errs.
Proof.
  induction entries as [|[col rules] rest IH]; intros processedRow errs; simpl; [done|].
  by rewrite IH, Legacy_validateCell.
Qed.

Lemma Legacy_processRow schema unique rowIndex rowData st :
  Legacy.processRow schema unique rowIndex rowData st
  = processRow (migrateSchema schema) unique rowIndex rowData st.
Proof.
  unfold Legacy.processRow, processRow.
  by rewrite Legacy_validateColumns.
Qed.

Lemma Legacy_publishStep observer totalSteps st :
  Legacy.publishStep observer totalSteps st = updateProgress observer totalSteps st.
Proof. reflexivity. Qed.

Lemma Legacy_rowLoop observer schema unique totalSteps : forall data rowIndex st,
  Legacy.rowLoop observer schema unique totalSteps rowIndex data st
  = legacyLoopResult
      (rowLoop observer (migrateSchema schema) unique totalSteps rowIndex data st).
Proof.
  induction data as [|rowData rest IH]; intros rowIndex st; simpl; [done|].
  destruct (isValidationCancelled (st_refs st)); [done|].
  by rewrite Legacy_publishStep, Legacy_processRow, IH.
Qed.

Lemma Legacy_groupLoop observer totalSteps : forall entries st,
  Legacy.groupLoop observer totalSteps entries st
  = legacyLoopResult (groupLoop observer totalSteps entries st).
Proof.
  induction entries as [|[key valueMap] rest IH]; intros st; simpl; [done|].
  destruct (isValidationCancelled (st_refs st)); [done|].
  by rewrite Legacy_publishStep, IH.
Qed.

Lemma Legacy_validateData observer before data schema unique :
  Legacy.validateData observer before data schema unique
  = {| outcome := legacyCompletion
                    (outcome (validateData observer before data
                                (migrateSchema schema) unique));
       refs := refs (validateData observer before data (migrateSchema schema) unique);
       published := published (validateData observer before data
                                 (migrateSchema schema) unique) |}.
Proof.
  unfold Legacy.validateData, validateData. cbv zeta.
  rewrite Legacy_rowLoop.
  destruct (rowLoop observer (migrateSchema schema) unique (length data + length unique)
              0 data (initialState unique)) as [st|e st]; simpl; [|done].
  rewrite Legacy_groupLoop.
  by destruct (groupLoop observer (length data + length unique)
                 (JsObject.entries (st_uniqueValues st)) st) as [st2|e st2].
Qed.

Lemma schemaKeys_migrateSchema schema :
  schemaKeys (migrateSchema schema) = Legacy.schemaKeys schema.
Proof.
  unfold schemaKeys, Legacy.schemaKeys, migrateSchema. rewrite map_map.
  apply map_ext. by intros [col rules].
Qed.

Lemma Legacy_validateHeader schema header :
  Legacy.validateHeader schema header = validateHeader (migrateSchema schema) header.
Proof.
  unfold Legacy.validateHeader, Legacy.validateHeaderLog, validateHeader, validateHeaderLog.
  cbv zeta. rewrite schemaKeys_migrateSchema.
  destruct (0 <? length _)%nat; [done|]. by destruct (0 <? length _)%nat.
Qed.


(** X19.  The earlier version of validateExcelFile, on a schema written
    with its switch names, completes like this one on the schema with the
    switches renamed (the header check gives the same answer in both, with
    different console output): same structural errors, same returned rows
    and errors; only a cancelled run comes out as the plain error instead
    of the cancellation signal. *)
Theorem legacy_validateExcelFile_differs_only_in_the_signal :
  forall (FileData : Type) (XLSX_read : FileData -> Decoded)
         (observer : Observer) (before : Refs) (fileData : FileData)
         (schema : Legacy.ExcelValidationSchema) (unique : ExcelUniqueConstraint),
    (forall header,
        Legacy.validateHeader schema header = validateHeader (migrateSchema schema) header)
    /\ Legacy.validateExcelFile XLSX_read observer before fileData schema unique
       = legacyCompletion
           (validateExcelFile XLSX_read observer before fileData
              (migrateSchema schema) unique).
Proof.
  intros FileData XLSX_read observer before fileData schema unique.
  split; [apply Legacy_validateHeader|].
  unfold Legacy.validateExcelFile, validateExcelFile.
  destruct (XLSX_read fileData) as [m|jsonData excelHeader]; [done|].
  destruct (length jsonData =? 0)%nat; [done|].
  rewrite Legacy_validateHeader.
  destruct (negb (validateHeader (migrateSchema schema) excelHeader)); [done|].
  rewrite Legacy_validateData. simpl.
  by destruct (outcome (validateData observer before jsonData (migrateSchema schema)
                          unique)).
Qed.

(** ** What a returned file result tells *)

(** X20.  When validateExcelFile returns, the decoder succeeded and the raw
    rows of the result are the rows it decoded, there is at least one row,
    every column of the schema is among the trimmed headers, the processed
    rows are the cleaned raw rows, one for one, and every error points at
    one of the raw rows. *)
Theorem validateExcelFile_result_shape :
  forall (FileData : Type) (XLSX_read : FileData -> Decoded)
         (observer : Observer) (before : Refs) (fileData : FileData)
         (schema : ExcelValidationSchema) (unique : ExcelUniqueConstraint)
         (result : File.Result),
    validateExcelFile XLSX_read observer before fileData schema unique = Return result ->
    exists excelHeader,
      XLSX_read fileData = Workbook (File.rawData result) excelHeader
      /\ File.rawData result <> []
      /\ (forall k, k ∈ schemaKeys schema -> k ∈ map JsString.trim excelHeader)
      /\ File.processedData result = map (cleanRow schema) (File.rawData result)
      /\ (forall e, e ∈ File.errors result ->
            2 <= row e <= length (File.rawData result) + 1).
Proof.
  intros FileData XLSX_read observer before fileData schema unique result.
  unfold validateExcelFile.
  destruct (XLSX_read fileData) as [m|jsonData excelHeader]; [discriminate|].
  destruct jsonData as [|rowData rest]; [discriminate|].
  cbn [length Nat.eqb].
  destruct (validateHeader schema excelHeader) eqn:Hhdr; [|discriminate].
  cbn [negb].
  destruct (outcome (validateData observer before (rowData :: rest) schema unique))
    as [r|e] eqn:Hout; [|discriminate].
  intros [= <-]. exists excelHeader. cbn [File.rawData File.processedData File.errors].
  split; [done|]. split; [done|]. split; [by apply validateHeader_true|].
  pose proof Hout as Hret. apply validateData_returns in Hret as (_ & Hp & _).
  split; [done|]. intros e He.
  assert (Hk : exists k, e ∈ errorsAfter schema unique (rowData :: rest) k).
  { destruct (validateData_run observer before (rowData :: rest) schema unique)
      as (k & _ & _ & _ & _ & [[_ Hout2]|(_ & _ & Hout2)]);
      rewrite Hout2 in Hout; [|discriminate].
    injection Hout as <-. eauto. }
  destruct Hk as [k Hk]. apply errorsAfter_location in Hk as [Hrow _].
  unfold ROW_NUMBER_OFFSET in Hrow. lia.
Qed.

Lemma validateExcelFile_result_shape_witness :
  let result := {| File.rawData := [ Samples.emailRow "bad"; Samples.emailRow "x@y.com" ];
                   File.processedData :=
                     [ Samples.emailRow "bad"; Samples.emailRow "x@y.com" ];
                   File.errors := [ emailError 2 "email" ] |} in
  exists excelHeader,
    Samples.twoEmails tt = Workbook (File.rawData result) excelHeader
    /\ File.rawData result <> []
    /\ (forall k, k ∈ schemaKeys Samples.emailSchema -> k ∈ map JsString.trim excelHeader)
    /\ File.processedData result = map (cleanRow Samples.emailSchema) (File.rawData result)
    /\ (forall e, e ∈ File.errors result ->
          2 <= row e <= length (File.rawData result) + 1).
Proof.
  intros result.
  apply (validateExcelFile_result_shape unit Samples.twoEmails idle Samples.freshRefs tt
           Samples.emailSchema [] result).
  vm_compute. reflexivity.
Defined.

(** ** The bus number pattern *)

Lemma Matches_Opt_Class p s :
  Matches (RegExp.Opt (RegExp.Class p)) s <-> charsOf p 0 1 s.
Proof.
  unfold RegExp.Opt, charsOf. split.
  - intros H. inversion H as [| | |? ? ? HL|? ? ? HR| |]; subst.
    + apply Matches_Class in HL as (c & -> & Hc). simpl. rewrite Hc. split; [lia|done].
    + inversion HR. simpl. split; [lia|done].
  - intros [[_ Hlen] Hall]. destruct s as [|c [|d s]]; simpl in *.
    + apply MAltR. constructor.
    + apply MAltL, Matches_Class. exists c. split; [done|].
      by apply andb_true_iff in Hall as [Hall _].
    + lia.
Qed.

(** X21.  The bus number check (declared in the composable, not called by
    it) accepts exactly the texts made of two letters, one or two digits,
    one or two letters and four digits, in this order, letters of either
    case, with at most one white-space character between one part and the
    next. *)
Theorem isBusNumber_iff :
  forall value : JsValue,
    _isBusNumber value = true
    <-> exists l1 w1 d1 w2 l2 w3 d2 : string,
          String_ value = (l1 +:+ w1 +:+ d1 +:+ w2 +:+ l2 +:+ w3 +:+ d2)
          /\ charsOf isLetter 2 2 l1
          /\ charsOf JsString.isWhiteSpace 0 1 w1
          /\ charsOf JsString.isDigit 1 2 d1
          /\ charsOf JsString.isWhiteSpace 0 1 w2
          /\ charsOf isLetter 1 2 l2
          /\ charsOf JsString.isWhiteSpace 0 1 w3
          /\ charsOf JsString.isDigit 4 4 d2.
Proof.
  intros value. unfold _isBusNumber, busPattern. rewrite test_Matches. split.
  - intros H.
    inversion H as [| |? ? l1 r1 Hl1 Hq1| | | |]; subst.
    inversion Hq1 as [| |? ? w1 r2 Hw1 Hq2| | | |]; subst.
    inversion Hq2 as [| |? ? d1 r3 Hd1 Hq3| | | |]; subst.
    inversion Hq3 as [| |? ? w2 r4 Hw2 Hq4| | | |]; subst.
    inversion Hq4 as [| |? ? l2 r5 Hl2 Hq5| | | |]; subst.
    inversion Hq5 as [| |? ? w3 d2 Hw3 Hd2| | | |]; subst.
    apply (Matches_Exactly_Class _ 2) in Hl1 as [Hl1 Hl1c].
    apply (Matches_Opt_Class JsString.isWhiteSpace) in Hw1.
    apply (Matches_Between_Class _ 1 2) in Hd1; [|lia].
    apply (Matches_Opt_Class JsString.isWhiteSpace) in Hw2.
    apply (Matches_Between_Class _ 1 2) in Hl2; [|lia].
    apply (Matches_Opt_Class JsString.isWhiteSpace) in Hw3.
    apply (Matches_Exactly_Class _ 4) in Hd2 as [Hd2 Hd2c].
    exists l1, w1, d1, w2, l2, w3, d2.
    split; [by symmetry|]. unfold charsOf at 1 7.
    split; [split; [lia|done]|]. do 5 (split; [done|]). split; [lia|done].
  - intros (l1 & w1 & d1 & w2 & l2 & w3 & d2 & -> & [Hl1 Hl1c] & Hw1 & Hd1 & Hw2
            & Hl2 & Hw3 & [Hd2 Hd2c]).
    apply MSeq; [apply Matches_Exactly_Class; split; [lia|done]|].
    apply MSeq; [by apply Matches_Opt_Class|].
    apply MSeq; [apply Matches_Between_Class; [lia|done]|].
    apply MSeq; [by apply Matches_Opt_Class|].
    apply MSeq; [apply Matches_Between_Class; [lia|done]|].
    apply MSeq; [by apply Matches_Opt_Class|].
    apply Matches_Exactly_Class. split; [lia|done].
Qed.

(** ** A constraint group whose key is [__proto__] *)

Lemma length_filter_out (l : list string) (x : string) :
  NoDup l -> x ∈ l -> S (length (filter (fun k => k <> x) l)) = length l.
Proof.
  induction l as [|k l IH]; intros Hnd Hin; [by apply elem_of_nil in Hin|].
  apply NoDup_cons in Hnd as [Hk Hnd].
  destruct (decide (k = x)) as [->|Hne].
  - rewrite filter_cons_False by (intros H; by apply H). simpl. f_equal.
    f_equal. clear IH Hin Hnd. induction l as [|k l IH]; [done|].
    apply not_elem_of_cons in Hk as [Hne Hk].
    rewrite filter_cons_True by done. simpl. f_equal. by apply IH.
  - rewrite filter_cons_True by done. simpl. f_equal. apply IH; [done|].
    apply elem_of_cons in Hin as [Heq|Hin]; [congruence|done].
Qed.

Lemma initUniqueValues_length_proto unique :
  NoDup (map uniqueKey unique) ->
  "__proto__" ∈ map uniqueKey unique ->
  S (length (initUniqueValues unique)) = length unique.
Proof.
  intros Hnd Hproto. destruct (initUniqueValues_keys unique) as [Hnd2 Hkeys].
  rewrite <- (length_map uniqueKey unique).
  rewrite <- (length_filter_out (map uniqueKey unique) "__proto__") by done.
  f_equal. rewrite <- (length_map fst (initUniqueValues unique)).
  apply Permutation_length, NoDup_Permutation; [done|by apply NoDup_filter|].
  intros k. fold (JsObject.keys (initUniqueValues unique)).
  rewrite Hkeys, list_elem_of_filter. tauto.
Qed.

(** X23.  A constraint group whose key is "__proto__" is never resolved:
    in a run that returns, no error that follows those of the cells carries
    that key, and, the keys being pairwise distinct, the run makes one step
    fewer than [data.length + unique.length], so that its last progress
    value is that of N + M - 1 steps. *)
Theorem proto_group_is_never_resolved :
  forall (observer : Observer) (before : Refs) (data : list Row)
         (schema : ExcelValidationSchema) (unique : ExcelUniqueConstraint)
         (r : ValidationResult),
    outcome (validateData observer before data schema unique) = Return r ->
    NoDup (map uniqueKey unique) ->
    "__proto__" ∈ map uniqueKey unique ->
    let seen := published (validateData observer before data schema unique) in
    (forall e, e ∈ drop (length (dataErrors schema 0 data)) (errors r) ->
               column e <> "__proto__")
    /\ length seen = length data + length unique
    /\ last seen
       = Some (getProgress (length data + length unique - 1)
                           (length data + length unique)).
Proof.
  intros observer before data schema unique r Hrun Hnd Hproto seen.
  apply validateData_returns in Hrun as (Herr & _ & Hpub). cbv zeta in Herr, Hpub.
  pose proof (initUniqueValues_length_proto unique Hnd Hproto) as Hlen.
  rewrite trackRows_length in Hpub.
  split; [|split].
  - intros e He. rewrite Herr, drop_app_length in He.
    by apply resolutionErrors_not_proto in He as [_ He].
  - unfold seen. rewrite Hpub. unfold progressValues. cbn [length].
    rewrite length_map, length_seq. lia.
  - unfold seen. rewrite Hpub. unfold progressValues.
    destruct (length data + length (initUniqueValues unique)) as [|n] eqn:En.
    + replace (length data + length unique - 1) with 0 by lia.
      by rewrite getProgress_zero.
    + rewrite seq_S, map_app. cbn [map].
      change (0%Z :: ?l ++ [?x]) with ((0%Z :: l) ++ [x]). rewrite last_snoc.
      do 2 f_equal. lia.
Qed.

Lemma proto_group_is_never_resolved_witness :
  let run := validateData idle Samples.freshRefs [ Samples.protoRow; Samples.protoRow ]
               [] [["__proto__"]] in
  outcome run = Return {| errors := []; processedData := [ ∅; ∅ ] |}
  /\ published run = [ 0%Z; 33%Z; 67%Z ]
  /\ length (published run) = 2 + 1.
Proof.
  intros run.
  assert (Hrun : outcome run = Return {| errors := []; processedData := [ ∅; ∅ ] |})
    by (vm_compute; reflexivity).
  split; [exact Hrun|]. split; [vm_compute; reflexivity|].
  refine (proj1 (proj2 (proto_group_is_never_resolved idle Samples.freshRefs
                          [ Samples.protoRow; Samples.protoRow ] [] [["__proto__"]]
                          _ Hrun _ _))).
  - apply NoDup_singleton.
  - apply list_elem_of_singleton. reflexivity.
Defined.
